(** * OpenVPN 3 client core: a shallow embedding of selected components

    The development follows the layout of the C++ sources:

    - [HostPort]   -- openvpn/common/hostport.hpp
    - [TLSRemote]  -- openvpn/ssl/tls_remote.hpp
    - [PacketID]   -- the replay window of the packet-id service
    - [MbedTLS]    -- the mbed TLS adapter (MbedTLSContext and MbedTLSContext::SSL)
    - [ClientAPI]  -- client/ovpncli.cpp (OpenVPNClient and its private ClientState)

    Definitions come first, one module per source file; the properties
    proved about them follow in the second half of the file. *)

From Stdlib Require Import List String Ascii Bool ZArith NArith Arith Lia.
Import ListNotations.

Local Open Scope string_scope.

(** ** Characters and std::string helpers *)

Definition char_code (c : ascii) : N := N_of_ascii c.

(** [lo <= c && c <= hi] on character codes. *)
Definition char_in_range (lo hi c : ascii) : bool :=
  (char_code lo <=? char_code c)%N && (char_code c <=? char_code hi)%N.

Definition char_eqb (a b : ascii) : bool := Ascii.eqb a b.

(** std::string::find_first_of(char): index of the first occurrence, or npos. *)
Fixpoint find_first_of (c : ascii) (s : string) : option nat :=
  match s with
  | EmptyString => None
  | String a s' =>
      if char_eqb a c then Some 0
      else match find_first_of c s' with
           | Some i => Some (S i)
           | None => None
           end
  end.

(** std::string::find_last_of(char): index of the last occurrence, or npos. *)
Fixpoint find_last_of (c : ascii) (s : string) : option nat :=
  match s with
  | EmptyString => None
  | String a s' =>
      match find_last_of c s' with
      | Some i => Some (S i)
      | None => if char_eqb a c then Some 0 else None
      end
  end.

(** std::string::substr(pos): the suffix starting at [pos]. *)
Fixpoint substr_from (pos : nat) (s : string) : string :=
  match pos, s with
  | O, _ => s
  | S p, String _ s' => substr_from p s'
  | S _, EmptyString => EmptyString
  end.

(** std::string::substr(pos, len). *)
Definition substr (pos len : nat) (s : string) : string := substring pos len s.

(** std::string::operator[] for an index inside the string. *)
Definition char_at (s : string) (i : nat) : option ascii := String.get i s.

(** Every character of the string satisfies [p] (the range-for loops that
    return false on the first offending character). *)
Fixpoint string_forallb (p : ascii -> bool) (s : string) : bool :=
  match s with
  | EmptyString => true
  | String c s' => if p c then string_forallb p s' else false
  end.

(** std::string::starts_with. *)
Definition starts_with (s pre : string) : bool := String.prefix pre s.

(** ** openvpn/common/hostport.hpp *)

Module HostPort.

(** Modelled from the spec: [parse_number] and [parse_number_validate] of
    openvpn/common/number.hpp live outside the files modelled here.  The call
    site fixes the parameters (at most 5 characters, value within 1..65535);
    the parser itself is the usual digit loop over an unsigned accumulator:
    the empty string and any non-digit character are refused.  This is the
    test for a decimal digit. *)
Definition is_digit (c : ascii) : bool := char_in_range "0" "9" c.

(** Modelled from the spec: the value [c - '0'] of a digit of
    [parse_number]. *)
Definition digit_value (c : ascii) : N := (char_code c - char_code "0")%N.

(** Modelled from the spec: the loop of [parse_number], [ret] being the
    accumulator; it stops with the value at the end of the string and gives
    up at the first non-digit. *)
Fixpoint parse_number_loop (s : string) (ret : N) : option N :=
  match s with
  | EmptyString => Some ret
  | String c s' =>
      if is_digit c
      then parse_number_loop s' (ret * 10 + digit_value c)%N
      else None
  end.

(** Modelled from the spec: [parse_number] refuses the empty string and
    otherwise runs the digit loop from 0. *)
Definition parse_number (s : string) : option N :=
  match s with
  | EmptyString => None
  | _ => parse_number_loop s 0%N
  end.

(** Modelled from the spec: [parse_number_validate] accepts a string of at
    most [max_len] characters that parses to a value within
    [minimum..maximum], and hands that value back. *)
Definition parse_number_validate
           (numstr : string) (max_len : nat) (minimum maximum : N) : option N :=
  if (String.length numstr <=? max_len)%nat then
    match parse_number numstr with
    | Some value =>
        if ((minimum <=? value) && (value <=? maximum))%N then Some value else None
    | None => None
    end
  else None.


(** [is_valid_port(const std::string &port, unsigned int *value)]: the
    result is [Some v] when the function returns true and stores [v]. *)
Definition is_valid_port_value (port : string) : option N :=
  parse_number_validate port 5 1%N 65535%N.

Definition is_valid_port_str (port : string) : bool :=
  match is_valid_port_value port with Some _ => true | None => false end.

Definition is_valid_host_char (c : ascii) : bool :=
  char_in_range "a" "z" c
  || char_in_range "A" "Z" c
  || char_in_range "0" "9" c
  || char_eqb c "."
  || char_eqb c "-"
  || char_eqb c ":".

Definition is_valid_host (host : string) : bool :=
  if ((String.length host =? 0) || (256 <? String.length host))%nat then false
  else string_forallb is_valid_host_char host.

Definition is_valid_unix_sock_char (c : ascii) : bool :=
  (33 <=? char_code c)%N && (char_code c <=? 126)%N.

Definition is_valid_unix_sock (host : string) : bool :=
  if ((String.length host =? 0) || (256 <? String.length host))%nat then false
  else string_forallb is_valid_unix_sock_char host.

(** The by-reference outputs of [split_host_port] together with its
    boolean result. *)
Record split_result := mk_split_result {
  split_ok : bool;
  split_host : string;
  split_port : string;
  split_port_save : N
}.

(** The first [if] of [split_host_port]: does the string carry an explicit
    port?  [fpos], [lpos] and [cb] are the three searches of the source. *)
Definition has_explicit_port (str : string) : option nat :=
  let fpos := find_first_of ":" str in
  let lpos := find_last_of ":" str in
  let cb := find_last_of "]" str in
  match lpos with
  | None => None
  | Some l =>
      let bracket_ok :=
        match cb with None => true | Some c => (c + 1 =? l)%nat end in
      let single_ok :=
        match cb with
        | Some _ => true
        | None => match fpos with Some f => (f =? l)%nat | None => false end
        end in
      if bracket_ok && single_ok then Some l else None
  end.

Definition unbracket (host : string) : string :=
  let n := String.length host in
  if (2 <=? n)%nat
     && match char_at host 0 with Some c => char_eqb c "[" | None => false end
     && match char_at host (n - 1) with Some c => char_eqb c "]" | None => false end
  then substr 1 (n - 2) host
  else host.

(** [host0] and [port0] are the values the caller's strings hold on entry;
    they are left alone when the function gives up before assigning them. *)
Definition split_host_port
           (str host0 port0 default_port : string) (allow_unix : bool)
  : split_result :=
  let assigned :=
    match has_explicit_port str with
    | Some lpos => Some (substr 0 lpos str, substr_from (lpos + 1) str)
    | None =>
        if negb (String.eqb default_port "") then Some (str, default_port)
        else None
    end in
  match assigned with
  | None => mk_split_result false host0 port0 0%N
  | Some (host, port) =>
      let host := unbracket host in
      if allow_unix && String.eqb port "unix"
      then mk_split_result (is_valid_unix_sock host) host port 0%N
      else if is_valid_host host
           then match is_valid_port_value port with
                | Some v => mk_split_result true host port v
                | None => mk_split_result false host port 0%N
                end
           else mk_split_result false host port 0%N
  end.

End HostPort.

(** ** openvpn/ssl/tls_remote.hpp *)

Module TLSRemote.

Definition test (tls_remote subject common_name : string) : bool :=
  String.eqb tls_remote subject || starts_with common_name tls_remote.

Definition x509_name_char_ok (c : ascii) : bool :=
  char_in_range "a" "z" c
  || char_in_range "A" "Z" c
  || char_in_range "0" "9" c
  || char_eqb c "_" || char_eqb c "-" || char_eqb c "."
  || char_eqb c "@" || char_eqb c ":" || char_eqb c "/"
  || char_eqb c "=".

(** The loop of [sanitize_x509_name], with [leading_dash] as loop state. *)
Fixpoint sanitize_x509_name_loop (leading_dash : bool) (str : string) : string :=
  match str with
  | EmptyString => EmptyString
  | String c rest =>
      if char_eqb c "-" && leading_dash
      then String "_" (sanitize_x509_name_loop leading_dash rest)
      else if x509_name_char_ok c
           then String c (sanitize_x509_name_loop false rest)
           else String "_" (sanitize_x509_name_loop false rest)
  end.

Definition sanitize_x509_name (str : string) : string :=
  sanitize_x509_name_loop true str.

Definition common_name_char_ok (c : ascii) : bool :=
  char_in_range "a" "z" c
  || char_in_range "A" "Z" c
  || char_in_range "0" "9" c
  || char_eqb c "_" || char_eqb c "-" || char_eqb c "."
  || char_eqb c "@" || char_eqb c "/".

Fixpoint sanitize_common_name (str : string) : string :=
  match str with
  | EmptyString => EmptyString
  | String c rest =>
      if common_name_char_ok c
      then String c (sanitize_common_name rest)
      else String "_" (sanitize_common_name rest)
  end.

End TLSRemote.

(** ** Packet-ID service: the replay window *)

Module PacketID.

Local Open Scope Z_scope.

(** Modelled from the spec: the packet-id receive side (PacketIDReceive)
    lives outside the files modelled here.  Per inbound key the service keeps a
    high-water mark and a sliding bitmap of [width] recently seen ids; bit
    [i] of the bitmap stands for id [high - i].  An id at or below
    [high - width] is expired, an id whose bit is set is a duplicate, both
    are reported as REPLAY; any other id is admitted and recorded.  A new
    maximum shifts the bitmap by [new_high - old_high], and a shift of at
    least the window width clears it. *)
Record ReplayWindow := mk_window {
  width : Z;
  high : Z;
  bitmap : Z
}.

(** Modelled from the spec: the outcome of [accept]; an id is admitted, or
    rejected as expired or as duplicate. *)
Inductive verdict := Accepted | Expired | Duplicate.

(** Modelled from the spec: both rejections surface as REPLAY. *)
Definition is_replay (v : verdict) : bool :=
  match v with Accepted => false | _ => true end.

(** Modelled from the spec: a fresh window of width [w]. *)
Definition init (w : Z) : ReplayWindow := mk_window w 0 0.

(** Modelled from the spec: a new maximum [id] shifts the bitmap by
    [id - high], a shift of at least the width clears it, and the bit of the
    new maximum is set. *)
Definition advance (w : ReplayWindow) (id : Z) : ReplayWindow :=
  let shift := id - high w in
  let shifted :=
    if width w <=? shift then 0
    else Z.land (Z.shiftl (bitmap w) shift) (Z.ones (width w)) in
  mk_window (width w) id (Z.lor shifted 1).

(** Modelled from the spec: an id inside the window has its bit set. *)
Definition mark (w : ReplayWindow) (id : Z) : ReplayWindow :=
  mk_window (width w) (high w) (Z.lor (bitmap w) (Z.shiftl 1 (high w - id))).

(** Modelled from the spec: [accept(id)] with the window it leaves behind. *)
Definition accept (w : ReplayWindow) (id : Z) : verdict * ReplayWindow :=
  if high w <? id then (Accepted, advance w id)
  else if id <=? high w - width w then (Expired, w)
  else if Z.testbit (bitmap w) (high w - id) then (Duplicate, w)
  else (Accepted, mark w id).

(** Modelled from the spec: feeding a sequence of ids, oldest first. *)
Fixpoint accept_all (w : ReplayWindow) (ids : list Z)
  : list verdict * ReplayWindow :=
  match ids with
  | [] => ([], w)
  | id :: rest =>
      let (v, w1) := accept w id in
      let (vs, w2) := accept_all w1 rest in
      (v :: vs, w2)
  end.

(** Modelled from the spec: [id] lies inside the window and its bit is
    set. *)
Definition seen (w : ReplayWindow) (id : Z) : bool :=
  (high w - width w <? id) && (id <=? high w) && Z.testbit (bitmap w) (high w - id).

End PacketID.

(** ** The mbed TLS adapter (MbedTLSContext, MbedTLSContext::SSL) *)

Module MbedTLS.

Local Open Scope Z_scope.
Local Open Scope list_scope.

Definition bytes := list Byte.byte.

(** Exceptions thrown by the adapter. *)
Inductive exn :=
| MbedTLSException (msg : string) (status : option Z)
| ssl_ciphertext_in_overflow.

Inductive result (A : Type) :=
| Ok (a : A)
| Throw (e : exn).
Arguments Ok {A} a.
Arguments Throw {A} e.

(** maximum number of queued input ciphertext packets *)
Definition MAX_CIPHERTEXT_IN : nat := 64.

(** read/write callback errors *)
Definition CT_WOULD_BLOCK : Z := - 0x8000.
Definition CT_INTERNAL_ERROR : Z := - 0x8001.

(** Constants of <mbedtls/x509.h>. *)
Definition MBEDTLS_X509_BADCERT_OTHER : Z := 0x0100.
Definition MBEDTLS_X509_NS_CERT_TYPE_SSL_CLIENT : Z := 0x80.
Definition MBEDTLS_X509_NS_CERT_TYPE_SSL_SERVER : Z := 0x40.

(** Modelled from the spec: MemQStream (openvpn/frame/memq_stream.hpp)
    lives outside the files modelled here.  It is the queue of ciphertext records
    between the reliable layer and the TLS engine: [write_buf] appends one
    record, [size] counts the queued records, and [read] drains bytes from
    the front, dropping each record once it is used up. *)
Definition MemQStream := list bytes.

(** Modelled from the spec: [MemQStream::size], the number of queued
    records. *)
Definition memq_size (q : MemQStream) : nat := List.length q.

(** Modelled from the spec: [MemQStream::empty]. *)
Definition memq_empty (q : MemQStream) : bool :=
  match q with [] => true | _ :: _ => false end.

(** Modelled from the spec: [MemQStream::write_buf] appends one record. *)
Definition memq_write_buf (q : MemQStream) (buf : bytes) : MemQStream :=
  q ++ [buf].

(** Modelled from the spec: [MemQStream::read] drains up to [len] bytes
    from the front and drops every record it uses up. *)
Fixpoint memq_read (q : MemQStream) (len : nat) : bytes * MemQStream :=
  match q with
  | [] => ([], [])
  | b :: q' =>
      if (len =? 0)%nat then ([], q)
      else if (List.length b <=? len)%nat
           then let (d, q'') := memq_read q' (len - List.length b) in (b ++ d, q'')
           else (firstn len b, skipn len b :: q')
  end.

(** Modelled from the spec: [MemQStream::read_buf] takes the front record,
    if there is one. *)
Definition memq_read_buf (q : MemQStream) : option (bytes * MemQStream) :=
  match q with
  | [] => None
  | b :: q' => Some (b, q')
  end.

(** What the adapter reads off an [mbedtls_x509_crt]. *)
Inductive md_type := MD_MD5 | MD_SHA1 | MD_OTHER.

Record x509_oid := mk_oid {
  oid_extended_key_usage : Z * string; (* mbedtls_oid_get_extended_key_usage *)
  oid_numeric_string : Z * string      (* mbedtls_oid_get_numeric_string *)
}.

Record x509_crt := mk_crt {
  raw : bytes;
  serial : bytes;
  x509_get_subject : string;
  x509_get_subject_new_format : string;
  x509_get_common_name : string;
  ns_cert_type : Z;
  sig_md : md_type;
  has_ext_key_usage : bool;
  check_key_usage : Z -> Z;
  ext_key_usage : list x509_oid;
  pk_is_rsa : bool
}.

(** AuthCert as far as the adapter writes it: the common name, the leaf
    serial number, the SHA-1 fingerprint of the issuer, and the defined
    flag. *)
Record AuthCert := mk_authcert {
  cn : string;
  serial_number : bytes;
  issuer_fp : bytes;
  defined_ : bool
}.

Inductive Mode := CLIENT | SERVER | MODE_UNDEF.
Inductive NSCertType := NS_NONE | NS_SERVER | NS_CLIENT.
Inductive VerifyX509Mode :=
| VERIFY_X509_NONE
| VERIFY_X509_SUBJECT_DN
| VERIFY_X509_SUBJECT_RDN
| VERIFY_X509_SUBJECT_RDN_PREFIX.

Record VerifyX509Name := mk_verify_x509 {
  get_mode : VerifyX509Mode;
  verify : string -> bool
}.

(** MbedTLSContext::Config, the fields the session constructor and the
    verify callbacks consult. *)
Record Config := mk_config {
  mode : Mode;
  flags : Z;
  ca_chain : bool;
  crt_chain : option x509_crt;
  priv_key : bool;
  external_pki : bool;
  dh : bool;
  rng : bool;
  local_cert_enabled : bool;
  cfg_ns_cert_type : NSCertType;
  ku : list Z;
  eku : string;
  tls_remote : string;
  verify_x509_name : VerifyX509Name
}.

(** The TLS library calls back into the adapter while it runs: the BIO
    receive and send functions and the certificate verify function.  A call
    into the library is a finite tree of such callbacks ending in the
    library's return value. *)
Inductive callback_prog (R : Type) : Type :=
| cb_return (r : R)
| cb_recv (len : nat) (k : Z * bytes -> callback_prog R)
| cb_send (data : bytes) (k : Z -> callback_prog R)
| cb_verify (cert : x509_crt) (depth : Z) (vflags : Z) (k : Z * Z -> callback_prog R).
Arguments cb_return {R} r.
Arguments cb_recv {R} len k.
Arguments cb_send {R} data k.
Arguments cb_verify {R} cert depth vflags k.

(** The collaborators of the adapter that live outside the files modelled
    here: the
    mbed TLS engine, the chunking [MemQStream::write], a fresh [AuthCert],
    and the constants of sslconsts.hpp and sslapi.hpp. *)
Record Library := mk_library {
  engine : Type;
  fresh_engine : engine;
  mbedtls_ssl_handshake : engine -> callback_prog (Z * engine);
  mbedtls_ssl_read : engine -> nat -> callback_prog (Z * bytes * engine);
  mbedtls_ssl_write : engine -> bytes -> callback_prog (Z * engine);
  mbedtls_ssl_set_hostname : option string -> Z;
  mbedtls_ssl_conf_dh_param_ctx : Z;
  mbedtls_ssl_setup : Z;
  mbedtls_sha1 : bytes -> Z * bytes;
  legacy_mbedtls : bool; (* MBEDTLS_VERSION_NUMBER < 0x03000000 *)
  memq_write : MemQStream -> bytes -> option MemQStream;
  new_AuthCert : AuthCert;
  MBEDTLS_ERR_SSL_PEER_CLOSE_NOTIFY : Z;
  SHOULD_RETRY : Z;
  PEER_CLOSE_NOTIFY : Z;
  NO_VERIFY_PEER : Z;
  PEER_CERT_OPTIONAL : Z;
  ENABLE_CLIENT_SNI : Z;
  TLS_WARN_SIG_MD5 : Z;
  TLS_WARN_SIG_SHA1 : Z
}.

Definition flag_set (fl mask : Z) : bool := negb (Z.land fl mask =? 0).

Section Adapter.

Variable L : Library.

(** MbedTLSContext::SSL *)
Record SSL := mk_ssl {
  ssl : engine L;
  parent : Config;
  ct_in : MemQStream;
  ct_out : MemQStream;
  authcert : option AuthCert;
  overflow : bool;
  tls_warnings : Z
}.

Definition set_ssl (s : SSL) (e : engine L) : SSL :=
  mk_ssl e (parent s) (ct_in s) (ct_out s) (authcert s) (overflow s) (tls_warnings s).
Definition set_ct_in (s : SSL) (q : MemQStream) : SSL :=
  mk_ssl (ssl s) (parent s) q (ct_out s) (authcert s) (overflow s) (tls_warnings s).
Definition set_ct_out (s : SSL) (q : MemQStream) : SSL :=
  mk_ssl (ssl s) (parent s) (ct_in s) q (authcert s) (overflow s) (tls_warnings s).
Definition set_authcert (s : SSL) (a : option AuthCert) : SSL :=
  mk_ssl (ssl s) (parent s) (ct_in s) (ct_out s) a (overflow s) (tls_warnings s).
Definition set_overflow (s : SSL) (o : bool) : SSL :=
  mk_ssl (ssl s) (parent s) (ct_in s) (ct_out s) (authcert s) o (tls_warnings s).
Definition set_tls_warnings (s : SSL) (w : Z) : SSL :=
  mk_ssl (ssl s) (parent s) (ct_in s) (ct_out s) (authcert s) (overflow s) w.

(** The constructor of MbedTLSContext. *)
Definition MbedTLSContext_new (c : Config) : result Config :=
  if local_cert_enabled c
  then match crt_chain c with
       | Some _ => Ok c
       | None => Throw (MbedTLSException "cert is undefined" None)
       end
  else Ok c.

(** The constructor of MbedTLSContext::SSL (context and optional hostname):
    the checks of the constructor in source order; any throw erases the
    half-built session. *)
Definition SSL_new (c : Config) (hostname : option string) : result SSL :=
  match mode c with
  | MODE_UNDEF => Throw (MbedTLSException "unknown client/server mode" None)
  | m =>
    let authcert0 := match m with SERVER => Some (new_AuthCert L) | _ => None end in
    if negb (flag_set (flags c) (NO_VERIFY_PEER L))
       && flag_set (flags c) (PEER_CERT_OPTIONAL L)
    then Throw (MbedTLSException "Optional peer verification not supported" None)
    else if negb (ca_chain c) && negb (flag_set (flags c) (NO_VERIFY_PEER L))
    then Throw (MbedTLSException "CA chain not defined" None)
    else
      let use_hostname :=
        match hostname with
        | Some _ => flag_set (flags c) (ENABLE_CLIENT_SNI L) || ca_chain c
        | None => false
        end in
      if negb (mbedtls_ssl_set_hostname L
                 (if use_hostname then hostname else None) =? 0)
      then Throw (MbedTLSException "mbedtls_ssl_set_hostname failed" None)
      else
        let own_cert : option exn :=
          if local_cert_enabled c then
            if external_pki c then
              match crt_chain c with
              | Some crt =>
                  if pk_is_rsa crt then None
                  else Some (MbedTLSException
                               "cert has unsupported type for external pki support" None)
              | None => Some (MbedTLSException "cert is undefined" None)
              end
            else
              match crt_chain c with
              | Some _ =>
                  if priv_key c then None
                  else Some (MbedTLSException
                               "cert and/or private key is undefined" None)
              | None => Some (MbedTLSException
                                "cert and/or private key is undefined" None)
              end
          else None in
        match own_cert with
        | Some e => Throw e
        | None =>
          if dh c && (mbedtls_ssl_conf_dh_param_ctx L <? 0)
          then Throw (MbedTLSException "error in ssl_set_dh_param_ctx"
                        (Some (mbedtls_ssl_conf_dh_param_ctx L)))
          else if negb (rng c)
          then Throw (MbedTLSException "RNG not defined" None)
          else if mbedtls_ssl_setup L <? 0
          then Throw (MbedTLSException "mbedtls_ssl_setup failed" None)
          else Ok (mk_ssl (fresh_engine L) c [] [] authcert0 false 0)
        end
  end.

(** MbedTLSContext::ssl() *)
Definition MbedTLSContext_ssl (c : Config) : result SSL :=
  match MbedTLSContext_new c with
  | Ok ctx => SSL_new ctx None
  | Throw e => Throw e
  end.

(** ct_read_func: the BIO receive callback. *)
Definition ct_read_func (s : SSL) (len : nat) : (Z * bytes) * SSL :=
  let (data, q) := memq_read (ct_in s) len in
  let actual := List.length data in
  ((if (0 <? actual)%nat then Z.of_nat actual else CT_WOULD_BLOCK, data),
   set_ct_in s q).

(** ct_write_func: the BIO send callback. *)
Definition ct_write_func (s : SSL) (data : bytes) : Z * SSL :=
  match memq_write L (ct_out s) data with
  | Some q => (Z.of_nat (List.length data), set_ct_out s q)
  | None => (CT_INTERNAL_ERROR, s)
  end.

(** ns-cert-type verification *)
Definition ns_cert_type_defined (c : Config) : bool :=
  match cfg_ns_cert_type c with NS_NONE => false | _ => true end.

Definition verify_ns_cert_type (c : Config) (cert : x509_crt) : bool :=
  if legacy_mbedtls L then
    match cfg_ns_cert_type c with
    | NS_SERVER => flag_set (ns_cert_type cert) MBEDTLS_X509_NS_CERT_TYPE_SSL_SERVER
    | NS_CLIENT => flag_set (ns_cert_type cert) MBEDTLS_X509_NS_CERT_TYPE_SSL_CLIENT
    | NS_NONE => false
    end
  else false.

(** remote-cert-ku verification *)
Definition x509_cert_ku_defined (c : Config) : bool :=
  (0 <? List.length (ku c))%nat.

Definition verify_x509_cert_ku (c : Config) (cert : x509_crt) : bool :=
  if has_ext_key_usage cert
  then existsb (fun usage => negb (check_key_usage cert usage =? 0)) (ku c)
  else false.

(** remote-cert-eku verification *)
Definition x509_cert_eku_defined (c : Config) : bool :=
  negb (String.eqb (eku c) "").

Definition oid_matches (c : Config) (oid : x509_oid) : bool :=
  ((0 <=? fst (oid_extended_key_usage oid))
   && String.eqb (eku c) (snd (oid_extended_key_usage oid)))
  || ((0 <=? fst (oid_numeric_string oid))
      && String.eqb (eku c) (snd (oid_numeric_string oid))).

Definition verify_x509_cert_eku (c : Config) (cert : x509_crt) : bool :=
  if has_ext_key_usage cert
  then existsb (oid_matches c) (ext_key_usage cert)
  else false.

(** The three leaf checks shared by both verify callbacks: any failing check
    sets [fail]. *)
Definition leaf_policy_fail (c : Config) (cert : x509_crt) : bool :=
  (ns_cert_type_defined c && negb (verify_ns_cert_type c cert))
  || (x509_cert_ku_defined c && negb (verify_x509_cert_ku c cert))
  || (x509_cert_eku_defined c && negb (verify_x509_cert_eku c cert)).

Definition load_serial_number_into_authcert (a : AuthCert) (cert : x509_crt)
  : AuthCert :=
  let len := List.length (serial cert) in
  let size := List.length (serial_number a) in
  if ((0 <? len) && (len <=? size))%nat
  then mk_authcert (cn a)
         (repeat Byte.x00 (size - len) ++ serial cert)
         (issuer_fp a) (defined_ a)
  else a.

Definition load_issuer_fingerprint_into_authcert (a : AuthCert) (cert : x509_crt)
  : bool * AuthCert :=
  let (status, digest) := mbedtls_sha1 L (raw cert) in
  (status =? 0, mk_authcert (cn a) (serial_number a) digest (defined_ a)).

Definition or_flag (fail : bool) (vflags : Z) : Z :=
  if fail then Z.lor vflags MBEDTLS_X509_BADCERT_OTHER else vflags.

Definition tls_remote_fail (c : Config) (cert : x509_crt) : bool :=
  if negb (String.eqb (tls_remote c) "")
  then
    let subject := TLSRemote.sanitize_x509_name (x509_get_subject cert) in
    let common_name := TLSRemote.sanitize_common_name (x509_get_common_name cert) in
    negb (TLSRemote.test (tls_remote c) subject common_name)
  else false.

Definition verify_x509_name_fail (c : Config) (cert : x509_crt) : bool :=
  let v := verify_x509_name c in
  match get_mode v with
  | VERIFY_X509_NONE => false
  | VERIFY_X509_SUBJECT_DN => negb (verify v (x509_get_subject_new_format cert))
  | VERIFY_X509_SUBJECT_RDN
  | VERIFY_X509_SUBJECT_RDN_PREFIX => negb (verify v (x509_get_common_name cert))
  end.

(** verify_callback_client: returns the callback's return value and the
    updated verification flags. *)
Definition verify_callback_client (s : SSL) (cert : x509_crt) (depth vflags : Z)
  : (Z * Z) * SSL :=
  let c := parent s in
  let warn :=
    if legacy_mbedtls L then
      match sig_md cert with
      | MD_MD5 => Z.lor (tls_warnings s) (TLS_WARN_SIG_MD5 L)
      | MD_SHA1 => Z.lor (tls_warnings s) (TLS_WARN_SIG_SHA1 L)
      | MD_OTHER => tls_warnings s
      end
    else tls_warnings s in
  let fail :=
    if depth =? 0
    then leaf_policy_fail c cert || tls_remote_fail c cert || verify_x509_name_fail c cert
    else false in
  ((0, or_flag fail vflags), set_tls_warnings s warn).

(** verify_callback_server *)
Definition verify_callback_server (s : SSL) (cert : x509_crt) (depth vflags : Z)
  : (Z * Z) * SSL :=
  let c := parent s in
  if depth =? 1 then
    match authcert s with
    | Some a =>
        let (ok, a') := load_issuer_fingerprint_into_authcert a cert in
        ((0, or_flag (negb ok) vflags), set_authcert s (Some a'))
    | None => ((0, vflags), s)
    end
  else if depth =? 0 then
    let fail := leaf_policy_fail c cert in
    let s' :=
      match authcert s with
      | Some a =>
          let a1 := mk_authcert (x509_get_common_name cert)
                      (serial_number a) (issuer_fp a) (defined_ a) in
          let a2 := load_serial_number_into_authcert a1 cert in
          set_authcert s
            (Some (mk_authcert (cn a2) (serial_number a2) (issuer_fp a2) true))
      | None => s
      end in
    ((0, or_flag fail vflags), s')
  else ((0, vflags), s).

(** The callback installed by the constructor:
    [c.mode.is_server() ? verify_callback_server : verify_callback_client]. *)
Definition verify_callback (s : SSL) (cert : x509_crt) (depth vflags : Z)
  : (Z * Z) * SSL :=
  match mode (parent s) with
  | SERVER => verify_callback_server s cert depth vflags
  | _ => verify_callback_client s cert depth vflags
  end.

(** Running a call into the TLS library against the adapter's callbacks. *)
Fixpoint run_callbacks {R : Type} (p : callback_prog R) (s : SSL) : R * SSL :=
  match p with
  | cb_return r => (r, s)
  | cb_recv len k =>
      let (r, s') := ct_read_func s len in run_callbacks (k r) s'
  | cb_send data k =>
      let (r, s') := ct_write_func s data in run_callbacks (k r) s'
  | cb_verify cert depth vflags k =>
      let (r, s') := verify_callback s cert depth vflags in run_callbacks (k r) s'
  end.

(** start_handshake *)
Definition start_handshake (s : SSL) : SSL :=
  let '((_, e), s') := run_callbacks (mbedtls_ssl_handshake L (ssl s)) s in
  set_ssl s' e.

(** write_cleartext_unbuffered *)
Definition write_cleartext_unbuffered (s : SSL) (data : bytes) : result Z * SSL :=
  let '((status, e), s') := run_callbacks (mbedtls_ssl_write L (ssl s) data) s in
  let s'' := set_ssl s' e in
  if status <? 0 then
    if status =? CT_WOULD_BLOCK then (Ok (SHOULD_RETRY L), s'')
    else if status =? CT_INTERNAL_ERROR
    then (Throw (MbedTLSException "SSL write: internal error" None), s'')
    else (Throw (MbedTLSException "SSL write error" (Some status)), s'')
  else (Ok status, s'').

(** read_cleartext: the status (or thrown exception), the bytes stored into
    the caller's buffer, and the session afterwards. *)
Definition read_cleartext (s : SSL) (capacity : nat) : result Z * bytes * SSL :=
  if negb (overflow s) then
    let '((status, data, e), s') :=
      run_callbacks (mbedtls_ssl_read L (ssl s) capacity) s in
    let s'' := set_ssl s' e in
    if status <? 0 then
      if status =? CT_WOULD_BLOCK then (Ok (SHOULD_RETRY L), data, s'')
      else if status =? MBEDTLS_ERR_SSL_PEER_CLOSE_NOTIFY L
      then (Ok (PEER_CLOSE_NOTIFY L), data, s'')
      else if status =? CT_INTERNAL_ERROR
      then (Throw (MbedTLSException "SSL read: internal error" None), data, s'')
      else (Throw (MbedTLSException "SSL read error" (Some status)), data, s'')
    else (Ok status, data, s'')
  else (Throw ssl_ciphertext_in_overflow, [], s).

(** write_ciphertext *)
Definition write_ciphertext (s : SSL) (buf : bytes) : SSL :=
  if (memq_size (ct_in s) <? MAX_CIPHERTEXT_IN)%nat
  then set_ct_in s (memq_write_buf (ct_in s) buf)
  else set_overflow s true.

(** write_ciphertext_unbuffered: [MemQStream::write] throws when no frame is
    configured, in which case the exception leaves the session as it was. *)
Definition write_ciphertext_unbuffered (s : SSL) (data : bytes) : SSL :=
  if (memq_size (ct_in s) <? MAX_CIPHERTEXT_IN)%nat
  then match memq_write L (ct_in s) data with
       | Some q => set_ct_in s q
       | None => s
       end
  else set_overflow s true.

(** read_ciphertext_ready *)
Definition read_ciphertext_ready (s : SSL) : bool := negb (memq_empty (ct_out s)).

(** read_ciphertext *)
Definition read_ciphertext (s : SSL) : option bytes * SSL :=
  match memq_read_buf (ct_out s) with
  | Some (b, q) => (Some b, set_ct_out s q)
  | None => (None, s)
  end.

(** export_keying_material: not implemented in the mbed TLS adapter; the
    output buffer [out] is left as it is. *)
Definition export_keying_material (s : SSL) (label : string) (out : bytes) (size : nat)
  : bool * bytes :=
  (false, out).

(** did_full_handshake *)
Definition did_full_handshake (s : SSL) : bool := false.

(** auth_cert *)
Definition auth_cert (s : SSL) : option AuthCert := authcert s.

(** The calls a session receives over its life. *)
Inductive ssl_call :=
| call_start_handshake
| call_write_ciphertext (buf : bytes)
| call_write_ciphertext_unbuffered (data : bytes)
| call_read_cleartext (capacity : nat)
| call_write_cleartext_unbuffered (data : bytes)
| call_read_ciphertext.

Definition step (s : SSL) (c : ssl_call) : SSL :=
  match c with
  | call_start_handshake => start_handshake s
  | call_write_ciphertext buf => write_ciphertext s buf
  | call_write_ciphertext_unbuffered data => write_ciphertext_unbuffered s data
  | call_read_cleartext capacity => snd (read_cleartext s capacity)
  | call_write_cleartext_unbuffered data => snd (write_cleartext_unbuffered s data)
  | call_read_ciphertext => snd (read_ciphertext s)
  end.

Definition run (s : SSL) (calls : list ssl_call) : SSL := fold_left step calls s.


End Adapter.

Arguments ssl {L} _.
Arguments parent {L} _.
Arguments ct_in {L} _.
Arguments ct_out {L} _.
Arguments authcert {L} _.
Arguments overflow {L} _.
Arguments tls_warnings {L} _.
Arguments auth_cert {L} _.

(** support_key_material_export *)
Definition support_key_material_export : bool := false.

End MbedTLS.

(** ** client/ovpncli.cpp: the client API *)

Module ClientAPI.

Local Open Scope Z_scope.
Local Open Scope list_scope.

(** Error::N_ERRORS and the two error indices [tun_stats] reads
    (openvpn/error/error.hpp). *)
Definition N_ERRORS : nat := 83.
Definition TUN_READ_ERROR : nat := 14.
Definition TUN_WRITE_ERROR : nat := 15.

(** Every exception the client throws derives from std::exception and is
    observed through [what()]. *)
Record exception := mk_exception { what : string }.

Inductive result (A : Type) :=
| Ok (a : A)
| Throw (e : exception).
Arguments Ok {A} a.
Arguments Throw {A} e.

(** [try { body } catch (const std::exception &e) { handler }] *)
Definition try_catch {A : Type} (body : result A) (handler : exception -> result A)
  : result A :=
  match body with
  | Ok a => Ok a
  | Throw e => handler e
  end.

Record ServerEntry := mk_server_entry {
  server : string;
  server_friendlyName : string
}.

Record EvalConfig := mk_eval {
  error : bool;
  message : string;
  userlockedUsername : string;
  profileName : string;
  friendlyName : string;
  autologin : bool;
  externalPki : bool;
  vpnCa : string;
  staticChallenge : string;
  staticChallengeEcho : bool;
  privateKeyPasswordRequired : bool;
  allowPasswordSave : bool;
  remoteHost : string;
  remotePort : string;
  remoteProto : string;
  serverList : list ServerEntry;
  windowsDriver : string;
  dcoCompatible : bool;
  dcoIncompatibilityReason : string
}.

(** [EvalConfig eval;] -- the member initializers of the struct;
    [dcoCompatible] has none, it starts with whatever the storage holds. *)
Definition EvalConfig_default (dco0 : bool) : EvalConfig :=
  mk_eval false "" "" "" "" false false "" "" false false false "" "" "" [] "" dco0 "".

Definition set_error (eval : EvalConfig) (msg : string) : EvalConfig :=
  mk_eval true msg
    (userlockedUsername eval) (profileName eval) (friendlyName eval)
    (autologin eval) (externalPki eval) (vpnCa eval) (staticChallenge eval)
    (staticChallengeEcho eval) (privateKeyPasswordRequired eval)
    (allowPasswordSave eval) (remoteHost eval) (remotePort eval)
    (remoteProto eval) (serverList eval) (windowsDriver eval)
    (dcoCompatible eval) (dcoIncompatibilityReason eval).

Record KeyValue := mk_kv { key : string; value : string }.

(** ClientAPI::Config, the fields [eval_config] reads. *)
Record Config := mk_config {
  content : string;
  contentList : list KeyValue;
  protoOverride : string;
  allowUnusedAddrFamilies : string;
  serverOverride : string;
  compressionMode : string;
  externalPkiAlias : string;
  gremlinConfig : string;
  peerInfo : list KeyValue;
  proxyHost : string;
  proxyPort : string;
  proxyUsername : string;
  proxyPassword : string;
  proxyAllowCleartextAuth : bool
}.

Record ProvideCreds := mk_provide_creds {
  pc_username : string;
  pc_password : string;
  pc_http_proxy_user : string;
  pc_http_proxy_pass : string;
  pc_response : string;
  pc_dynamicChallengeCookie : string
}.


Record Status := mk_status {
  status_error : bool;
  status_status : string;
  status_message : string
}.

Record InterfaceStats := mk_interface_stats {
  if_bytesIn : Z;
  if_packetsIn : Z;
  if_errorsIn : Z;
  if_bytesOut : Z;
  if_packetsOut : Z;
  if_errorsOut : Z
}.

Record TransportStats := mk_transport_stats {
  bytesIn : Z;
  bytesOut : Z;
  packetsIn : Z;
  packetsOut : Z;
  lastPacketReceived : Z
}.

(** What [parse_config] reads off the ParseClientConfig object. *)
Record RemoteItem := mk_remote_item {
  host : string;
  port : string;
  proto : string
}.

Record ParseClientConfig := mk_pcc {
  cc_error : bool;
  cc_message : string;
  cc_userlockedUsername : string;
  cc_profileName : string;
  cc_friendlyName : string;
  cc_autologin : bool;
  cc_externalPki : bool;
  cc_vpnCa : string;
  cc_staticChallenge : string;
  cc_staticChallengeEcho : bool;
  cc_privateKeyPasswordRequired : bool;
  cc_allowPasswordSave : bool;
  cc_firstRemoteListItem : RemoteItem;
  cc_windowsDriver : string;
  cc_serverList : list ServerEntry
}.

Definition Option := list string.
Definition OptionList := list Option.

(** What [session_token] reads off the ClientCreds object. *)
Record ClientCreds := mk_creds {
  get_username : string;
  get_password : string;
  session_id_defined : bool
}.

(** MySessionStats: the counters of the SessionStats base, the error
    counters of the derived class, and the time of the last packet. *)
Record MySessionStats (Time : Type) := mk_stats {
  stats_ : list Z;
  errors : list Z;
  last_packet_received : option Time
}.
Arguments mk_stats {Time} stats_ errors last_packet_received.
Arguments stats_ {Time} m.
Arguments errors {Time} m.
Arguments last_packet_received {Time} m.

(** Handlers posted onto the io_context of the client. *)
Inductive Handler :=
| h_graceful_stop
| h_pause (reason : string)
| h_resume
| h_reconnect (seconds : Z)
| h_post_cc_msg (msg : string)
| h_app_control_channel_msg (protocol msg : string).

(** Modelled from the spec: Stop (openvpn/common/stop.hpp) lives outside
    the files modelled here.  It is the one-shot latch behind [stop()]: the first
    call fires the registered scopes, each of which posts its terminal
    handler onto the event loop; any further call finds the latch set and
    does nothing. *)
Record Stop := mk_stop {
  stop_called : bool;
  scopes : list Handler
}.

(** Modelled from the spec: a Stop that has not fired and has no scope. *)
Definition Stop_new : Stop := mk_stop false [].

(** Modelled from the spec: [Stop::stop] fires the scopes, last registered
    first, the first time it is called, and nothing afterwards. *)
Definition Stop_stop (st : Stop) : Stop * list Handler :=
  if stop_called st then (st, [])
  else (mk_stop true [], rev (scopes st)).

(** Modelled from the spec: a scope registers its handler with the Stop. *)
Definition Stop_register (st : Stop) (h : Handler) : Stop :=
  mk_stop (stop_called st) (scopes st ++ [h]).

(** Modelled from the spec: ClientConnect lives outside the files modelled
    here; its thread_safe_* methods post the command onto the event loop, where the
    session picks it up at its next turn. *)
Record ClientConnect := mk_session {
  session_started : bool
}.

(** The collaborators of the client API that live outside the files
    modelled here. *)
Record Env := mk_env {
  Time : Type;
  Time_now : Time;
  binary_ms_since : Time -> Time -> Z; (* (now - lpr).to_binary_ms() *)
  dco_update : MySessionStats Time -> MySessionStats Time;
  N_STATS : nat;
  BYTES_IN : nat;
  BYTES_OUT : nat;
  PACKETS_IN : nat;
  PACKETS_OUT : nat;
  TUN_BYTES_IN : nat;
  TUN_BYTES_OUT : nat;
  TUN_PACKETS_IN : nat;
  TUN_PACKETS_OUT : nat;
  utf8_printable : string -> nat -> string;
  Protocol_parse : string -> option exception;
  TriStateSetting_parse : string -> option exception;
  ParseClientConfig_parse :
    string -> list KeyValue -> OptionList -> OptionList * result ParseClientConfig;
  check_dco_compatibility : Config -> OptionList -> result (bool * string);
  ImportedSettings : Type;
  default_settings : ImportedSettings;
  import_client_settings :
    ImportedSettings -> Config -> ImportedSettings * option exception;
  CompressionOptions : Type;
  new_compression_options : CompressionOptions;
  parse_compression_mode :
    CompressionOptions -> string -> CompressionOptions * option exception;
  OPENVPN_GREMLIN : bool;
  GremlinConfig : Type;
  Gremlin_Config_new : string -> result GremlinConfig;
  PeerInfoSet : Type;
  new_from_foreign_set : list KeyValue -> PeerInfoSet;
  ProxyServer : Type;
  set_proxy_server : string -> string -> result ProxyServer;
  ClientCreds_new : ProvideCreds -> result ClientCreds;
  uninitialized_bool : bool
}.

Section Client.

Variable E : Env.

Record ClientConfigParsed := mk_clientconf {
  imported : ImportedSettings E;
  external_pki_alias : string
}.

Record HTTPProxyOptions := mk_proxy_options {
  proxy_server : ProxyServer E;
  proxy_username : string;
  proxy_password : string;
  allow_cleartext_auth : bool
}.

(** Private::ClientState *)
Record ClientState := mk_state {
  options : OptionList;
  eval : EvalConfig;
  creds : option ClientCreds;
  stats : option (MySessionStats (Time E));
  session : option ClientConnect;
  clientconf : ClientConfigParsed;
  proto_context_options : CompressionOptions E;
  extra_peer_info : option (PeerInfoSet E);
  http_proxy_options : option HTTPProxyOptions;
  gremlin_config : option (GremlinConfig E);
  attach_called : bool;
  async_stop_local_ : Stop;
  io_context_ : option (list Handler);
  foreign_thread_ready : bool
}.

Definition with_options (s : ClientState) (x : OptionList) : ClientState :=
  mk_state x (eval s) (creds s) (stats s) (session s) (clientconf s)
    (proto_context_options s) (extra_peer_info s) (http_proxy_options s)
    (gremlin_config s) (attach_called s) (async_stop_local_ s) (io_context_ s)
    (foreign_thread_ready s).
Definition with_eval (s : ClientState) (x : EvalConfig) : ClientState :=
  mk_state (options s) x (creds s) (stats s) (session s) (clientconf s)
    (proto_context_options s) (extra_peer_info s) (http_proxy_options s)
    (gremlin_config s) (attach_called s) (async_stop_local_ s) (io_context_ s)
    (foreign_thread_ready s).
Definition with_creds (s : ClientState) (x : option ClientCreds) : ClientState :=
  mk_state (options s) (eval s) x (stats s) (session s) (clientconf s)
    (proto_context_options s) (extra_peer_info s) (http_proxy_options s)
    (gremlin_config s) (attach_called s) (async_stop_local_ s) (io_context_ s)
    (foreign_thread_ready s).
Definition with_stats (s : ClientState) (x : option (MySessionStats (Time E)))
  : ClientState :=
  mk_state (options s) (eval s) (creds s) x (session s) (clientconf s)
    (proto_context_options s) (extra_peer_info s) (http_proxy_options s)
    (gremlin_config s) (attach_called s) (async_stop_local_ s) (io_context_ s)
    (foreign_thread_ready s).
Definition with_session (s : ClientState) (x : option ClientConnect) : ClientState :=
  mk_state (options s) (eval s) (creds s) (stats s) x (clientconf s)
    (proto_context_options s) (extra_peer_info s) (http_proxy_options s)
    (gremlin_config s) (attach_called s) (async_stop_local_ s) (io_context_ s)
    (foreign_thread_ready s).
Definition with_clientconf (s : ClientState) (x : ClientConfigParsed) : ClientState :=
  mk_state (options s) (eval s) (creds s) (stats s) (session s) x
    (proto_context_options s) (extra_peer_info s) (http_proxy_options s)
    (gremlin_config s) (attach_called s) (async_stop_local_ s) (io_context_ s)
    (foreign_thread_ready s).
Definition with_proto_context_options (s : ClientState) (x : CompressionOptions E)
  : ClientState :=
  mk_state (options s) (eval s) (creds s) (stats s) (session s) (clientconf s)
    x (extra_peer_info s) (http_proxy_options s)
    (gremlin_config s) (attach_called s) (async_stop_local_ s) (io_context_ s)
    (foreign_thread_ready s).
Definition with_extra_peer_info (s : ClientState) (x : option (PeerInfoSet E))
  : ClientState :=
  mk_state (options s) (eval s) (creds s) (stats s) (session s) (clientconf s)
    (proto_context_options s) x (http_proxy_options s)
    (gremlin_config s) (attach_called s) (async_stop_local_ s) (io_context_ s)
    (foreign_thread_ready s).
Definition with_http_proxy_options (s : ClientState) (x : option HTTPProxyOptions)
  : ClientState :=
  mk_state (options s) (eval s) (creds s) (stats s) (session s) (clientconf s)
    (proto_context_options s) (extra_peer_info s) x
    (gremlin_config s) (attach_called s) (async_stop_local_ s) (io_context_ s)
    (foreign_thread_ready s).
Definition with_gremlin_config (s : ClientState) (x : option (GremlinConfig E))
  : ClientState :=
  mk_state (options s) (eval s) (creds s) (stats s) (session s) (clientconf s)
    (proto_context_options s) (extra_peer_info s) (http_proxy_options s)
    x (attach_called s) (async_stop_local_ s) (io_context_ s)
    (foreign_thread_ready s).
Definition with_attach_called (s : ClientState) (x : bool) : ClientState :=
  mk_state (options s) (eval s) (creds s) (stats s) (session s) (clientconf s)
    (proto_context_options s) (extra_peer_info s) (http_proxy_options s)
    (gremlin_config s) x (async_stop_local_ s) (io_context_ s)
    (foreign_thread_ready s).
Definition with_async_stop_local (s : ClientState) (x : Stop) : ClientState :=
  mk_state (options s) (eval s) (creds s) (stats s) (session s) (clientconf s)
    (proto_context_options s) (extra_peer_info s) (http_proxy_options s)
    (gremlin_config s) (attach_called s) x (io_context_ s)
    (foreign_thread_ready s).
Definition with_io_context (s : ClientState) (x : option (list Handler)) : ClientState :=
  mk_state (options s) (eval s) (creds s) (stats s) (session s) (clientconf s)
    (proto_context_options s) (extra_peer_info s) (http_proxy_options s)
    (gremlin_config s) (attach_called s) (async_stop_local_ s) x
    (foreign_thread_ready s).
Definition with_foreign_thread_ready (s : ClientState) (x : bool) : ClientState :=
  mk_state (options s) (eval s) (creds s) (stats s) (session s) (clientconf s)
    (proto_context_options s) (extra_peer_info s) (http_proxy_options s)
    (gremlin_config s) (attach_called s) (async_stop_local_ s) (io_context_ s)
    x.

(** The constructor of OpenVPNClient: [new Private::ClientState()] followed
    by a fresh ProtoContextCompressionOptions. *)
Definition OpenVPNClient_new : ClientState :=
  mk_state [] (EvalConfig_default (uninitialized_bool E)) None None None
    (mk_clientconf (default_settings E) "")
    (new_compression_options E) None None None
    false Stop_new None false.

(** [openvpn_io::post] onto the client's io_context. *)
Definition post (s : ClientState) (hs : list Handler) : ClientState :=
  with_io_context s
    (match io_context_ s with
     | Some q => Some (q ++ hs)
     | None => None
     end).

(** ClientState::enable_foreign_thread_access / is_foreign_thread_access *)
Definition enable_foreign_thread_access (s : ClientState) : ClientState :=
  with_foreign_thread_ready s true.

Definition is_foreign_thread_access (s : ClientState) : bool :=
  foreign_thread_ready s.

(** ClientState::trigger_async_stop_local *)
Definition trigger_async_stop_local (s : ClientState) : ClientState :=
  let (st, fired) := Stop_stop (async_stop_local_ s) in
  post (with_async_stop_local s st) fired.

(** ClientState::attach: only one attachment per instantiation; the client
    owns a fresh io_context and fresh statistics. *)
Definition attach (s : ClientState) : result unit * ClientState :=
  if attach_called s
  then (Throw (mk_exception
          "ClientState::attach() can only be called once per ClientState instantiation"),
        s)
  else
    let s1 := with_attach_called s true in
    let s2 := with_io_context s1 (Some []) in
    let s3 := with_stats s2
                (Some (mk_stats (repeat 0 (N_STATS E)) (repeat 0 N_ERRORS) None)) in
    (Ok tt, s3).

(** ClientState::setup_async_stop_scopes: the local scope asks the session
    for a graceful stop; [get_async_stop()] is null, so no global scope is
    registered. *)
Definition setup_async_stop_scopes (s : ClientState) : ClientState :=
  with_async_stop_local s (Stop_register (async_stop_local_ s) h_graceful_stop).

(** *** Configuration evaluation *)

(** Code that updates the client state and may throw. *)
Definition M (A : Type) : Type := ClientState -> result A * ClientState.

Definition ret {A : Type} (a : A) : M A := fun s => (Ok a, s).

Definition throw {A : Type} (e : exception) : M A := fun s => (Throw e, s).

Definition bind {A B : Type} (m : M A) (k : A -> M B) : M B :=
  fun s =>
    match m s with
    | (Ok a, s') => k a s'
    | (Throw e, s') => (Throw e, s')
    end.

Definition catch {A : Type} (body : M A) (handler : exception -> M A) : M A :=
  fun s =>
    match body s with
    | (Ok a, s') => (Ok a, s')
    | (Throw e, s') => handler e s'
    end.

Definition modify (f : ClientState -> ClientState) : M unit :=
  fun s => (Ok tt, f s).

Definition when (b : bool) (m : M unit) : M unit := if b then m else ret tt.

Notation "m1 ;; m2" := (bind m1 (fun _ => m2))
  (at level 61, right associativity).

Definition nonempty (str : string) : bool := negb (String.eqb str "").

(** The body of the [try] block of [parse_config]: the option list as the
    parser left it, and the filled-in EvalConfig or the exception thrown. *)
Definition parse_config_try (config : Config) (eval0 : EvalConfig) (opts : OptionList)
  : OptionList * result EvalConfig :=
  match (if nonempty (protoOverride config)
         then Protocol_parse E (protoOverride config) else None) with
  | Some e => (opts, Throw e)
  | None =>
    match (if nonempty (allowUnusedAddrFamilies config)
           then TriStateSetting_parse E (allowUnusedAddrFamilies config) else None) with
    | Some e => (opts, Throw e)
    | None =>
      let kvl := map (fun kv => mk_kv (key kv) (value kv)) (contentList config) in
      match ParseClientConfig_parse E (content config) kvl opts with
      | (opts', Throw e) => (opts', Throw e)
      | (opts', Ok cc) =>
        match check_dco_compatibility E config opts' with
        | Throw e => (opts', Throw e)
        | Ok (dco, reason) =>
          (opts',
           Ok (mk_eval (cc_error cc) (cc_message cc)
                 (cc_userlockedUsername cc) (cc_profileName cc) (cc_friendlyName cc)
                 (cc_autologin cc) (cc_externalPki cc) (cc_vpnCa cc)
                 (cc_staticChallenge cc) (cc_staticChallengeEcho cc)
                 (cc_privateKeyPasswordRequired cc) (cc_allowPasswordSave cc)
                 (if nonempty (serverOverride config)
                  then serverOverride config
                  else host (cc_firstRemoteListItem cc))
                 (port (cc_firstRemoteListItem cc))
                 (proto (cc_firstRemoteListItem cc))
                 (serverList eval0 ++ cc_serverList cc)
                 (cc_windowsDriver cc)
                 dco reason))
        end
      end
    end
  end.

(** OpenVPNClientHelper::parse_config *)
Definition parse_config (config : Config) (eval0 : EvalConfig) (opts : OptionList)
  : result (EvalConfig * OptionList) :=
  let (opts', body) := parse_config_try config eval0 opts in
  try_catch
    (match body with
     | Ok ev => Ok (ev, opts')
     | Throw e => Throw e
     end)
    (fun e =>
       Ok (set_error eval0
             (utf8_printable E ("ERR_PROFILE_GENERIC: " ++ what e) 256),
           opts')).

(** Lifting a collaborator that updates one component of the state and may
    throw half-way. *)
Definition update_or_throw {X : Type} (proj : ClientState -> X)
           (put : ClientState -> X -> ClientState)
           (f : X -> X * option exception) : M unit :=
  fun s =>
    let (x, r) := f (proj s) in
    match r with
    | None => (Ok tt, put s x)
    | Some e => (Throw e, put s x)
    end.

Definition lift_result {A : Type} (r : result A) : M A :=
  fun s => (r, s).

(** The body of the [try] block of [parse_extras]. *)
Definition parse_extras_try (config : Config) (ev : EvalConfig) : M unit :=
  update_or_throw
    (fun s => imported (clientconf s))
    (fun s x => with_clientconf s (mk_clientconf x (external_pki_alias (clientconf s))))
    (fun x => import_client_settings E x config) ;;
  when (nonempty (compressionMode config))
    (update_or_throw proto_context_options with_proto_context_options
       (fun x => parse_compression_mode E x (compressionMode config))) ;;
  when (externalPki ev)
    (modify (fun s =>
       with_clientconf s
         (mk_clientconf (imported (clientconf s)) (externalPkiAlias config)))) ;;
  when (nonempty (gremlinConfig config))
    (if OPENVPN_GREMLIN E
     then bind (lift_result (Gremlin_Config_new E (gremlinConfig config)))
            (fun g => modify (fun s => with_gremlin_config s (Some g)))
     else throw (mk_exception "client not built with OPENVPN_GREMLIN")) ;;
  modify (fun s =>
    with_extra_peer_info s (Some (new_from_foreign_set E (peerInfo config)))) ;;
  when (nonempty (proxyHost config))
    (bind (lift_result (set_proxy_server E (proxyHost config) (proxyPort config)))
       (fun srv =>
          modify (fun s =>
            with_http_proxy_options s
              (Some (mk_proxy_options srv (proxyUsername config)
                       (proxyPassword config) (proxyAllowCleartextAuth config)))))).

(** OpenVPNClient::parse_extras: returns the EvalConfig passed by reference. *)
Definition parse_extras (config : Config) (ev : EvalConfig) : M EvalConfig :=
  catch
    (parse_extras_try config ev ;; ret ev)
    (fun e => ret (set_error ev (utf8_printable E (what e) 256))).

(** OpenVPNClient::eval_config *)
Definition eval_config (config : Config) : M EvalConfig :=
  fun s =>
    match parse_config config (EvalConfig_default (uninitialized_bool E)) (options s) with
    | Throw e => (Throw e, s)
    | Ok (ev, opts) =>
        let s1 := with_options s opts in
        if error ev then (Ok ev, s1)
        else
          bind (parse_extras config ev)
            (fun ev' => bind (modify (fun s => with_eval s ev')) (fun _ => ret ev'))
            s1
    end.

(** OpenVPNClientHelper::eval_config: the same parser on a scratch option
    list. *)
Definition helper_eval_config (config : Config) : result EvalConfig :=
  match parse_config config (EvalConfig_default (uninitialized_bool E)) [] with
  | Ok (ev, _) => Ok ev
  | Throw e => Throw e
  end.

(** OpenVPNClient::provide_creds *)
Definition provide_creds (pc : ProvideCreds) : M Status :=
  catch
    (bind (lift_result (ClientCreds_new E pc))
       (fun cc => modify (fun s => with_creds s (Some cc)) ;;
                  ret (mk_status false "" "")))
    (fun e => ret (mk_status true "" (utf8_printable E (what e) 256))).

(** OpenVPNClient::connect_attach *)
Definition connect_attach : M unit := attach.

(** *** Accessors *)


(** MySessionStats::combined_n *)
Definition combined_n : nat := (N_STATS E + N_ERRORS)%nat.

(** Modelled from the spec: [get_stat] and [get_stat_fast] of the
    SessionStats base class live outside the files modelled here; they read
    counter [index] of the snapshot. *)
Definition get_stat (m : MySessionStats (Time E)) (index : nat) : Z :=
  nth index (stats_ m) 0.

(** MySessionStats::combined_value *)
Definition combined_value (m : MySessionStats (Time E)) (index : nat) : Z :=
  if (index <? combined_n)%nat then
    if (index <? N_STATS E)%nat then get_stat m index
    else nth (index - N_STATS E) (errors m) 0
  else 0.

(** MySessionStats::stat_count and MySessionStats::error_count *)
Definition stat_count (m : MySessionStats (Time E)) (index : nat) : Z :=
  get_stat m index.

Definition error_count (m : MySessionStats (Time E)) (index : nat) : Z :=
  nth index (errors m) 0.

(** The implicit conversion of an [int] index to [size_t]. *)
Definition size_t_of_int (index : Z) : nat := Z.to_nat (index mod 2 ^ 64).

(** OpenVPNClient::stats_value *)
Definition stats_value (s : ClientState) (index : Z) : Z :=
  if is_foreign_thread_access s then
    match stats s with
    | Some m =>
        let m' :=
          if (index =? Z.of_nat (BYTES_IN E)) || (index =? Z.of_nat (BYTES_OUT E))
          then dco_update E m else m in
        combined_value m' (size_t_of_int index)
    | None => 0
    end
  else 0.

(** OpenVPNClient::stats_bundle *)
Definition stats_bundle (s : ClientState) : list Z :=
  if is_foreign_thread_access s then
    match stats s with
    | Some m => map (combined_value (dco_update E m)) (seq 0 combined_n)
    | None => map (fun _ => 0) (seq 0 combined_n)
    end
  else map (fun _ => 0) (seq 0 combined_n).

(** OpenVPNClient::tun_stats *)
Definition tun_stats (s : ClientState) : InterfaceStats :=
  match (if is_foreign_thread_access s then stats s else None) with
  | Some m0 =>
      let m := dco_update E m0 in
      mk_interface_stats
        (stat_count m (TUN_BYTES_OUT E))
        (stat_count m (TUN_PACKETS_OUT E))
        (error_count m TUN_WRITE_ERROR)
        (stat_count m (TUN_BYTES_IN E))
        (stat_count m (TUN_PACKETS_IN E))
        (error_count m TUN_READ_ERROR)
  | None => mk_interface_stats 0 0 0 0 0 0
  end.

(** OpenVPNClient::transport_stats *)
Definition transport_stats (s : ClientState) : TransportStats :=
  match (if is_foreign_thread_access s then stats s else None) with
  | Some m0 =>
      let m := dco_update E m0 in
      let last :=
        match last_packet_received m with
        | Some lpr =>
            let delta := (binary_ms_since E (Time_now E) lpr) mod 2 ^ 32 in
            if delta <=? 60 * 60 * 24 * 1024 then delta else -1
        | None => -1
        end in
      mk_transport_stats
        (stat_count m (BYTES_IN E))
        (stat_count m (BYTES_OUT E))
        (stat_count m (PACKETS_IN E))
        (stat_count m (PACKETS_OUT E))
        last
  | None => mk_transport_stats 0 0 0 0 (-1)
  end.

(** *** Control calls *)

(** OpenVPNClient::stop *)
Definition stop (s : ClientState) : ClientState :=
  if is_foreign_thread_access s then trigger_async_stop_local s else s.

(** The shape shared by pause, resume, reconnect and post_cc_msg: with
    foreign-thread access and a session, hand the command to the session. *)
Definition to_session (s : ClientState) (h : Handler) : ClientState :=
  if is_foreign_thread_access s then
    match session s with
    | Some _ => post s [h]
    | None => s
    end
  else s.

(** OpenVPNClient::pause *)
Definition pause (s : ClientState) (reason : string) : ClientState :=
  to_session s (h_pause reason).

(** OpenVPNClient::resume *)
Definition resume (s : ClientState) : ClientState :=
  to_session s h_resume.

(** OpenVPNClient::reconnect *)
Definition reconnect (s : ClientState) (seconds : Z) : ClientState :=
  to_session s (h_reconnect seconds).

(** OpenVPNClient::post_cc_msg *)
Definition post_cc_msg (s : ClientState) (msg : string) : ClientState :=
  to_session s (h_post_cc_msg msg).

(** The calls a host program can make before [connect()] reaches the end of
    its setup; none of them is [enable_foreign_thread_access]. *)
Inductive early_call :=
| ec_eval_config (config : Config)
| ec_provide_creds (pc : ProvideCreds)
| ec_connect_attach
| ec_stop
| ec_pause (reason : string)
| ec_resume
| ec_reconnect (seconds : Z)
| ec_post_cc_msg (msg : string).

Definition early_step (s : ClientState) (c : early_call) : ClientState :=
  match c with
  | ec_eval_config config => snd (eval_config config s)
  | ec_provide_creds pc => snd (provide_creds pc s)
  | ec_connect_attach => snd (connect_attach s)
  | ec_stop => stop s
  | ec_pause reason => pause s reason
  | ec_resume => resume s
  | ec_reconnect seconds => reconnect s seconds
  | ec_post_cc_msg msg => post_cc_msg s msg
  end.

Definition early_run (calls : list early_call) : ClientState :=
  fold_left early_step calls OpenVPNClient_new.

End Client.

Arguments options {E} _.
Arguments eval {E} _.
Arguments creds {E} _.
Arguments stats {E} _.
Arguments session {E} _.
Arguments clientconf {E} _.
Arguments proto_context_options {E} _.
Arguments extra_peer_info {E} _.
Arguments http_proxy_options {E} _.
Arguments gremlin_config {E} _.
Arguments attach_called {E} _.
Arguments async_stop_local_ {E} _.
Arguments io_context_ {E} _.
Arguments foreign_thread_ready {E} _.
Arguments is_foreign_thread_access {E} _.

End ClientAPI.

(** ** Vocabulary of the statements *)



(** An id is covered when the replay window would turn it away: it lies at
    or below the lower edge, or its bit is set. *)
Definition covered (w : PacketID.ReplayWindow) (id : Z) : Prop :=
  (id <= PacketID.high w - PacketID.width w)%Z \/ PacketID.seen w id = true.

(** The exporter handed back a seed of 256 bytes. *)
Definition yields_seed (r : bool * MbedTLS.bytes) : Prop :=
  fst r = true /\ List.length (snd r) = 256.

(** The AuthCert of a session carries the identity of [cert]. *)
Definition exposes_identity (a : option MbedTLS.AuthCert) (cert : MbedTLS.x509_crt)
  : Prop :=
  exists ac, a = Some ac
             /\ MbedTLS.cn ac = MbedTLS.x509_get_common_name cert
             /\ MbedTLS.defined_ ac = true.

(** Every field of a TransportStats snapshot is zero. *)
Definition transport_all_zero (t : ClientAPI.TransportStats) : Prop :=
  ClientAPI.bytesIn t = 0%Z /\ ClientAPI.bytesOut t = 0%Z
  /\ ClientAPI.packetsIn t = 0%Z /\ ClientAPI.packetsOut t = 0%Z
  /\ ClientAPI.lastPacketReceived t = 0%Z.

(** What the callbacks of the TLS library leave alone in a session: its
    configuration and the overflow flag; the input queue can only shrink. *)
Definition callback_frame (L : MbedTLS.Library) (s s' : MbedTLS.SSL L) : Prop :=
  MbedTLS.parent s' = MbedTLS.parent s
  /\ MbedTLS.overflow s' = MbedTLS.overflow s
  /\ (MbedTLS.memq_size (MbedTLS.ct_in s') <= MbedTLS.memq_size (MbedTLS.ct_in s))%nat.

(** A stateful action leaves the component [proj] of the client state as it
    found it. *)
Definition keeps {E : ClientAPI.Env} {A X : Type}
           (proj : ClientAPI.ClientState E -> X) (m : ClientAPI.M E A) : Prop :=
  forall s, proj (snd (m s)) = proj s.

(** Every exception a stateful action throws satisfies [P]. *)
Definition throws_only {E : ClientAPI.Env} {A : Type}
           (P : ClientAPI.exception -> Prop) (m : ClientAPI.M E A) : Prop :=
  forall s e s', m s = (ClientAPI.Throw e, s') -> P e.

(** [utf8_printable] never turns a non-empty text into an empty one. *)
Definition utf8_printable_keeps_text (E : ClientAPI.Env) : Prop :=
  forall str max_len, str <> "" -> ClientAPI.utf8_printable E str max_len <> "".

(** A profile the parser reports as in error comes with a message. *)
Definition parser_errors_carry_message (E : ClientAPI.Env) : Prop :=
  forall content kvl opts opts' cc,
    ClientAPI.ParseClientConfig_parse E content kvl opts = (opts', ClientAPI.Ok cc) ->
    ClientAPI.cc_error cc = true -> ClientAPI.cc_message cc <> "".

(** The exceptions thrown while importing the extra settings carry a
    message. *)
Definition exceptions_carry_message (E : ClientAPI.Env) : Prop :=
  (forall x config x' e,
      ClientAPI.import_client_settings E x config = (x', Some e) ->
      ClientAPI.what e <> "")
  /\ (forall x m x' e,
         ClientAPI.parse_compression_mode E x m = (x', Some e) ->
         ClientAPI.what e <> "")
  /\ (forall str e,
         ClientAPI.Gremlin_Config_new E str = ClientAPI.Throw e ->
         ClientAPI.what e <> "")
  /\ (forall h p e,
         ClientAPI.set_proxy_server E h p = ClientAPI.Throw e ->
         ClientAPI.what e <> "").

(** Parsing or validating [config] fails: the parser or one of the
    validators throws, the parser reports an error, or importing the extra
    settings throws. *)
Definition config_fails (E : ClientAPI.Env) (config : ClientAPI.Config)
           (s : ClientAPI.ClientState E) : Prop :=
  match ClientAPI.parse_config_try E config
          (ClientAPI.EvalConfig_default (ClientAPI.uninitialized_bool E))
          (ClientAPI.options s) with
  | (_, ClientAPI.Throw _) => True
  | (opts, ClientAPI.Ok ev) =>
      ClientAPI.error ev = true
      \/ exists e s',
          ClientAPI.parse_extras_try E config ev (ClientAPI.with_options E s opts)
          = (ClientAPI.Throw e, s')
  end.

(** ** Concrete collaborators for the worked examples *)

(** A loop-back engine: a read pulls what the BIO has and hands it up as
    cleartext, a write pushes the cleartext down to the BIO, and a handshake
    shows the callback one leaf certificate. *)
Definition example_crt : MbedTLS.x509_crt :=
  MbedTLS.mk_crt [Byte.x30; Byte.x82] [Byte.x01; Byte.x02]
    "C=US, O=Example, CN=server.example.com.evil.org"
    "CN=server.example.com.evil.org, O=Example, C=US"
    "server.example.com.evil.org"
    0%Z MbedTLS.MD_OTHER false (fun _ => 0%Z) [] true.

Definition example_library : MbedTLS.Library :=
  MbedTLS.mk_library unit tt
    (fun e => MbedTLS.cb_verify example_crt 0%Z 0%Z
                (fun r => MbedTLS.cb_return (fst r, e)))
    (fun e capacity =>
       MbedTLS.cb_recv capacity (fun r => MbedTLS.cb_return (fst r, snd r, e)))
    (fun e data => MbedTLS.cb_send data (fun r => MbedTLS.cb_return (r, e)))
    (fun _ => 0%Z) 0%Z 0%Z
    (fun _ => (0%Z, repeat Byte.xaa 20))
    false
    (fun q data => Some (q ++ [data])%list)
    (MbedTLS.mk_authcert "" (repeat Byte.xff 20) (repeat Byte.x00 20) false)
    (- 0x7880)%Z (- 1)%Z (- 2)%Z 2%Z 4%Z 8%Z 1%Z 2%Z.

Definition example_verify_none : MbedTLS.VerifyX509Name :=
  MbedTLS.mk_verify_x509 MbedTLS.VERIFY_X509_NONE (fun _ => false).

Definition example_client_config : MbedTLS.Config :=
  MbedTLS.mk_config MbedTLS.CLIENT 0%Z true (Some example_crt) true false false true
    true MbedTLS.NS_NONE [] "" "server.example.com" example_verify_none.

Definition example_server_config : MbedTLS.Config :=
  MbedTLS.mk_config MbedTLS.SERVER 0%Z true (Some example_crt) true false false true
    true MbedTLS.NS_NONE [] "" "" example_verify_none.

Definition example_client_session : MbedTLS.SSL example_library :=
  MbedTLS.mk_ssl example_library tt example_client_config [] [] None false 0%Z.

Definition example_server_session : MbedTLS.SSL example_library :=
  MbedTLS.mk_ssl example_library tt example_server_config [] []
    (Some (MbedTLS.new_AuthCert example_library)) false 0%Z.

(** Seventy records written to a fresh server session. *)
Definition example_flood : list MbedTLS.ssl_call :=
  repeat (MbedTLS.call_write_ciphertext [Byte.x17]) 70.

Definition example_flooded_session := Eval vm_compute in
  MbedTLS.run example_library example_server_session example_flood.

(** A stand-in for the collaborators of the client API: time in binary
    milliseconds, eight counters, a parser that wants a non-empty profile, and
    validators that know "udp" and "tcp". *)
Definition example_pcc (content : string) : ClientAPI.ParseClientConfig :=
  if String.eqb content ""
  then ClientAPI.mk_pcc true "ERR_PROFILE_NO_CONTENT: empty profile" "" "" "" false false
         "" "" false false false (ClientAPI.mk_remote_item "" "" "") "" []
  else ClientAPI.mk_pcc false "" "" "profile" "profile" false false
         "" "" false false true
         (ClientAPI.mk_remote_item "vpn.example.com" "1194" "udp") "" [].

Definition example_env : ClientAPI.Env :=
  ClientAPI.mk_env Z 1000%Z (fun now t => now - t)%Z (fun m => m)
    8 0 1 2 3 4 5 6 7
    (fun str _ => str)
    (fun p => if String.eqb p "udp" || String.eqb p "tcp" then None
              else Some (ClientAPI.mk_exception "error parsing protocol"))
    (fun t => if String.eqb t "yes" || String.eqb t "no" then None
              else Some (ClientAPI.mk_exception "invalid tri-state setting"))
    (fun content kvl opts => (opts, ClientAPI.Ok (example_pcc content)))
    (fun _ _ => ClientAPI.Ok (true, ""))
    unit tt (fun x _ => (x, None))
    unit tt (fun x m => if String.eqb m "asym" then (x, None)
                        else (x, Some (ClientAPI.mk_exception
                                         "error parsing compression mode")))
    false unit (fun _ => ClientAPI.Ok tt)
    unit (fun _ => tt)
    unit (fun _ _ => ClientAPI.Ok tt)
    (fun pc => ClientAPI.Ok (ClientAPI.mk_creds (ClientAPI.pc_username pc)
                               (ClientAPI.pc_password pc) false))
    false.

Definition example_config (content : string) : ClientAPI.Config :=
  ClientAPI.mk_config content [] "udp" "" "" "" "" "" [] "" "" "" "" false.

(** A client whose [connect()] has finished its setup: attached, session
    created, stop scope wired, foreign-thread access enabled. *)
Definition example_running_client : ClientAPI.ClientState example_env :=
  ClientAPI.enable_foreign_thread_access example_env
    (ClientAPI.setup_async_stop_scopes example_env
       (ClientAPI.with_session example_env
          (snd (ClientAPI.attach example_env (ClientAPI.OpenVPNClient_new example_env)))
          (Some (ClientAPI.mk_session true)))).

(** * Further components

    The TCP header helpers, the static key, the chunked transfer-encoding
    helper, the error names, more of the client API (statistics, events,
    connect) and the cipher suite list of the mbed TLS adapter. *)

(** ** openvpn/ip/tcp.hpp *)

Module TCP.

Local Open Scope Z_scope.

(** The conversion to [std::uint16_t]. *)
Definition to_uint16 (x : Z) : Z := x mod 2 ^ 16.

(** TCPHeader::length: the header length in bytes out of the data-offset
    byte. *)
Definition length (doff_res : Z) : Z := Z.shiftr (Z.land doff_res 0xF0) 2.

(** The fold shared by both branches of [tcp_adjust_checksum]:
    [_acc = (_acc >> 16) + (_acc & 0xffff); _acc += _acc >> 16;]. *)
Definition fold16 (a : Z) : Z :=
  let a1 := Z.shiftr a 16 + Z.land a 0xffff in
  a1 + Z.shiftr a1 16.

(** tcp_adjust_checksum(int acc, std::uint16_t &cksum): the checksum the call
    leaves in [cksum].  The [int] arithmetic is that of the mathematical
    integers as long as no intermediate value leaves the range of [int]. *)
Definition tcp_adjust_checksum (acc cksum : Z) : Z :=
  let _acc := acc + cksum in
  if _acc <? 0
  then to_uint16 (Z.lnot (fold16 (- _acc)))
  else to_uint16 (fold16 _acc).

End TCP.

(** ** openvpn/crypto/static_key.hpp *)

Module StaticKeys.

Local Open Scope list_scope.

Definition bytes := list Byte.byte.

Inductive exn := static_key_parse_error | static_key_bad_size.

Inductive result (A : Type) :=
| Ok (a : A)
| Throw (e : exn).
Arguments Ok {A} a.
Arguments Throw {A} e.

Definition KEY_SIZE : nat := 256.

(** The key specifier bits. *)
Definition CIPHER : N := 0.
Definition HMAC : N := 1.
Definition ENCRYPT : N := 0.
Definition DECRYPT : N := 2.
Definition NORMAL : N := 0.
Definition INVERSE : N := 4.

Definition key_table : list nat := [0; 1; 2; 3; 2; 3; 0; 1].

(** OpenVPNStaticKey::slice: the 64 bytes copied into the StaticKey. *)
Definition slice (key_data_ : bytes) (key_specifier : N) : result bytes :=
  if negb (List.length key_data_ =? KEY_SIZE)%nat
  then Throw static_key_bad_size
  else
    let idx := (nth (N.to_nat (N.land key_specifier 7)) key_table 0 * 64)%nat in
    Ok (firstn (KEY_SIZE / 4) (skipn idx key_data_)).

(** [a ^ b] on unsigned chars, bit by bit. *)
Definition byte_xor (a b : Byte.byte) : Byte.byte :=
  let '(a0, (a1, (a2, (a3, (a4, (a5, (a6, a7))))))) := Byte.to_bits a in
  let '(b0, (b1, (b2, (b3, (b4, (b5, (b6, b7))))))) := Byte.to_bits b in
  Byte.of_bits (xorb a0 b0, (xorb a1 b1, (xorb a2 b2, (xorb a3 b3,
               (xorb a4 b4, (xorb a5 b5, (xorb a6 b6, xorb a7 b7))))))).

(** The loop of [XOR]: [key_data_[i] ^= other.key_data_[i]] for every index
    of the key; the buffer's indexing is bounds-checked, so reading past the
    end of [other] fails. *)
Fixpoint xor_loop (key other : bytes) : option bytes :=
  match key with
  | [] => Some []
  | k :: key' =>
      match other with
      | [] => None
      | o :: other' =>
          match xor_loop key' other' with
          | Some r => Some (byte_xor k o :: r)
          | None => None
          end
      end
  end.

(** OpenVPNStaticKey::defined: the buffer holds at least one byte. *)
Definition defined (key_data_ : bytes) : bool :=
  match key_data_ with [] => false | _ :: _ => true end.

(** OpenVPNStaticKey::XOR: [None] stands for the failed assertion (one of the
    keys is undefined) or the failed read past the end of [other]. *)
Definition XOR (key_data_ other : bytes) : option bytes :=
  if defined key_data_ && defined other then xor_loop key_data_ other else None.

End StaticKeys.

(** ** The chunked transfer-encoding helper (openvpn::WS::ChunkedHelper) *)

Module ChunkedHelper.

Local Open Scope list_scope.
Local Open Scope N_scope.

Inductive State :=
| hex
| post_hex
| post_hex_lf
| post_chunk_cr
| post_chunk_lf
| post_content_cr
| post_content_lf
| done
| chunk.

Definition State_eqb (a b : State) : bool :=
  match a, b with
  | hex, hex | post_hex, post_hex | post_hex_lf, post_hex_lf
  | post_chunk_cr, post_chunk_cr | post_chunk_lf, post_chunk_lf
  | post_content_cr, post_content_cr | post_content_lf, post_content_lf
  | done, done | chunk, chunk => true
  | _, _ => false
  end.

Definition CR : ascii := "013"%char.
Definition LF : ascii := "010"%char.

(** [size_t] is a 64-bit unsigned integer. *)
Definition size_t_wrap (n : N) : N := n mod 2 ^ 64.

(** The members of the class. *)
Record Helper := mk_helper {
  state : State;
  size : N
}.

(** The constructor: [state(hex), size(0)]. *)
Definition ChunkedHelper_new : Helper := mk_helper hex 0.

(** What one pass through the [switch] of [receive] ends with: a [break], or
    [goto reprocess] after the state was changed. *)
Inductive switch_result :=
| finished (st : State) (sz : N)
| reprocess (st : State).

(** What the buffer entails for the helper after [receive]: the helper's new
    members, the buffers handed to [callback.chunked_content_in] in the order
    of the calls, and the bytes of [buf] the function did not look at. *)
Record outcome := mk_outcome {
  helper : Helper;
  delivered : list (list ascii);
  rest : list ascii
}.

Section Hex.

(** [parse_hex_char] and [render_hex_char] of openvpn/common/hexstr.hpp: the
    value of a hexadecimal digit, negative for any other character, and the
    digit of a value. *)
Variable parse_hex_char : ascii -> Z.
Variable render_hex_char : Z -> ascii.

(** The [switch (state)] on the character [c]. *)
Definition switch (st : State) (sz : N) (c : ascii) : switch_result :=
  match st with
  | hex =>
      let v := parse_hex_char c in
      if (0 <=? v)%Z
      then finished hex (size_t_wrap (N.shiftl sz 4 + Z.to_N v))
      else reprocess post_hex
  | post_hex =>
      if char_eqb c CR then finished post_hex_lf sz else finished post_hex sz
  | post_hex_lf =>
      if char_eqb c LF
      then if negb (sz =? 0) then finished chunk sz else finished post_content_cr sz
      else reprocess post_hex
  | post_chunk_cr =>
      if char_eqb c CR then finished post_chunk_lf sz else finished post_chunk_cr sz
  | post_chunk_lf =>
      if char_eqb c LF then finished hex sz else reprocess post_chunk_cr
  | post_content_cr =>
      if char_eqb c CR then finished post_content_lf sz else finished post_content_cr sz
  | post_content_lf =>
      if char_eqb c LF then finished done sz else reprocess post_content_cr
  | done | chunk => finished st sz
  end.

(** The [switch] with its [goto reprocess]: every state the code jumps back
    with ends in a [break], so the switch is entered at most twice for one
    character. *)
Definition process (st : State) (sz : N) (c : ascii) : State * N :=
  match switch st sz c with
  | finished st' sz' => (st', sz')
  | reprocess st' =>
      match switch st' sz c with
      | finished st'' sz'' => (st'', sz'')
      | reprocess st'' => (st'', sz)
      end
  end.

(** The [while (buf.defined())] loop of [receive]; [out] collects the
    buffers handed to the callback.  [None] when [fuel] rounds do not reach
    the end of the loop. *)
Fixpoint receive_loop (fuel : nat) (st : State) (sz : N) (buf : list ascii)
         (out : list (list ascii)) : option outcome :=
  match fuel with
  | O => None
  | S fuel' =>
      match buf with
      | [] => Some (mk_outcome (mk_helper st sz) out [])
      | c :: buf' =>
          match st with
          | chunk =>
              if negb (sz =? 0)
              then if N.of_nat (List.length buf) <=? sz
                   then Some (mk_outcome
                                (mk_helper chunk (sz - N.of_nat (List.length buf)))
                                (out ++ [buf]) [])
                   else receive_loop fuel' chunk 0
                                     (skipn (N.to_nat sz) buf)
                                     (out ++ [firstn (N.to_nat sz) buf])
              else receive_loop fuel' post_chunk_cr sz buf out
          | done => Some (mk_outcome (mk_helper done sz) out buf)
          | _ =>
              let '(st', sz') := process st sz c in
              receive_loop fuel' st' sz' buf' out
          end
      end
  end.

(** [receive(callback, buf)]: every round of the loop but one kind takes at
    least one byte off the buffer, and that kind (leaving a finished chunk)
    is followed by another, so twice the length and two rounds are enough;
    that the result is always there is proved with the properties. *)
Definition receive (h : Helper) (buf : list ascii) : option outcome :=
  receive_loop (2 * List.length buf + 2) (state h) (size h) buf [].

(** The value [receive] returns: [state == done]. *)
Definition receive_result (o : outcome) : bool := State_eqb (state (helper o)) done.

(** A caller's sequence of [receive] calls, one for each buffer read from
    the connection. *)
Fixpoint receive_all (h : Helper) (bufs : list (list ascii)) : option outcome :=
  match bufs with
  | [] => Some (mk_outcome h [] [])
  | buf :: bufs' =>
      match receive h buf with
      | None => None
      | Some o =>
          match receive_all (helper o) bufs' with
          | None => None
          | Some o' =>
              Some (mk_outcome (helper o') (delivered o ++ delivered o')
                               (rest o ++ rest o'))
          end
      end
  end.

(** The [while (size)] loop of [transmit], which puts the hexadecimal digits
    of [size] in front of the buffer, the lowest digit first. *)
Fixpoint prepend_hex (fuel : nat) (sz : N) (buf : list ascii) : list ascii :=
  match fuel with
  | O => buf
  | S fuel' =>
      if sz =? 0 then buf
      else prepend_hex fuel' (N.shiftr sz 4)
                       (render_hex_char (Z.of_N (N.land sz 0xF)) :: buf)
  end.

(** [transmit(buf)]: the bytes of the buffer handed back, given the bytes of
    the buffer handed in.  The loop ends when [size] is zero; every round
    shifts four bits out of it, so [size] rounds are enough. *)
Definition transmit (content : list ascii) : list ascii :=
  let sz := N.of_nat (List.length content) in
  let buf := CR :: LF :: content in
  let buf :=
    if negb (sz =? 0)
    then prepend_hex (N.to_nat sz) sz buf
    else "0"%char :: buf in
  buf ++ [CR; LF].

(** The byte-at-a-time reading of [receive], by recursion on the buffer:
    the helper's members at the end, the content bytes met, and the bytes
    after the end of the message. *)
Fixpoint feed_all (st : State) (sz : N) (buf : list ascii)
  : State * N * list ascii * list ascii :=
  match buf with
  | [] => (st, sz, [], [])
  | c :: buf' =>
      match st with
      | done => (done, sz, [], buf)
      | chunk =>
          if negb (sz =? 0)
          then let '(st', sz', content, r) := feed_all chunk (sz - 1) buf' in
               (st', sz', c :: content, r)
          else let '(st', sz') := process post_chunk_cr sz c in
               feed_all st' sz' buf'
      | _ =>
          let '(st', sz') := process st sz c in
          feed_all st' sz' buf'
      end
  end.

End Hex.

(** The rounds [receive_loop] needs for a buffer. *)
Definition rounds (st : State) (sz : N) (buf : list ascii) : nat :=
  (2 * List.length buf
   + (if State_eqb st chunk && (sz =? 0)%N then 1 else 0) + 1)%nat.

End ChunkedHelper.

(** ** openvpn/error/error.hpp *)

Module Error.

Local Open Scope string_scope.

(** The enumerators of [enum Type], in the order of the declaration;
    [SUCCESS] is 0, and [N_ERRORS] follows the last of them. *)
Definition enumerators : list string :=
  ["SUCCESS"; "NETWORK_RECV_ERROR"; "NETWORK_EOF_ERROR"; "NETWORK_SEND_ERROR";
   "NETWORK_UNAVAILABLE"; "DECRYPT_ERROR"; "HMAC_ERROR"; "REPLAY_ERROR";
   "BUFFER_ERROR"; "CC_ERROR"; "BAD_SRC_ADDR"; "COMPRESS_ERROR";
   "RESOLVE_ERROR"; "SOCKET_PROTECT_ERROR"; "TUN_READ_ERROR";
   "TUN_WRITE_ERROR"; "TUN_FRAMING_ERROR"; "TUN_SETUP_FAILED";
   "TUN_IFACE_CREATE"; "TUN_IFACE_DISABLED"; "TUN_ERROR";
   "TUN_REGISTER_RINGS_ERROR"; "TAP_NOT_SUPPORTED"; "REROUTE_GW_NO_DNS";
   "TRANSPORT_ERROR"; "TCP_OVERFLOW"; "TCP_SIZE_ERROR"; "TCP_CONNECT_ERROR";
   "UDP_CONNECT_ERROR"; "SSL_ERROR"; "SSL_PARTIAL_WRITE";
   "SSL_CA_MD_TOO_WEAK"; "SSL_CA_KEY_TOO_SMALL"; "SSL_DH_KEY_TOO_SMALL";
   "ENCAPSULATION_ERROR"; "EPKI_CERT_ERROR"; "EPKI_SIGN_ERROR";
   "HANDSHAKE_TIMEOUT"; "KEEPALIVE_TIMEOUT"; "INACTIVE_TIMEOUT";
   "CONNECTION_TIMEOUT"; "PRIMARY_EXPIRE"; "TLS_VERSION_MIN";
   "CERT_VERIFY_FAIL"; "TLS_SIGALG_DISALLOWED_OR_UNSUPPORTED";
   "TLS_ALERT_PROTOCOL_VERSION"; "TLS_ALERT_UNKNOWN_CA";
   "TLS_ALERT_HANDSHAKE_FAILURE"; "TLS_ALERT_CERTIFICATE_REQUIRED";
   "TLS_ALERT_CERTIFICATE_EXPIRED"; "TLS_ALERT_CERTIFICATE_REVOKED";
   "TLS_ALERT_BAD_CERTIFICATE"; "TLS_ALERT_UNSUPPORTED_CERTIFICATE";
   "TLS_ALERT_MISC"; "TLS_AUTH_FAIL"; "TLS_CRYPT_META_FAIL";
   "PEM_PASSWORD_FAIL"; "AUTH_FAILED"; "CLIENT_HALT"; "CLIENT_RESTART";
   "TUN_HALT"; "RELAY"; "RELAY_ERROR"; "N_PAUSE"; "N_RECONNECT";
   "N_KEY_LIMIT_RENEG"; "KEY_STATE_ERROR"; "PROXY_ERROR"; "PROXY_NEED_CREDS";
   "EARLY_NEG_INVALID"; "NTLM_MISSING_CRYPTO"; "UNUSED_OPTIONS";
   "SESSION_EXPIRED"; "NEED_CREDS"; "KEV_NEGOTIATE_ERROR";
   "KEV_PENDING_ERROR"; "N_KEV_EXPIRE"; "KEY_EXPANSION_ERROR";
   "PKTID_INVALID"; "PKTID_BACKTRACK"; "PKTID_EXPIRE"; "PKTID_REPLAY";
   "PKTID_TIME_BACKTRACK"].

Definition N_ERRORS : nat := List.length enumerators.

(** The table [names] of [Error::name]. *)
Definition names : list string :=
  ["SUCCESS"; "NETWORK_RECV_ERROR"; "NETWORK_EOF_ERROR"; "NETWORK_SEND_ERROR";
   "NETWORK_UNAVAILABLE"; "DECRYPT_ERROR"; "HMAC_ERROR"; "REPLAY_ERROR";
   "BUFFER_ERROR"; "CC_ERROR"; "BAD_SRC_ADDR"; "COMPRESS_ERROR";
   "RESOLVE_ERROR"; "SOCKET_PROTECT_ERROR"; "TUN_READ_ERROR";
   "TUN_WRITE_ERROR"; "TUN_FRAMING_ERROR"; "TUN_SETUP_FAILED";
   "TUN_IFACE_CREATE"; "TUN_IFACE_DISABLED"; "TUN_ERROR";
   "TUN_REGISTER_RINGS_ERROR"; "TAP_NOT_SUPPORTED"; "REROUTE_GW_NO_DNS";
   "TRANSPORT_ERROR"; "TCP_OVERFLOW"; "TCP_SIZE_ERROR"; "TCP_CONNECT_ERROR";
   "UDP_CONNECT_ERROR"; "SSL_ERROR"; "SSL_PARTIAL_WRITE";
   "SSL_CA_MD_TOO_WEAK"; "SSL_CA_KEY_TOO_SMALL"; "SSL_DH_KEY_TOO_SMALL";
   "ENCAPSULATION_ERROR"; "EPKI_CERT_ERROR"; "EPKI_SIGN_ERROR";
   "HANDSHAKE_TIMEOUT"; "KEEPALIVE_TIMEOUT"; "INACTIVE_TIMEOUT";
   "CONNECTION_TIMEOUT"; "PRIMARY_EXPIRE"; "TLS_VERSION_MIN";
   "CERT_VERIFY_FAIL"; "TLS_SIGALG_DISALLOWED_OR_UNSUPPORTED";
   "TLS_ALERT_PROTOCOL_VERSION"; "TLS_ALERT_UNKNOWN_CA";
   "TLS_ALERT_HANDSHAKE_FAILURE"; "TLS_ALERT_CERTIFICATE_REQUIRED";
   "TLS_ALERT_CERTIFICATE_EXPIRED"; "TLS_ALERT_CERTIFICATE_REVOKED";
   "TLS_ALERT_BAD_CERTIFICATE"; "TLS_ALERT_UNSUPPORTED_CERTIFICATE";
   "TLS_ALERT_MISC"; "TLS_AUTH_FAIL"; "TLS_CRYPT_META_FAIL";
   "PEM_PASSWORD_FAIL"; "AUTH_FAILED"; "CLIENT_HALT"; "CLIENT_RESTART";
   "TUN_HALT"; "RELAY"; "RELAY_ERROR"; "N_PAUSE"; "N_RECONNECT";
   "N_KEY_LIMIT_RENEG"; "KEY_STATE_ERROR"; "PROXY_ERROR"; "PROXY_NEED_CREDS";
   "EARLY_NEG_INVALID"; "NTLM_MISSING_CRYPTO"; "UNUSED_OPTIONS_ERROR";
   "SESSION_EXPIRED"; "NEED_CREDS"; "KEV_NEGOTIATE_ERROR";
   "KEV_PENDING_ERROR"; "N_KEV_EXPIRE"; "KEV_EXPANSION_ERROR";
   "PKTID_INVALID"; "PKTID_BACKTRACK"; "PKTID_EXPIRE"; "PKTID_REPLAY";
   "PKTID_TIME_BACKTRACK"].

(** [Error::name(type)] *)
Definition name (type : nat) : string :=
  if (type <? N_ERRORS)%nat then nth type names "" else "UNKNOWN_ERROR_TYPE".

End Error.

(** ** client/ovpncli.cpp: statistics, events and connect *)

Module SessionStats.

Import ClientAPI.
Local Open Scope list_scope.

(** [a[i] = v] on an array: the write is to an index inside the array. *)
Fixpoint array_set (a : list Z) (i : nat) (v : Z) : list Z :=
  match a, i with
  | [], _ => []
  | _ :: a', O => v :: a'
  | x :: a', S i' => x :: array_set a' i' v
  end.

(** [count_t] is [unsigned long long]. *)
Definition count_t_wrap (n : Z) : Z := (n mod 2 ^ 64)%Z.

Section Stats.

Variable E : Env.

(** [stat_name] of the SessionStats base class (openvpn/log/sessionstats.hpp). *)
Variable stat_name : nat -> string.

(** MySessionStats::error: [if (err < Error::N_ERRORS) ++errors[err];] *)
Definition error (m : MySessionStats (Time E)) (err : nat) : MySessionStats (Time E) :=
  if (err <? Error.N_ERRORS)%nat
  then mk_stats (stats_ m)
         (array_set (errors m) err (count_t_wrap (nth err (errors m) 0%Z + 1)))
         (last_packet_received m)
  else m.

(** MySessionStats::combined_name *)
Definition combined_name (index : nat) : string :=
  if (index <? combined_n E)%nat then
    if (index <? N_STATS E)%nat then stat_name index
    else Error.name (index - N_STATS E)
  else "".

(** OpenVPNClient::stats_n: [(int)MySessionStats::combined_n()] *)
Definition stats_n : Z := Z.of_nat (combined_n E).

(** OpenVPNClient::stats_name: the [int] index becomes a [size_t]. *)
Definition stats_name (index : Z) : string :=
  combined_name (size_t_of_int index).

End Stats.

End SessionStats.

Module Connect.

Import ClientAPI.
Local Open Scope list_scope.

Section Connect.

Variable E : Env.

(** The parts of [connect] that live outside the files modelled here:
    [connect_setup(status, session_started)] with the values it leaves in
    its two reference parameters, [connect_run], [connect_session_stop],
    the [dynamic_cast] to ExceptionCode together with [code_defined()] and
    [code()], and the flag Unicode::UTF8_PASS_FMT. *)
Variable connect_setup :
  ClientState E -> result unit * (Status * bool) * ClientState E.
Variable connect_run : ClientState E -> result unit * ClientState E.
Variable connect_session_stop : ClientState E -> ClientState E.
Variable ExceptionCode_code : exception -> option nat.
Variable UTF8_PASS_FMT : N.

(** OpenVPNClient::status_from_exception *)
Definition status_from_exception (e : exception) : Status :=
  mk_status true
    (match ExceptionCode_code e with
     | Some code => Error.name code
     | None => ""
     end)
    (utf8_printable E (what e) (N.to_nat (N.lor 2048 UTF8_PASS_FMT))).

(** OpenVPNClient::do_connect (without OPENVPN_OVPNCLI_ASYNC_SETUP) *)
Definition do_connect (s : ClientState E) : Status * ClientState E :=
  let status := mk_status false "" "" in
  let session_started := false in
  match connect_attach E s with
  | (Throw e, s1) =>
      (status_from_exception e,
       if session_started then connect_session_stop s1 else s1)
  | (Ok _, s1) =>
      match connect_setup s1 with
      | (Throw e, (_, session_started), s2) =>
          (status_from_exception e,
           if session_started then connect_session_stop s2 else s2)
      | (Ok _, (status, session_started), s2) =>
          match connect_run s2 with
          | (Throw e, s3) =>
              (status_from_exception e,
               if session_started then connect_session_stop s3 else s3)
          | (Ok _, s3) => (status, s3)
          end
      end
  end.

End Connect.

End Connect.

Module ClientEvents.

Local Open Scope list_scope.

(** ClientAPI::ConnectionInfo *)
Record ConnectionInfo := mk_connection_info {
  ci_defined : bool;
  ci_user : string;
  ci_serverHost : string;
  ci_serverPort : string;
  ci_serverProto : string;
  ci_serverIp : string;
  ci_vpnIp4 : string;
  ci_vpnIp6 : string;
  ci_vpnMtu : string;
  ci_gw4 : string;
  ci_gw6 : string;
  ci_clientIp : string;
  ci_tunName : string
}.

(** [ConnectionInfo ci;] *)
Definition ConnectionInfo_default : ConnectionInfo :=
  mk_connection_info false "" "" "" "" "" "" "" "" "" "" "" "".

(** ClientEvent::Connected, the fields [get_connection_info] copies. *)
Record Connected := mk_connected {
  user : string;
  server_host : string;
  server_port : string;
  server_proto : string;
  server_ip : string;
  vpn_ip4 : string;
  vpn_ip6 : string;
  vpn_gw4 : string;
  vpn_gw6 : string;
  client_ip : string;
  tun_name : string;
  vpn_mtu : string
}.

(** ClientAPI::Event and AppCustomControlMessageEvent, and the calls
    [add_event] makes on the client object. *)
Record Event := mk_event {
  ev_name : string;
  ev_info : string;
  ev_error : bool;
  ev_fatal : bool
}.

Inductive parent_call :=
| acc_event (protocol payload : string)
| on_disconnect
| event (ev : Event).

Section Events.

(** ClientEvent::Base (openvpn/client/clievent.hpp) as [add_event] and
    [get_connection_info] use it. *)
Variable Base : Type.
Variable id : Base -> nat.
Variable name : Base -> string.
Variable render : Base -> string.
Variable is_error : Base -> bool.
Variable is_fatal : Base -> bool.
Variable connected_cast : Base -> option Connected.
Variable accm_protocol : Base -> string.
Variable accm_custommessage : Base -> string.
Variable CONNECTED : nat.
Variable DISCONNECTED : nat.
Variable CUSTOM_CONTROL : nat.

(** MyClientEvents: is [parent] set, and [last_connected]. *)
Record MyClientEvents := mk_events {
  parent : bool;
  last_connected : option Base
}.

(** The constructor and [detach_from_parent]. *)
Definition MyClientEvents_new : MyClientEvents := mk_events true None.

Definition detach_from_parent (q : MyClientEvents) : MyClientEvents :=
  mk_events false (last_connected q).

(** MyClientEvents::add_event: the object afterwards and the calls made on
    the client object, in order. *)
Definition add_event (q : MyClientEvents) (ev : Base)
  : MyClientEvents * list parent_call :=
  if parent q then
    if (id ev =? CUSTOM_CONTROL)%nat
    then (q, [acc_event (accm_protocol ev) (accm_custommessage ev)])
    else
      let e := mk_event (name ev) (render ev) (is_error ev) (is_fatal ev) in
      if (id ev =? CONNECTED)%nat
      then (mk_events (parent q) (Some ev), [event e])
      else if (id ev =? DISCONNECTED)%nat
           then (q, [on_disconnect; event e])
           else (q, [event e])
  else (q, []).

(** MyClientEvents::get_connection_info *)
Definition get_connection_info (q : MyClientEvents) (ci : ConnectionInfo)
  : ConnectionInfo :=
  match last_connected q with
  | Some connected =>
      match connected_cast connected with
      | Some c =>
          mk_connection_info true (user c) (server_host c) (server_port c)
            (server_proto c) (server_ip c) (vpn_ip4 c) (vpn_ip6 c) (vpn_mtu c)
            (vpn_gw4 c) (vpn_gw6 c) (client_ip c) (tun_name c)
      | None =>
          mk_connection_info false (ci_user ci) (ci_serverHost ci)
            (ci_serverPort ci) (ci_serverProto ci) (ci_serverIp ci)
            (ci_vpnIp4 ci) (ci_vpnIp6 ci) (ci_vpnMtu ci) (ci_gw4 ci)
            (ci_gw6 ci) (ci_clientIp ci) (ci_tunName ci)
      end
  | None =>
      mk_connection_info false (ci_user ci) (ci_serverHost ci)
        (ci_serverPort ci) (ci_serverProto ci) (ci_serverIp ci)
        (ci_vpnIp4 ci) (ci_vpnIp6 ci) (ci_vpnMtu ci) (ci_gw4 ci)
        (ci_gw6 ci) (ci_clientIp ci) (ci_tunName ci)
  end.

(** OpenVPNClient::connection_info, given whether foreign-thread access is
    enabled and the [events] member of the client state. *)
Definition connection_info (foreign_thread_access : bool)
           (events : option MyClientEvents) : ConnectionInfo :=
  if foreign_thread_access then
    match events with
    | Some q => get_connection_info q ConnectionInfo_default
    | None => ConnectionInfo_default
    end
  else ConnectionInfo_default.

(** A run of [add_event] calls. *)
Definition add_events (q : MyClientEvents) (evs : list Base) : MyClientEvents :=
  fold_left (fun q ev => fst (add_event q ev)) evs q.

(** The last event of the list that has the id [CONNECTED]. *)
Definition last_connected_of (evs : list Base) : option Base :=
  fold_left (fun r ev => if (id ev =? CONNECTED)%nat then Some ev else r) evs None.

End Events.

End ClientEvents.

(** ** MbedTLSContext::SSL: the cipher suite list *)

Module CipherList.

Local Open Scope list_scope.

(** [std::count(s.begin(), s.end(), c)] *)
Fixpoint count (c : ascii) (s : string) : nat :=
  match s with
  | EmptyString => 0
  | String a s' => (if char_eqb a c then 1 else 0) + count c s'
  end.

(** The characters [std::getline(stream, line, ':')] takes off a stream that
    is not at its end: the line up to the first colon or the end of the
    stream, and what is left after the colon. *)
Fixpoint take_line (s : string) : string * string :=
  match s with
  | EmptyString => (EmptyString, EmptyString)
  | String a s' =>
      if char_eqb a ":" then (EmptyString, s')
      else let (line, r) := take_line s' in (String a line, r)
  end.

(** [std::getline(stream, line, ':')] on a stream holding [s]: it fails when
    nothing is left to read. *)
Definition getline (s : string) : option (string * string) :=
  match s with
  | EmptyString => None
  | _ => Some (take_line s)
  end.

(** An array from [new int[n]]: no element has a value yet. *)
Definition array := list (option Z).

Definition new_array (n : nat) : array := repeat None n.

(** [a[i] = v]; [None] when the index lies outside the array. *)
Fixpoint array_write (a : array) (i : nat) (v : Z) : option array :=
  match a, i with
  | [], _ => None
  | _ :: a', O => Some (Some v :: a')
  | x :: a', S i' =>
      match array_write a' i' v with
      | Some r => Some (x :: r)
      | None => None
      end
  end.

(** How [set_mbedtls_cipherlist] ends: with the array it hands to
    [mbedtls_ssl_conf_ciphersuites] and the index of the closing 0, with a
    write outside the array, or not within the rounds granted. *)
Inductive outcome :=
| configured (allowed_ciphers : array) (i : nat)
| out_of_bounds
| out_of_rounds.

(** The entries below [i] hold ids that are not 0. *)
Definition filled (a : array) (i : nat) : Prop :=
  forall j, (j < i)%nat -> exists v, nth j a None = Some v /\ v <> 0%Z.

Section Ciphers.

(** [mbedtls_ssl_get_ciphersuite_id]: 0 for an unknown name. *)
Variable mbedtls_ssl_get_ciphersuite_id : string -> Z.

(** The [while (std::getline(cipher_list_ss, ciphersuite, ':'))] loop. *)
Fixpoint cipherlist_loop (fuel : nat) (stream : string) (i : nat) (a : array)
  : outcome :=
  match fuel with
  | O => out_of_rounds
  | S fuel' =>
      match getline stream with
      | None =>
          (* Last element needs to be null *)
          match array_write a i 0%Z with
          | Some a' => configured a' i
          | None => out_of_bounds
          end
      | Some (ciphersuite, stream') =>
          let cipher_id := mbedtls_ssl_get_ciphersuite_id ciphersuite in
          if negb (cipher_id =? 0)%Z
          then match array_write a i cipher_id with
               | Some a' => cipherlist_loop fuel' stream' (S i) a'
               | None => out_of_bounds
               end
          else cipherlist_loop fuel' stream' i a
      end
  end.

(** MbedTLSContext::SSL::set_mbedtls_cipherlist: every round of the loop
    takes at least one character off the stream. *)
Definition set_mbedtls_cipherlist (cipher_list : string) : outcome :=
  let num_ciphers := count ":" cipher_list + 1 in
  let allowed_ciphers := new_array (num_ciphers + 1) in
  cipherlist_loop (String.length cipher_list + 1) cipher_list 0 allowed_ciphers.

End Ciphers.

End CipherList.

(** The number a byte string stands for, most significant byte first. *)
Fixpoint be_value (b : list Byte.byte) : N :=
  match b with
  | [] => 0%N
  | x :: b' => (Byte.to_N x * 256 ^ N.of_nat (List.length b') + be_value b')%N
  end.

(** ** Example values of the further modules *)

Definition example_static_key : StaticKeys.bytes :=
  (repeat Byte.x11 64 ++ repeat Byte.x22 64 ++ repeat Byte.x33 64
   ++ repeat Byte.x44 64)%list.

(** The hexadecimal digit functions of openvpn/common/hexstr.hpp as they are
    commonly written, for the examples of the chunked helper. *)
Definition example_parse_hex_char (c : ascii) : Z :=
  if char_in_range "0" "9" c then Z.of_N (char_code c) - 48
  else if char_in_range "a" "f" c then Z.of_N (char_code c) - 97 + 10
  else if char_in_range "A" "F" c then Z.of_N (char_code c) - 65 + 10
  else (-1).

Definition example_render_hex_char (d : Z) : ascii :=
  if (d <? 0)%Z then "?"%char
  else if (d <? 10)%Z then ascii_of_N (Z.to_N (48 + d))
  else if (d <? 16)%Z then ascii_of_N (Z.to_N (97 + d - 10))
  else "?"%char.

Definition example_chunks : list (list ascii) :=
  [list_ascii_of_string "hello, "; list_ascii_of_string "chunked world: 17+"].

(** The two example chunks as [transmit] writes them, ended by the empty
    chunk, and the stream cut into three buffers in the middle of the size
    line and in the middle of the content. *)
Definition example_wire : list ascii :=
  (List.concat (map (ChunkedHelper.transmit example_render_hex_char) example_chunks)
   ++ ChunkedHelper.transmit example_render_hex_char [])%list.

Definition example_wire_buffers : list (list ascii) :=
  [firstn 1 example_wire; firstn 7 (skipn 1 example_wire); skipn 8 example_wire].

(** Fresh statistics of the example client, and a name for its
    statistics. *)
Definition example_stats : ClientAPI.MySessionStats (ClientAPI.Time example_env) :=
  ClientAPI.mk_stats (repeat 0%Z 8) (repeat 0%Z 83) None.

Definition example_stat_name (index : nat) : string :=
  if Nat.eqb index 0 then "BYTES_IN" else "STAT".

(** Example client events: the id paired with the data of a Connected
    event, if it is one. *)
Definition example_event : Type := nat * option ClientEvents.Connected.

Definition example_connected : ClientEvents.Connected :=
  ClientEvents.mk_connected "alice" "vpn.example.com" "1194" "UDP" "192.0.2.1"
    "10.8.0.2" "" "10.8.0.1" "" "198.51.100.7" "tun0" "1500".

Definition example_events : list example_event :=
  [(5, None); (1, Some example_connected); (7, None); (0, None)].

(** A client session whose configuration asks for ns-cert-type server. *)
Definition example_ns_session : MbedTLS.SSL example_library :=
  MbedTLS.mk_ssl example_library tt
    (MbedTLS.mk_config MbedTLS.CLIENT 0%Z true (Some example_crt) true false false
       true true MbedTLS.NS_SERVER [] "" "" example_verify_none)
    [] [] None false 0%Z.

(** Two cipher suite ids a library may know. *)
Definition example_ciphersuite_id (name : string) : Z :=
  if String.eqb name "TLS-ECDHE-RSA-WITH-AES-256-GCM-SHA384" then 0xC030%Z
  else if String.eqb name "TLS-DHE-RSA-WITH-AES-256-CBC-SHA" then 0x39%Z
  else 0%Z.

(** * Properties *)

(** ** HostPort *)








Example split_host_port_ex1 :
  HostPort.split_host_port "vpn.example.com:1194" "" "" "" false
  = HostPort.mk_split_result true "vpn.example.com" "1194" 1194%N.
Proof. reflexivity. Qed.

Example split_host_port_ex2 :
  HostPort.split_host_port "[::1]:443" "" "" "" false
  = HostPort.mk_split_result true "::1" "443" 443%N.
Proof. reflexivity. Qed.

Example split_host_port_ex3 :
  HostPort.split_host_port "::1" "h" "p" "1194" false
  = HostPort.mk_split_result true "::1" "1194" 1194%N.
Proof. reflexivity. Qed.

Example split_host_port_ex4 :
  HostPort.split_host_port "/run/sock:unix" "h" "p" "" true
  = HostPort.mk_split_result true "/run/sock" "unix" 0%N.
Proof. reflexivity. Qed.

Example sanitize_ex1 :
  TLSRemote.sanitize_x509_name "--C=US, CN=a b" = "__C=US__CN=a_b".
Proof. reflexivity. Qed.

(** ** TLSRemote *)

Lemma prefix_iff_append (pre s : string) :
  String.prefix pre s = true <-> exists extra, s = pre ++ extra.
Proof.
  revert s. induction pre as [|a pre IH]; intro s.
  - cbn. split; [intros _; exists s; reflexivity | destruct s; reflexivity].
  - destruct s as [|b s]; cbn.
    + split; [discriminate | intros [extra H]; discriminate].
    + destruct (ascii_dec a b) as [->|Hab].
      * rewrite IH. split; intros [extra H]; exists extra.
        -- now subst.
        -- cbn in H. now injection H.
      * split; [discriminate|]. intros [extra H]. cbn in H.
        injection H as H1 H2. congruence.
Qed.

Lemma test_spec (tls_remote subject common_name : string) :
  TLSRemote.test tls_remote subject common_name = true <->
  tls_remote = subject \/ exists extra, common_name = tls_remote ++ extra.
Proof.
  unfold TLSRemote.test, starts_with.
  rewrite orb_true_iff, String.eqb_eq, prefix_iff_append. reflexivity.
Qed.

Lemma sanitize_common_name_app (a b : string) :
  TLSRemote.sanitize_common_name (a ++ b) =
  TLSRemote.sanitize_common_name a ++ TLSRemote.sanitize_common_name b.
Proof.
  induction a as [|c a IH]; cbn; [reflexivity|].
  destruct (TLSRemote.common_name_char_ok c); cbn; now rewrite IH.
Qed.

(** A certificate whose raw common name extends a tls-remote value made of
    characters the sanitizer keeps still passes the check. *)
Lemma test_raw_common_name_extension (tls_remote subject extra : string) :
  TLSRemote.sanitize_common_name tls_remote = tls_remote ->
  TLSRemote.test tls_remote subject
    (TLSRemote.sanitize_common_name (tls_remote ++ extra)) = true.
Proof.
  intro Hstable. apply test_spec. right.
  exists (TLSRemote.sanitize_common_name extra).
  now rewrite sanitize_common_name_app, Hstable.
Qed.

(** C8: [TLSRemote::test] holds exactly when tls_remote equals the subject
    it is given or is a prefix of the common name it is given; a common name
    that extends tls_remote by any trailing characters passes; and the
    client verify callback applies the test to the sanitized subject and the
    sanitized common name of the certificate. *)
Theorem C8_tls_remote_test :
  (forall tls_remote subject common_name,
      TLSRemote.test tls_remote subject common_name = true <->
      tls_remote = subject \/ exists extra, common_name = tls_remote ++ extra)
  /\ (forall tls_remote subject extra,
         TLSRemote.test tls_remote subject (tls_remote ++ extra) = true)
  /\ (forall c cert,
         MbedTLS.tls_remote c <> "" ->
         (MbedTLS.tls_remote_fail c cert = false <->
          MbedTLS.tls_remote c
          = TLSRemote.sanitize_x509_name (MbedTLS.x509_get_subject cert)
          \/ exists extra,
              TLSRemote.sanitize_common_name (MbedTLS.x509_get_common_name cert)
              = MbedTLS.tls_remote c ++ extra)).
Proof.
  split; [exact test_spec | split].
  - intros tls_remote subject extra. apply test_spec. right. now exists extra.
  - intros c cert Hne. unfold MbedTLS.tls_remote_fail.
    destruct (String.eqb (MbedTLS.tls_remote c) "") eqn:He.
    + apply String.eqb_eq in He. contradiction.
    + cbn [negb]. rewrite negb_false_iff. apply test_spec.
Qed.

Lemma C8_tls_remote_test_witness :
  MbedTLS.tls_remote example_client_config <> ""
  /\ MbedTLS.tls_remote_fail example_client_config example_crt = false.
Proof.
  split; [discriminate|].
  destruct C8_tls_remote_test as (_ & _ & H).
  apply (H example_client_config example_crt); [discriminate|].
  right. exists ".evil.org". reflexivity.
Defined.

(** ** PacketID: the replay window *)

Section ReplayWindow.

Import PacketID.
Local Open Scope Z_scope.

Lemma accept_width (w : ReplayWindow) (id : Z) :
  width (snd (accept w id)) = width w.
Proof.
  unfold accept.
  destruct (high w <? id); [reflexivity|].
  destruct (id <=? high w - width w); [reflexivity|].
  destruct (Z.testbit (bitmap w) (high w - id)); reflexivity.
Qed.

Lemma accept_high_mono (w : ReplayWindow) (id : Z) :
  high w <= high (snd (accept w id)).
Proof.
  unfold accept.
  destruct (Z.ltb_spec (high w) id); cbn; [lia|].
  destruct (id <=? high w - width w); cbn; [lia|].
  destruct (Z.testbit (bitmap w) (high w - id)); cbn; lia.
Qed.

Lemma accept_all_cons (w : ReplayWindow) (id : Z) (ids : list Z) :
  snd (accept_all w (id :: ids)) = snd (accept_all (snd (accept w id)) ids).
Proof.
  cbn. destruct (accept w id) as [v w1]. cbn.
  destruct (accept_all w1 ids). reflexivity.
Qed.

Lemma accept_all_app (w : ReplayWindow) (ids1 ids2 : list Z) :
  snd (accept_all w (ids1 ++ ids2))
  = snd (accept_all (snd (accept_all w ids1)) ids2).
Proof.
  revert w. induction ids1 as [|id ids1 IH]; intro w; [reflexivity|].
  rewrite <- app_comm_cons, !accept_all_cons. apply IH.
Qed.

Lemma accept_all_width (w : ReplayWindow) (ids : list Z) :
  width (snd (accept_all w ids)) = width w.
Proof.
  revert w. induction ids as [|id ids IH]; intro w; [reflexivity|].
  rewrite accept_all_cons, IH. apply accept_width.
Qed.

Lemma accept_all_high_mono (w : ReplayWindow) (ids : list Z) :
  high w <= high (snd (accept_all w ids)).
Proof.
  revert w. induction ids as [|id ids IH]; intro w; [cbn; lia|].
  rewrite accept_all_cons.
  pose proof (accept_high_mono w id). pose proof (IH (snd (accept w id))). lia.
Qed.

Lemma accept_expired (w : ReplayWindow) (id : Z) :
  0 < width w -> id <= high w - width w -> accept w id = (Expired, w).
Proof.
  intros Hw Hid. unfold accept.
  destruct (Z.ltb_spec (high w) id); [lia|].
  destruct (Z.leb_spec id (high w - width w)); [reflexivity | lia].
Qed.

Lemma accept_duplicate (w : ReplayWindow) (id : Z) :
  seen w id = true -> accept w id = (Duplicate, w).
Proof.
  unfold seen, accept. intro H.
  apply andb_prop in H. destruct H as [H Hbit].
  apply andb_prop in H. destruct H as [Hlo Hhi].
  apply Z.ltb_lt in Hlo. apply Z.leb_le in Hhi.
  destruct (Z.ltb_spec (high w) id); [lia|].
  destruct (Z.leb_spec id (high w - width w)); [lia|].
  now rewrite Hbit.
Qed.

Lemma accept_lowest_slot (w : ReplayWindow) :
  0 < width w ->
  (fst (accept w (high w - width w + 1)) = Accepted
   <-> Z.testbit (bitmap w) (width w - 1) = false).
Proof.
  intro Hw. unfold accept.
  destruct (Z.ltb_spec (high w) (high w - width w + 1)); [lia|].
  destruct (Z.leb_spec (high w - width w + 1) (high w - width w)); [lia|].
  replace (high w - (high w - width w + 1)) with (width w - 1) by lia.
  destruct (Z.testbit (bitmap w) (width w - 1)); cbn; split; congruence.
Qed.

Lemma seen_intro (w : ReplayWindow) (id : Z) :
  high w - width w < id -> id <= high w ->
  Z.testbit (bitmap w) (high w - id) = true -> seen w id = true.
Proof.
  intros H1 H2 H3. unfold seen.
  apply Z.ltb_lt in H1. apply Z.leb_le in H2. now rewrite H1, H2, H3.
Qed.

Lemma seen_elim (w : ReplayWindow) (id : Z) :
  seen w id = true ->
  high w - width w < id /\ id <= high w
  /\ Z.testbit (bitmap w) (high w - id) = true.
Proof.
  unfold seen. intro H.
  apply andb_prop in H. destruct H as [H Hbit].
  apply andb_prop in H. destruct H as [Hlo Hhi].
  apply Z.ltb_lt in Hlo. apply Z.leb_le in Hhi. auto.
Qed.

Lemma covered_rejected (w : ReplayWindow) (id : Z) :
  0 < width w -> covered w id -> is_replay (fst (accept w id)) = true.
Proof.
  intros Hw [H|H].
  - now rewrite accept_expired.
  - now rewrite accept_duplicate.
Qed.

Lemma covered_advance (w : ReplayWindow) (id x : Z) :
  0 < width w -> high w < x -> covered w id -> covered (advance w x) id.
Proof.
  intros Hw Hx [H|H]; unfold covered, advance; cbn [high width bitmap].
  - left. lia.
  - apply seen_elim in H. destruct H as (Hlo & Hhi & Hbit).
    destruct (Z.le_gt_cases id (x - width w)) as [Hout|Hin]; [now left|].
    right. apply seen_intro; cbn [high width bitmap]; try lia.
    destruct (Z.leb_spec (width w) (x - high w)); [lia|].
    rewrite Z.lor_spec, Z.land_spec, Z.shiftl_spec by lia.
    replace (x - id - (x - high w)) with (high w - id) by lia.
    rewrite Hbit, Z.ones_spec_low by lia. reflexivity.
Qed.

Lemma covered_mark (w : ReplayWindow) (id x : Z) :
  covered w id -> covered (mark w x) id.
Proof.
  intros [H|H]; unfold covered, mark; cbn [high width bitmap]; [now left|].
  apply seen_elim in H. destruct H as (Hlo & Hhi & Hbit).
  right. apply seen_intro; cbn [high width bitmap]; try lia.
  now rewrite Z.lor_spec, Hbit.
Qed.

Lemma covered_accept (w : ReplayWindow) (id x : Z) :
  0 < width w -> covered w id -> covered (snd (accept w x)) id.
Proof.
  intros Hw Hc. unfold accept.
  destruct (Z.ltb_spec (high w) x); cbn [snd]; [now apply covered_advance|].
  destruct (x <=? high w - width w); cbn [snd]; [assumption|].
  destruct (Z.testbit (bitmap w) (high w - x)); cbn [snd];
    [assumption | now apply covered_mark].
Qed.

Lemma covered_accept_all (w : ReplayWindow) (id : Z) (ids : list Z) :
  0 < width w -> covered w id -> covered (snd (accept_all w ids)) id.
Proof.
  revert w. induction ids as [|x ids IH]; intros w Hw Hc; [assumption|].
  rewrite accept_all_cons. apply IH.
  - now rewrite accept_width.
  - now apply covered_accept.
Qed.

Lemma accepted_covered (w : ReplayWindow) (id : Z) :
  0 < width w -> fst (accept w id) = Accepted -> covered (snd (accept w id)) id.
Proof.
  intros Hw. unfold accept.
  destruct (Z.ltb_spec (high w) id); cbn [fst snd].
  - intros _. right. unfold advance. apply seen_intro; cbn [high width bitmap]; try lia.
    rewrite Z.sub_diag, Z.lor_spec. cbn. apply orb_true_r.
  - destruct (Z.leb_spec id (high w - width w)); cbn [fst snd]; [discriminate|].
    destruct (Z.testbit (bitmap w) (high w - id)); cbn [fst snd]; [discriminate|].
    intros _. right. unfold mark. apply seen_intro; cbn [high width bitmap]; try lia.
    rewrite Z.lor_spec, Z.shiftl_spec, Z.sub_diag by lia. cbn. apply orb_true_r.
Qed.

(** Once an id has been admitted, every later arrival of the same id is
    turned away as a replay, whatever was fed in between. *)
Lemma accepted_id_is_never_accepted_again (w : ReplayWindow) (id : Z) (ids : list Z) :
  0 < width w ->
  fst (accept w id) = Accepted ->
  is_replay (fst (accept (snd (accept_all (snd (accept w id)) ids)) id)) = true.
Proof.
  intros Hw Hacc. apply covered_rejected.
  - now rewrite accept_all_width, accept_width.
  - apply covered_accept_all; [now rewrite accept_width|].
    now apply accepted_covered.
Qed.

(** C3: replay-window invariant.  Along every sequence of accept operations
    the high-water mark never decreases and the width stays put; in every
    window state an id at or below [high - width] is rejected as expired, in
    particular [high - width] itself; an id whose window bit is set is
    rejected as duplicate; and [high - width + 1] is accepted exactly when its
    bit is unset. *)
Theorem C3_replay_window_invariant (w0 : ReplayWindow) (Hw : 0 < width w0) :
  (forall ids1 ids2,
      high (snd (accept_all w0 ids1)) <= high (snd (accept_all w0 (ids1 ++ ids2))))
  /\ (forall ids,
         let w := snd (accept_all w0 ids) in
         (forall id, id <= high w - width w -> accept w id = (Expired, w))
         /\ accept w (high w - width w) = (Expired, w)
         /\ (forall id, seen w id = true -> accept w id = (Duplicate, w))
         /\ (fst (accept w (high w - width w + 1)) = Accepted
             <-> Z.testbit (bitmap w) (width w - 1) = false)).
Proof.
  split.
  - intros ids1 ids2. rewrite accept_all_app. apply accept_all_high_mono.
  - intros ids w.
    assert (Hw' : 0 < width w) by (subst w; now rewrite accept_all_width).
    split; [|split; [|split]].
    + intros id Hid. now apply accept_expired.
    + apply accept_expired; [assumption | lia].
    + intros id Hid. now apply accept_duplicate.
    + now apply accept_lowest_slot.
Qed.

End ReplayWindow.

Example replay_scenario :
  fst (PacketID.accept_all (PacketID.init 8) [1; 2; 3; 5; 4; 6; 8; 7; 2]%Z)
  = [PacketID.Accepted; PacketID.Accepted; PacketID.Accepted; PacketID.Accepted;
     PacketID.Accepted; PacketID.Accepted; PacketID.Accepted; PacketID.Accepted;
     PacketID.Duplicate].
Proof. reflexivity. Qed.

Lemma C3_replay_window_invariant_witness :
  (0 < PacketID.width (PacketID.init 8))%Z
  /\ PacketID.accept
       (snd (PacketID.accept_all (PacketID.init 8) [1; 2; 3; 5; 4; 6; 8; 7; 12]%Z)) 4%Z
     = (PacketID.Expired,
        snd (PacketID.accept_all (PacketID.init 8) [1; 2; 3; 5; 4; 6; 8; 7; 12]%Z)).
Proof.
  split; [reflexivity|].
  destruct (C3_replay_window_invariant (PacketID.init 8) eq_refl) as [_ H].
  destruct (H [1; 2; 3; 5; 4; 6; 8; 7; 12]%Z) as (_ & Hedge & _).
  exact Hedge.
Defined.

(** ** The mbed TLS adapter *)

Section AdapterFacts.

Import MbedTLS.
Variable L : Library.

Local Open Scope list_scope.
Local Open Scope nat_scope.

Lemma memq_read_size (q : MemQStream) (len : nat) :
  memq_size (snd (memq_read q len)) <= memq_size q.
Proof.
  revert len. induction q as [|b q IH]; intro len; cbn; [lia|].
  destruct (len =? 0); [cbn; lia|].
  destruct (List.length b <=? len).
  - specialize (IH (len - List.length b)).
    destruct (memq_read q (len - List.length b)) as [d q'']. cbn in *.
    unfold memq_size in *. lia.
  - cbn. lia.
Qed.

Lemma callback_frame_refl (s : SSL L) : callback_frame L s s.
Proof. unfold callback_frame. auto. Qed.

Lemma callback_frame_trans (s1 s2 s3 : SSL L) :
  callback_frame L s1 s2 -> callback_frame L s2 s3 -> callback_frame L s1 s3.
Proof.
  unfold callback_frame. intros (A1 & A2 & A3) (B1 & B2 & B3).
  repeat split; try congruence; lia.
Qed.

Lemma ct_read_func_frame (s : SSL L) (len : nat) :
  callback_frame L s (snd (ct_read_func L s len)).
Proof.
  unfold ct_read_func. pose proof (memq_read_size (ct_in s) len) as H.
  destruct (memq_read (ct_in s) len) as [data q]. cbn in *.
  unfold callback_frame. cbn. auto.
Qed.

Lemma ct_write_func_frame (s : SSL L) (data : bytes) :
  callback_frame L s (snd (ct_write_func L s data)).
Proof.
  unfold ct_write_func.
  destruct (memq_write L (ct_out s) data); cbn; unfold callback_frame; cbn; auto.
Qed.

Lemma verify_callback_frame (s : SSL L) (cert : x509_crt) (depth vflags : Z) :
  callback_frame L s (snd (verify_callback L s cert depth vflags)).
Proof.
  assert (Hclient :
            callback_frame L s (snd (verify_callback_client L s cert depth vflags)))
    by (unfold verify_callback_client, callback_frame; cbn; auto).
  unfold verify_callback. destruct (mode (parent s)); try exact Hclient.
  unfold verify_callback_server.
  destruct (depth =? 1)%Z.
  - destruct (authcert s) as [a|]; [|apply callback_frame_refl].
    destruct (load_issuer_fingerprint_into_authcert L a cert).
    unfold callback_frame; cbn; auto.
  - destruct (depth =? 0)%Z; [|apply callback_frame_refl].
    destruct (authcert s); unfold callback_frame; cbn; auto.
Qed.

Lemma run_callbacks_frame {R : Type} (p : callback_prog R) (s : SSL L) :
  callback_frame L s (snd (run_callbacks L p s)).
Proof.
  revert s. induction p as [r|len k IH|data k IH|cert depth vflags k IH]; intro s; cbn.
  - apply callback_frame_refl.
  - pose proof (ct_read_func_frame s len) as H.
    destruct (ct_read_func L s len) as [r s']. cbn in H.
    eapply callback_frame_trans; [exact H | apply IH].
  - pose proof (ct_write_func_frame s data) as H.
    destruct (ct_write_func L s data) as [r s']. cbn in H.
    eapply callback_frame_trans; [exact H | apply IH].
  - pose proof (verify_callback_frame s cert depth vflags) as H.
    destruct (verify_callback L s cert depth vflags) as [r s']. cbn in H.
    eapply callback_frame_trans; [exact H | apply IH].
Qed.

Lemma start_handshake_frame (s : SSL L) : callback_frame L s (start_handshake L s).
Proof.
  unfold start_handshake.
  pose proof (run_callbacks_frame (mbedtls_ssl_handshake L (ssl s)) s) as H.
  destruct (run_callbacks L (mbedtls_ssl_handshake L (ssl s)) s) as [[st e] s'].
  exact H.
Qed.

Lemma read_cleartext_frame (s : SSL L) (capacity : nat) :
  callback_frame L s (snd (read_cleartext L s capacity)).
Proof.
  unfold read_cleartext.
  destruct (overflow s); cbn [negb]; [apply callback_frame_refl|].
  pose proof (run_callbacks_frame (mbedtls_ssl_read L (ssl s) capacity) s) as H.
  destruct (run_callbacks L (mbedtls_ssl_read L (ssl s) capacity) s)
    as [[[st data] e] s'].
  cbn in H.
  destruct (st <? 0)%Z; [|exact H].
  destruct (st =? CT_WOULD_BLOCK)%Z; [exact H|].
  destruct (st =? MBEDTLS_ERR_SSL_PEER_CLOSE_NOTIFY L)%Z; [exact H|].
  destruct (st =? CT_INTERNAL_ERROR)%Z; exact H.
Qed.

Lemma write_cleartext_unbuffered_frame (s : SSL L) (data : bytes) :
  callback_frame L s (snd (write_cleartext_unbuffered L s data)).
Proof.
  unfold write_cleartext_unbuffered.
  pose proof (run_callbacks_frame (mbedtls_ssl_write L (ssl s) data) s) as H.
  destruct (run_callbacks L (mbedtls_ssl_write L (ssl s) data) s) as [[st e] s'].
  cbn in H.
  destruct (st <? 0)%Z; [|exact H].
  destruct (st =? CT_WOULD_BLOCK)%Z; [exact H|].
  destruct (st =? CT_INTERNAL_ERROR)%Z; exact H.
Qed.









Lemma SSL_new_fresh (c : Config) (hostname : option string) (s : SSL L) :
  SSL_new L c hostname = Ok s ->
  parent s = c /\ ct_in s = [] /\ ct_out s = [] /\ overflow s = false
  /\ authcert s = match mode c with SERVER => Some (new_AuthCert L) | _ => None end.
Proof.
  unfold SSL_new. intro H.
  destruct (mode c) eqn:Hm;
    repeat match type of H with
           | (if ?b then _ else _) = _ => destruct b; try discriminate
           | match ?x with Some _ => _ | None => _ end = _ =>
               destruct x; try discriminate
           end;
    try discriminate;
    injection H as <-; cbn; auto.
Qed.



(** C1, as amended: the mbed TLS adapter has no key-material exporter.
    [support_key_material_export] is false, and [export_keying_material]
    returns false for every session, label and size, leaving the output
    buffer as it was. *)
Theorem C1_export_keying_material_unavailable :
  support_key_material_export = false
  /\ (forall (s : SSL L) (label : string) (out : bytes) (size : nat),
         export_keying_material L s label out size = (false, out)).
Proof.
  split; reflexivity.
Qed.

Lemma load_serial_number_spec (a : AuthCert) (cert : x509_crt) :
  let a' := load_serial_number_into_authcert a cert in
  cn a' = cn a /\ issuer_fp a' = issuer_fp a /\ defined_ a' = defined_ a
  /\ serial_number a'
     = (if (0 <? List.length (serial cert))
           && (List.length (serial cert) <=? List.length (serial_number a))
        then repeat Byte.x00 (List.length (serial_number a) - List.length (serial cert))
             ++ serial cert
        else serial_number a).
Proof.
  cbv zeta. unfold load_serial_number_into_authcert.
  destruct ((0 <? List.length (serial cert))
            && (List.length (serial cert) <=? List.length (serial_number a)))%bool;
    cbn; auto.
Qed.

Lemma verify_callback_client_authcert (s : SSL L) (cert : x509_crt) (depth vflags : Z) :
  mode (parent s) <> SERVER ->
  authcert (snd (verify_callback L s cert depth vflags)) = authcert s.
Proof.
  intro H. unfold verify_callback.
  destruct (mode (parent s)); [reflexivity | contradiction | reflexivity].
Qed.

Lemma run_callbacks_client_authcert {R : Type} (p : callback_prog R) (s : SSL L) :
  mode (parent s) <> SERVER ->
  authcert (snd (run_callbacks L p s)) = authcert s.
Proof.
  revert s. induction p as [r|len k IH|data k IH|cert depth vflags k IH];
    intros s Hm; cbn; [reflexivity| | |].
  - destruct (ct_read_func_frame s len) as (Hp & _).
    assert (Ha : authcert (snd (ct_read_func L s len)) = authcert s).
    { unfold ct_read_func. destruct (memq_read (ct_in s) len). reflexivity. }
    destruct (ct_read_func L s len) as [r s']. cbn in *.
    rewrite IH; [exact Ha | now rewrite Hp].
  - destruct (ct_write_func_frame s data) as (Hp & _).
    assert (Ha : authcert (snd (ct_write_func L s data)) = authcert s).
    { unfold ct_write_func. destruct (memq_write L (ct_out s) data); reflexivity. }
    destruct (ct_write_func L s data) as [r s']. cbn in *.
    rewrite IH; [exact Ha | now rewrite Hp].
  - destruct (verify_callback_frame s cert depth vflags) as (Hp & _).
    pose proof (verify_callback_client_authcert s cert depth vflags Hm) as Ha.
    destruct (verify_callback L s cert depth vflags) as [r s']. cbn in *.
    rewrite IH; [exact Ha | now rewrite Hp].
Qed.

Lemma step_client_authcert (s : SSL L) (c : ssl_call) :
  mode (parent s) <> SERVER ->
  parent (step L s c) = parent s /\ authcert (step L s c) = authcert s.
Proof.
  intro Hm. destruct c; cbn.
  - split; [apply start_handshake_frame|].
    unfold start_handshake.
    pose proof (run_callbacks_client_authcert (mbedtls_ssl_handshake L (ssl s)) s Hm) as H.
    destruct (run_callbacks L (mbedtls_ssl_handshake L (ssl s)) s) as [[st e] s'].
    exact H.
  - unfold write_ciphertext.
    destruct (memq_size (ct_in s) <? MAX_CIPHERTEXT_IN); cbn; auto.
  - unfold write_ciphertext_unbuffered.
    destruct (memq_size (ct_in s) <? MAX_CIPHERTEXT_IN); cbn; auto.
    destruct (memq_write L (ct_in s) data); cbn; auto.
  - split; [apply read_cleartext_frame|].
    unfold read_cleartext. destruct (overflow s); cbn [negb]; [reflexivity|].
    pose proof (run_callbacks_client_authcert
                  (mbedtls_ssl_read L (ssl s) capacity) s Hm) as H.
    destruct (run_callbacks L (mbedtls_ssl_read L (ssl s) capacity) s)
      as [[[st data] e] s'].
    cbn in H.
    destruct (st <? 0)%Z; [|exact H].
    destruct (st =? CT_WOULD_BLOCK)%Z; [exact H|].
    destruct (st =? MBEDTLS_ERR_SSL_PEER_CLOSE_NOTIFY L)%Z; [exact H|].
    destruct (st =? CT_INTERNAL_ERROR)%Z; exact H.
  - split; [apply write_cleartext_unbuffered_frame|].
    unfold write_cleartext_unbuffered.
    pose proof (run_callbacks_client_authcert
                  (mbedtls_ssl_write L (ssl s) data) s Hm) as H.
    destruct (run_callbacks L (mbedtls_ssl_write L (ssl s) data) s) as [[st e] s'].
    cbn in H.
    destruct (st <? 0)%Z; [|exact H].
    destruct (st =? CT_WOULD_BLOCK)%Z; [exact H|].
    destruct (st =? CT_INTERNAL_ERROR)%Z; exact H.
  - unfold read_ciphertext.
    destruct (memq_read_buf (ct_out s)) as [[b q]|]; cbn; auto.
Qed.

Lemma run_client_authcert (s : SSL L) (calls : list ssl_call) :
  mode (parent s) <> SERVER ->
  authcert (run L s calls) = authcert s.
Proof.
  revert s. induction calls as [|c calls IH]; intros s Hm; [reflexivity|].
  change (run L s (c :: calls)) with (run L (step L s c) calls).
  destruct (step_client_authcert s c Hm) as [Hp Ha].
  rewrite IH; [exact Ha | now rewrite Hp].
Qed.

(** C5, as amended: the adapter keeps an AuthCert in server mode only.  The
    constructor creates one exactly when the mode is server.  In a server
    session the verify callback stores, for the leaf certificate (depth 0),
    the common name and the serial number (left-padded with zero bytes, when
    it is non-empty and fits) and marks the AuthCert defined; for the issuer
    (depth 1) it stores the SHA-1 fingerprint.  In a client session
    [auth_cert] stays null whatever calls are made.  No subject alternative
    name is stored in either mode. *)
Theorem C5_authcert_in_server_mode_only :
  (forall c hostname s,
      SSL_new L c hostname = Ok s ->
      auth_cert s = match mode c with
                    | SERVER => Some (new_AuthCert L)
                    | _ => None
                    end)
  /\ (forall s a cert vflags,
         mode (parent s) = SERVER ->
         auth_cert s = Some a ->
         exists a',
           auth_cert (snd (verify_callback L s cert 0 vflags)) = Some a'
           /\ cn a' = x509_get_common_name cert
           /\ defined_ a' = true
           /\ issuer_fp a' = issuer_fp a
           /\ serial_number a'
              = (if (0 <? List.length (serial cert))
                    && (List.length (serial cert) <=? List.length (serial_number a))
                 then repeat Byte.x00
                        (List.length (serial_number a) - List.length (serial cert))
                      ++ serial cert
                 else serial_number a))
  /\ (forall s a cert vflags,
         mode (parent s) = SERVER ->
         auth_cert s = Some a ->
         exists a',
           auth_cert (snd (verify_callback L s cert 1 vflags)) = Some a'
           /\ issuer_fp a' = snd (mbedtls_sha1 L (raw cert))
           /\ cn a' = cn a
           /\ serial_number a' = serial_number a
           /\ defined_ a' = defined_ a)
  /\ (forall c hostname s calls,
         SSL_new L c hostname = Ok s ->
         mode c = CLIENT ->
         auth_cert (run L s calls) = None).
Proof.
  split; [|split; [|split]].
  - intros c hostname s Hnew. apply SSL_new_fresh in Hnew.
    destruct Hnew as (_ & _ & _ & _ & Ha). exact Ha.
  - intros s a cert vflags Hm Ha. unfold auth_cert in *.
    unfold verify_callback, verify_callback_server. rewrite Hm, Ha. cbn.
    eexists. split; [reflexivity|].
    pose proof (load_serial_number_spec
                  (mk_authcert (x509_get_common_name cert) (serial_number a)
                     (issuer_fp a) (defined_ a)) cert) as H.
    cbv zeta in H. cbn [cn issuer_fp defined_ serial_number] in H |- *.
    destruct H as (H1 & H2 & _ & H4). auto.
  - intros s a cert vflags Hm Ha. unfold auth_cert in *.
    unfold verify_callback, verify_callback_server. rewrite Hm, Ha. cbn.
    unfold load_issuer_fingerprint_into_authcert.
    destruct (mbedtls_sha1 L (raw cert)) as [status digest]. cbn.
    eexists. split; [reflexivity|]. cbn. auto.
  - intros c hostname s calls Hnew Hm. apply SSL_new_fresh in Hnew.
    destruct Hnew as (Hp & _ & _ & _ & Ha). unfold auth_cert.
    rewrite run_client_authcert; [now rewrite Ha, Hm|].
    rewrite Hp, Hm. discriminate.
Qed.

End AdapterFacts.


Example flood_overflows :
  MbedTLS.run example_library example_server_session example_flood
  = example_flooded_session
  /\ MbedTLS.memq_size (MbedTLS.ct_in example_flooded_session) = 64.
Proof. split; vm_compute; reflexivity. Qed.

Lemma C1_counterexample :
  ~ yields_seed
      (MbedTLS.export_keying_material example_library
         (MbedTLS.start_handshake example_library example_client_session)
         "EXPORTER-OpenVPN-datakeys" (repeat Byte.x00 256) 256).
Proof.
  intros [H _]. discriminate H.
Qed.

Lemma C5_counterexample :
  MbedTLS.SSL_new example_library example_client_config None
  = MbedTLS.Ok example_client_session
  /\ ~ exposes_identity
        (MbedTLS.auth_cert
           (MbedTLS.start_handshake example_library example_client_session))
        example_crt.
Proof.
  split; [reflexivity|].
  intros (ac & H & _). discriminate H.
Qed.

Lemma C5_authcert_in_server_mode_only_witness :
  MbedTLS.mode (MbedTLS.parent example_server_session) = MbedTLS.SERVER
  /\ exposes_identity
       (MbedTLS.auth_cert
          (snd (MbedTLS.verify_callback example_library example_server_session
                  example_crt 0 0)))
       example_crt.
Proof.
  split; [reflexivity|].
  destruct (C5_authcert_in_server_mode_only example_library) as (_ & Hleaf & _).
  destruct (Hleaf example_server_session (MbedTLS.new_AuthCert example_library)
              example_crt 0%Z eq_refl eq_refl) as (a' & Ha & Hcn & Hdef & _).
  exists a'. auto.
Defined.

(** ** The client API *)

Section ClientFacts.

Import ClientAPI.
Variable E : Env.

Local Open Scope list_scope.

Lemma with_io_context_same (s : ClientState E) :
  with_io_context E s (io_context_ s) = s.
Proof. destruct s. reflexivity. Qed.

Lemma post_nothing (s : ClientState E) : post E s [] = s.
Proof.
  unfold post. destruct s as [o ev c st se cc p x h g a stp io f]. cbn.
  destruct io; [rewrite app_nil_r|]; reflexivity.
Qed.

Lemma with_async_stop_local_same (s : ClientState E) :
  with_async_stop_local E s (async_stop_local_ s) = s.
Proof. destruct s. reflexivity. Qed.

(** A latched Stop makes [stop()] a no-op. *)
Lemma stop_when_latched (s : ClientState E) :
  stop_called (async_stop_local_ s) = true -> stop E s = s.
Proof.
  intro H. unfold stop, trigger_async_stop_local, Stop_stop.
  destruct (is_foreign_thread_access s); [|reflexivity].
  rewrite H, with_async_stop_local_same. apply post_nothing.
Qed.

Lemma stop_latches (s : ClientState E) :
  is_foreign_thread_access s = true ->
  stop_called (async_stop_local_ (stop E s)) = true.
Proof.
  intro H. unfold stop, trigger_async_stop_local, Stop_stop. rewrite H.
  destruct (stop_called (async_stop_local_ s)) eqn:Hc; cbn; [exact Hc | reflexivity].
Qed.

Lemma stop_twice (s : ClientState E) : stop E (stop E s) = stop E s.
Proof.
  destruct (is_foreign_thread_access s) eqn:H.
  - apply stop_when_latched. now apply stop_latches.
  - unfold stop. now rewrite H, H.
Qed.

(** C4: [stop()] is idempotent: calling it N >= 1 times leaves the client in
    the state a single call leaves it in. *)
Theorem C4_stop_idempotent (n : nat) (s : ClientState E) :
  1 <= n -> Nat.iter n (stop E) s = stop E s.
Proof.
  intro Hn. destruct n as [|n]; [lia|]. clear Hn.
  induction n as [|n IH]; [reflexivity|].
  change (Nat.iter (S (S n)) (stop E) s) with (stop E (Nat.iter (S n) (stop E) s)).
  rewrite IH. apply stop_twice.
Qed.


Lemma map_const_seq (n start : nat) :
  map (fun _ => 0%Z) (seq start n) = repeat 0%Z n.
Proof.
  revert start. induction n as [|n IH]; intro start; cbn; [reflexivity|].
  now rewrite IH.
Qed.

(** *** What the early calls leave alone *)

Lemma keeps_ret {A X : Type} (proj : ClientState E -> X) (a : A) :
  keeps proj (ret E a).
Proof. intro s. reflexivity. Qed.

Lemma keeps_throw {A X : Type} (proj : ClientState E -> X) (e : exception) :
  keeps proj (@throw E A e).
Proof. intro s. reflexivity. Qed.

Lemma keeps_lift_result {A X : Type} (proj : ClientState E -> X) (r : result A) :
  keeps proj (lift_result E r).
Proof. intro s. reflexivity. Qed.

Lemma keeps_bind {A B X : Type} (proj : ClientState E -> X)
      (m : M E A) (k : A -> M E B) :
  keeps proj m -> (forall a, keeps proj (k a)) -> keeps proj (bind E m k).
Proof.
  intros Hm Hk s. unfold bind. specialize (Hm s).
  destruct (m s) as [[a|e] s']; cbn in *; [|exact Hm].
  rewrite Hk. exact Hm.
Qed.

Lemma keeps_catch {A X : Type} (proj : ClientState E -> X)
      (m : M E A) (h : exception -> M E A) :
  keeps proj m -> (forall e, keeps proj (h e)) -> keeps proj (catch E m h).
Proof.
  intros Hm Hh s. unfold catch. specialize (Hm s).
  destruct (m s) as [[a|e] s']; cbn in *; [exact Hm|].
  rewrite Hh. exact Hm.
Qed.

Lemma keeps_modify {X : Type} (proj : ClientState E -> X)
      (f : ClientState E -> ClientState E) :
  (forall s, proj (f s) = proj s) -> keeps proj (modify E f).
Proof. intros Hf s. apply Hf. Qed.

Lemma keeps_when {X : Type} (proj : ClientState E -> X) (b : bool) (m : M E unit) :
  keeps proj m -> keeps proj (when E b m).
Proof. intro Hm. destruct b; [exact Hm | apply keeps_ret]. Qed.

Lemma keeps_update_or_throw {X Y : Type} (proj : ClientState E -> X)
      (get : ClientState E -> Y) (put : ClientState E -> Y -> ClientState E)
      (f : Y -> Y * option exception) :
  (forall s y, proj (put s y) = proj s) ->
  keeps proj (update_or_throw E get put f).
Proof.
  intros Hput s. unfold update_or_throw.
  destruct (f (get s)) as [y [e|]]; cbn; apply Hput.
Qed.

Lemma parse_extras_try_keeps {X : Type} (proj : ClientState E -> X)
      (config : Config) (ev : EvalConfig) :
  (forall s x, proj (with_clientconf E s x) = proj s) ->
  (forall s x, proj (with_proto_context_options E s x) = proj s) ->
  (forall s x, proj (with_gremlin_config E s x) = proj s) ->
  (forall s x, proj (with_extra_peer_info E s x) = proj s) ->
  (forall s x, proj (with_http_proxy_options E s x) = proj s) ->
  keeps proj (parse_extras_try E config ev).
Proof.
  intros H1 H2 H3 H4 H5. unfold parse_extras_try.
  apply keeps_bind;
    [apply keeps_update_or_throw; intros; apply H1 | intros _].
  apply keeps_bind;
    [apply keeps_when, keeps_update_or_throw; intros; apply H2 | intros _].
  apply keeps_bind;
    [apply keeps_when, keeps_modify; intros; apply H1 | intros _].
  apply keeps_bind; [apply keeps_when | intros _].
  { destruct (OPENVPN_GREMLIN E); [|apply keeps_throw].
    apply keeps_bind; [apply keeps_lift_result|].
    intro g. apply keeps_modify. intros; apply H3. }
  apply keeps_bind; [apply keeps_modify; intros; apply H4 | intros _].
  apply keeps_when, keeps_bind; [apply keeps_lift_result|].
  intro srv. apply keeps_modify. intros; apply H5.
Qed.

Lemma parse_config_returns (config : Config) (ev0 : EvalConfig) (opts : OptionList) :
  parse_config E config ev0 opts =
  Ok (match snd (parse_config_try E config ev0 opts) with
      | Ok ev => ev
      | Throw e =>
          set_error ev0 (utf8_printable E ("ERR_PROFILE_GENERIC: " ++ what e) 256)
      end,
      fst (parse_config_try E config ev0 opts)).
Proof.
  unfold parse_config.
  destruct (parse_config_try E config ev0 opts) as [opts' [ev|e]]; reflexivity.
Qed.

(** The helper's [eval_config] returns an EvalConfig as well. *)
Lemma helper_eval_config_returns (config : Config) :
  exists ev, helper_eval_config E config = Ok ev.
Proof.
  unfold helper_eval_config. rewrite parse_config_returns. eexists. reflexivity.
Qed.

Lemma parse_extras_returns (config : Config) (ev : EvalConfig) (s : ClientState E) :
  parse_extras E config ev s =
  (Ok (match fst (parse_extras_try E config ev s) with
       | Ok _ => ev
       | Throw e => set_error ev (utf8_printable E (what e) 256)
       end),
   snd (parse_extras_try E config ev s)).
Proof.
  unfold parse_extras, catch, bind, ret.
  destruct (parse_extras_try E config ev s) as [[u|e] s']; reflexivity.
Qed.

Lemma eval_config_returns (config : Config) (s : ClientState E) :
  let dflt := EvalConfig_default (uninitialized_bool E) in
  let ev0 := match snd (parse_config_try E config dflt (options s)) with
             | Ok ev => ev
             | Throw e =>
                 set_error dflt
                   (utf8_printable E ("ERR_PROFILE_GENERIC: " ++ what e) 256)
             end in
  let s1 := with_options E s (fst (parse_config_try E config dflt (options s))) in
  eval_config E config s =
  if error ev0 then (Ok ev0, s1)
  else
    let ev1 := match fst (parse_extras_try E config ev0 s1) with
               | Ok _ => ev0
               | Throw e => set_error ev0 (utf8_printable E (what e) 256)
               end in
    (Ok ev1, with_eval E (snd (parse_extras_try E config ev0 s1)) ev1).
Proof.
  cbv zeta. unfold eval_config. rewrite parse_config_returns.
  match goal with |- context [if error ?x then _ else _] => destruct (error x) end;
    [reflexivity|].
  unfold bind at 1. rewrite parse_extras_returns. reflexivity.
Qed.

Lemma eval_config_keeps {X : Type} (proj : ClientState E -> X) (config : Config) :
  (forall s x, proj (with_options E s x) = proj s) ->
  (forall s x, proj (with_eval E s x) = proj s) ->
  (forall s x, proj (with_clientconf E s x) = proj s) ->
  (forall s x, proj (with_proto_context_options E s x) = proj s) ->
  (forall s x, proj (with_gremlin_config E s x) = proj s) ->
  (forall s x, proj (with_extra_peer_info E s x) = proj s) ->
  (forall s x, proj (with_http_proxy_options E s x) = proj s) ->
  keeps proj (eval_config E config).
Proof.
  intros Ho Hev H1 H2 H3 H4 H5 s.
  pose proof (eval_config_returns config s) as Hr. cbv zeta in Hr. rewrite Hr.
  match goal with |- context [if ?b then _ else _] => destruct b end; cbn.
  - apply Ho.
  - rewrite Hev. rewrite (parse_extras_try_keeps proj); auto.
Qed.

Lemma early_step_not_ready (s : ClientState E) (c : early_call) :
  foreign_thread_ready (early_step E s c) = foreign_thread_ready s.
Proof.
  destruct c; cbn.
  - apply (eval_config_keeps foreign_thread_ready); reflexivity.
  - unfold provide_creds.
    apply (keeps_catch foreign_thread_ready).
    + apply keeps_bind; [apply keeps_lift_result|].
      intro cc. apply keeps_bind; [|intro; apply keeps_ret].
      apply keeps_modify. reflexivity.
    + intro e. apply keeps_ret.
  - unfold connect_attach, attach. destruct (attach_called s); reflexivity.
  - unfold stop, trigger_async_stop_local.
    destruct (is_foreign_thread_access s); [|reflexivity].
    destruct (Stop_stop (async_stop_local_ s)). reflexivity.
  - unfold pause, to_session.
    destruct (is_foreign_thread_access s); [|reflexivity].
    destruct (session s); reflexivity.
  - unfold resume, to_session.
    destruct (is_foreign_thread_access s); [|reflexivity].
    destruct (session s); reflexivity.
  - unfold reconnect, to_session.
    destruct (is_foreign_thread_access s); [|reflexivity].
    destruct (session s); reflexivity.
  - unfold post_cc_msg, to_session.
    destruct (is_foreign_thread_access s); [|reflexivity].
    destruct (session s); reflexivity.
Qed.

Lemma early_run_not_ready (calls : list early_call) :
  is_foreign_thread_access (early_run E calls) = false.
Proof.
  unfold early_run, is_foreign_thread_access.
  assert (H : forall s, foreign_thread_ready (fold_left (early_step E) calls s)
                        = foreign_thread_ready s).
  { induction calls as [|c calls IH]; intro s; [reflexivity|].
    cbn. rewrite IH. apply early_step_not_ready. }
  rewrite H. reflexivity.
Qed.

(** C9, as amended: before [connect()] has finished its setup the client
    has no foreign-thread access, whatever early calls were made; in that
    window stop, pause, resume and reconnect leave the client state as it is,
    stats_value returns 0, stats_bundle returns zeros only, tun_stats returns
    six zeros, and transport_stats returns four zero counters together with
    lastPacketReceived = -1, the marker for an undefined time. *)
Theorem C9_calls_before_session_start :
  (forall calls, is_foreign_thread_access (early_run E calls) = false)
  /\ (forall s : ClientState E,
         is_foreign_thread_access s = false ->
         stop E s = s
         /\ (forall reason, pause E s reason = s)
         /\ resume E s = s
         /\ (forall seconds, reconnect E s seconds = s)
         /\ (forall index, stats_value E s index = 0%Z)
         /\ stats_bundle E s = repeat 0%Z (combined_n E)
         /\ tun_stats E s = mk_interface_stats 0 0 0 0 0 0
         /\ transport_stats E s = mk_transport_stats 0 0 0 0 (-1)).
Proof.
  split; [exact early_run_not_ready|].
  intros s H.
  unfold stop, pause, resume, reconnect, to_session, stats_value, stats_bundle,
    tun_stats, transport_stats.
  rewrite H. repeat split; try reflexivity.
  apply map_const_seq.
Qed.

Lemma throws_only_ret {A : Type} (P : exception -> Prop) (a : A) :
  throws_only P (ret E a).
Proof. intros s e s' H. discriminate H. Qed.

Lemma throws_only_throw {A : Type} (P : exception -> Prop) (e : exception) :
  P e -> throws_only P (@throw E A e).
Proof. intros He s e' s' [= <- _]. exact He. Qed.

Lemma throws_only_modify (P : exception -> Prop)
      (f : ClientState E -> ClientState E) :
  throws_only P (modify E f).
Proof. intros s e s' H. discriminate H. Qed.

Lemma throws_only_lift_result {A : Type} (P : exception -> Prop) (r : result A) :
  (forall e, r = Throw e -> P e) -> throws_only P (lift_result E r).
Proof. intros Hr s e s' [= -> _]. now apply Hr. Qed.

Lemma throws_only_bind {A B : Type} (P : exception -> Prop)
      (m : M E A) (k : A -> M E B) :
  throws_only P m -> (forall a, throws_only P (k a)) -> throws_only P (bind E m k).
Proof.
  intros Hm Hk s e s'. unfold bind.
  destruct (m s) as [[a|e1] s1] eqn:H1.
  - apply Hk.
  - intros [= <- _]. eapply Hm, H1.
Qed.

Lemma throws_only_when (P : exception -> Prop) (b : bool) (m : M E unit) :
  throws_only P m -> throws_only P (when E b m).
Proof. intro Hm. destruct b; [exact Hm | apply throws_only_ret]. Qed.

Lemma throws_only_update_or_throw {Y : Type} (P : exception -> Prop)
      (get : ClientState E -> Y) (put : ClientState E -> Y -> ClientState E)
      (f : Y -> Y * option exception) :
  (forall y y' e, f y = (y', Some e) -> P e) ->
  throws_only P (update_or_throw E get put f).
Proof.
  intros Hf s e s'. unfold update_or_throw.
  destruct (f (get s)) as [y [e1|]] eqn:H1; [|discriminate].
  intros [= <- _]. eapply Hf, H1.
Qed.

Lemma parse_extras_try_message (config : Config) (ev : EvalConfig) :
  exceptions_carry_message E ->
  throws_only (fun e => what e <> "") (parse_extras_try E config ev).
Proof.
  intros (Himp & Hcomp & Hgrem & Hproxy). unfold parse_extras_try.
  apply throws_only_bind;
    [apply throws_only_update_or_throw; intros y y' e; apply Himp | intros _].
  apply throws_only_bind;
    [apply throws_only_when, throws_only_update_or_throw; intros y y' e; apply Hcomp
    | intros _].
  apply throws_only_bind;
    [apply throws_only_when, throws_only_modify | intros _].
  apply throws_only_bind; [apply throws_only_when | intros _].
  { destruct (OPENVPN_GREMLIN E); [|apply throws_only_throw; discriminate].
    apply throws_only_bind; [apply throws_only_lift_result, Hgrem|].
    intro g. apply throws_only_modify. }
  apply throws_only_bind; [apply throws_only_modify | intros _].
  apply throws_only_when, throws_only_bind;
    [apply throws_only_lift_result, Hproxy|].
  intro srv. apply throws_only_modify.
Qed.

Lemma parse_config_try_error_message (config : Config) (ev0 ev : EvalConfig)
      (opts opts' : OptionList) :
  parser_errors_carry_message E ->
  parse_config_try E config ev0 opts = (opts', Ok ev) ->
  error ev = true -> message ev <> "".
Proof.
  intros Hcc. unfold parse_config_try.
  destruct (if nonempty (protoOverride config) then _ else None); [discriminate|].
  destruct (if nonempty (allowUnusedAddrFamilies config) then _ else None);
    [discriminate|].
  destruct (ParseClientConfig_parse E (content config) _ opts) as [o [cc|e]] eqn:Hp;
    [|discriminate].
  destruct (check_dco_compatibility E config o) as [[dco reason]|e]; [|discriminate].
  intros [= _ <-]. cbn. eapply Hcc, Hp.
Qed.

(** C6: [eval_config] always returns an EvalConfig and never lets an
    exception through; it touches neither the session nor the foreign-thread
    flag; and for every configuration whose parsing or validation fails the
    returned EvalConfig has error = true and a non-empty message.  The
    collaborators are taken to report their failures with a text:
    [utf8_printable] keeps a non-empty text non-empty, and the parser's error
    and the exceptions thrown carry a message. *)
Theorem C6_config_errors_are_returned (config : Config) (s : ClientState E) :
  utf8_printable_keeps_text E ->
  parser_errors_carry_message E ->
  exceptions_carry_message E ->
  exists ev s',
    eval_config E config s = (Ok ev, s')
    /\ session s' = session s
    /\ foreign_thread_ready s' = foreign_thread_ready s
    /\ (config_fails E config s -> error ev = true /\ message ev <> "")
    /\ (error ev = true -> config_fails E config s).
Proof.
  intros Hutf Hcc Hexn.
  pose proof (eval_config_keeps (@session E) config) as Hsess.
  pose proof (eval_config_keeps (@foreign_thread_ready E) config) as Hready.
  specialize (Hsess ltac:(reflexivity) ltac:(reflexivity) ltac:(reflexivity)
                ltac:(reflexivity) ltac:(reflexivity) ltac:(reflexivity)
                ltac:(reflexivity) s).
  specialize (Hready ltac:(reflexivity) ltac:(reflexivity) ltac:(reflexivity)
                ltac:(reflexivity) ltac:(reflexivity) ltac:(reflexivity)
                ltac:(reflexivity) s).
  pose proof (eval_config_returns config s) as Hr. cbv zeta in Hr.
  rewrite Hr in Hsess, Hready. rewrite Hr. clear Hr.
  unfold config_fails.
  destruct (parse_config_try E config (EvalConfig_default (uninitialized_bool E))
              (options s)) as [opts [ev0|e]] eqn:Hp; cbn [fst snd] in *.
  - destruct (error ev0) eqn:Herr.
    + exists ev0. eexists. split; [reflexivity|].
      split; [exact Hsess|]. split; [exact Hready|].
      split; [|auto].
      intros _. split; [exact Herr|].
      eapply parse_config_try_error_message; eauto.
    + destruct (parse_extras_try E config ev0 (with_options E s opts))
        as [[u|e] s2] eqn:Hx; cbn [fst snd] in *.
      * exists ev0. eexists. split; [reflexivity|].
        split; [exact Hsess|]. split; [exact Hready|].
        split.
        -- intros [H|(e & s3 & H)]; [congruence | discriminate H].
        -- congruence.
      * eexists. eexists. split; [reflexivity|].
        split; [exact Hsess|]. split; [exact Hready|].
        split.
        -- intros _. cbn. split; [reflexivity|].
           apply Hutf. eapply (parse_extras_try_message config ev0 Hexn), Hx.
        -- intros _. right. eauto.
  - cbn. eexists. eexists. split; [reflexivity|].
    split; [exact Hsess|]. split; [exact Hready|].
    split; [|auto].
    intros _. split; [reflexivity|].
    apply Hutf. discriminate.
Qed.

End ClientFacts.

Example stop_posts_one_terminal_handler :
  ClientAPI.io_context_
    (Nat.iter 3 (ClientAPI.stop example_env) example_running_client)
  = Some [ClientAPI.h_graceful_stop].
Proof. reflexivity. Qed.

Lemma C4_stop_idempotent_witness :
  1 <= 3
  /\ Nat.iter 3 (ClientAPI.stop example_env) example_running_client
     = ClientAPI.stop example_env example_running_client.
Proof.
  split; [lia|].
  apply (C4_stop_idempotent example_env 3 example_running_client). lia.
Defined.



Lemma C9_counterexample :
  ClientAPI.is_foreign_thread_access (ClientAPI.OpenVPNClient_new example_env) = false
  /\ ~ transport_all_zero
        (ClientAPI.transport_stats example_env (ClientAPI.OpenVPNClient_new example_env)).
Proof.
  split; [reflexivity|].
  intros (_ & _ & _ & _ & H). discriminate H.
Qed.

Lemma C9_calls_before_session_start_witness :
  ClientAPI.is_foreign_thread_access (ClientAPI.OpenVPNClient_new example_env) = false
  /\ ClientAPI.pause example_env (ClientAPI.OpenVPNClient_new example_env) "network down"
     = ClientAPI.OpenVPNClient_new example_env
  /\ ClientAPI.transport_stats example_env (ClientAPI.OpenVPNClient_new example_env)
     = ClientAPI.mk_transport_stats 0 0 0 0 (-1).
Proof.
  split; [reflexivity|].
  destruct (C9_calls_before_session_start example_env) as [_ H].
  destruct (H (ClientAPI.OpenVPNClient_new example_env) eq_refl)
    as (_ & Hpause & _ & _ & _ & _ & _ & Htr).
  split; [apply Hpause | exact Htr].
Defined.

Lemma example_env_reports_failures :
  utf8_printable_keeps_text example_env
  /\ parser_errors_carry_message example_env
  /\ exceptions_carry_message example_env.
Proof.
  split; [|split].
  - intros str max_len H. exact H.
  - intros content kvl opts opts' cc [= _ <-]. unfold example_pcc.
    destruct (String.eqb content ""); cbn; [intros _ | ]; discriminate.
  - repeat split.
    + intros x config x' e H. discriminate H.
    + intros x m x' e. cbn. destruct (String.eqb m "asym"); [discriminate|].
      intros [= _ <-]. discriminate.
    + intros str e H. discriminate H.
    + intros h p e H. discriminate H.
Defined.

Lemma C6_config_errors_are_returned_witness :
  config_fails example_env (example_config "")
    (ClientAPI.OpenVPNClient_new example_env)
  /\ exists ev s',
      ClientAPI.eval_config example_env (example_config "")
        (ClientAPI.OpenVPNClient_new example_env) = (ClientAPI.Ok ev, s')
      /\ ClientAPI.error ev = true
      /\ ClientAPI.message ev <> "".
Proof.
  assert (Hfails : config_fails example_env (example_config "")
                     (ClientAPI.OpenVPNClient_new example_env)).
  { left. reflexivity. }
  split; [exact Hfails|].
  destruct example_env_reports_failures as (H1 & H2 & H3).
  destruct (C6_config_errors_are_returned example_env (example_config "")
              (ClientAPI.OpenVPNClient_new example_env) H1 H2 H3)
    as (ev & s' & Heval & _ & _ & Hsurf & _).
  exists ev, s'. split; [exact Heval|]. apply Hsurf. exact Hfails.
Defined.

Example eval_config_bad_proto :
  fst (ClientAPI.eval_config example_env
         (ClientAPI.mk_config "remote vpn.example.com" [] "sctp" "" "" "" "" "" []
            "" "" "" "" false)
         (ClientAPI.OpenVPNClient_new example_env))
  = ClientAPI.Ok
      (ClientAPI.set_error (ClientAPI.EvalConfig_default false)
         "ERR_PROFILE_GENERIC: error parsing protocol").
Proof. reflexivity. Qed.

(** * Properties of the further components *)

(** ** TCP header helpers *)

Section TCPFacts.

Local Open Scope Z_scope.

Lemma fold16_cases (a : Z) :
  0 <= a < 2 ^ 31 ->
  let a1 := a / 65536 + a mod 65536 in
  (a1 < 65536 /\ TCP.fold16 a = a1)
  \/ (65536 <= a1 < 98304 /\ TCP.fold16 a = a1 + 1).
Proof.
  intro Ha. unfold TCP.fold16. cbv zeta.
  rewrite !Z.shiftr_div_pow2 by lia.
  change 0xffff with (Z.ones 16). rewrite Z.land_ones by lia.
  change (2 ^ 16) with 65536 in *. change (2 ^ 31) with 2147483648 in *.
  set (a1 := a / 65536 + a mod 65536).
  assert (H1 : 0 <= a1 < 98304).
  { subst a1. Z.div_mod_to_equations. lia. }
  destruct (Z.lt_ge_cases a1 65536) as [Hlo|Hhi].
  - left. split; [exact Hlo|]. rewrite (Z.div_small a1) by lia. lia.
  - right. split; [lia|].
    replace (a1 / 65536) with 1; [reflexivity|].
    Z.div_mod_to_equations. lia.
Qed.

Lemma fold16_spec (a : Z) :
  0 <= a < 2 ^ 31 ->
  (TCP.fold16 a mod 2 ^ 16 - a) mod 65535 = 0.
Proof.
  intro Ha. pose proof (fold16_cases a Ha) as H. cbv zeta in H.
  change (2 ^ 16) with 65536.
  assert (Hsplit : a = 65535 * (a / 65536) + (a / 65536 + a mod 65536)).
  { pose proof (Z.div_mod a 65536 ltac:(lia)). lia. }
  assert (Hnn : 0 <= a / 65536 + a mod 65536).
  { change (2 ^ 31) with 2147483648 in Ha. Z.div_mod_to_equations. lia. }
  destruct H as [[Hlo ->]|[Hhi ->]].
  - rewrite (Z.mod_small (a / 65536 + a mod 65536)) by lia.
    replace (a / 65536 + a mod 65536 - a) with (- (a / 65536) * 65535) by lia.
    apply Z.mod_mul. lia.
  - replace ((a / 65536 + a mod 65536 + 1) mod 65536)
      with (a / 65536 + a mod 65536 - 65535).
    + replace (a / 65536 + a mod 65536 - 65535 - a)
        with ((- (a / 65536) - 1) * 65535) by lia.
      apply Z.mod_mul. lia.
    + apply Z.mod_unique with 1; lia.
Qed.

Lemma fold16_range (a : Z) :
  0 <= a < 2 ^ 31 -> 0 <= TCP.fold16 a <= 0x18000.
Proof.
  intro Ha. pose proof (fold16_cases a Ha) as H. cbv zeta in H.
  assert (Hnn : 0 <= a / 65536 + a mod 65536).
  { change (2 ^ 31) with 2147483648 in Ha. Z.div_mod_to_equations. lia. }
  change 0x18000 with 98304.
  destruct H as [[Hlo ->]|[Hhi ->]]; lia.
Qed.

(** X1: The adjusted checksum is a 16-bit value congruent, modulo 65535, to the
    old checksum plus the accumulated change: the update is the one's
    complement sum, also when the sum is negative. *)
Theorem tcp_adjust_checksum_ones_complement (acc cksum : Z) :
  0 <= cksum < 2 ^ 16 ->
  - 2 ^ 31 < acc + cksum < 2 ^ 31 ->
  0 <= TCP.tcp_adjust_checksum acc cksum < 2 ^ 16
  /\ (TCP.tcp_adjust_checksum acc cksum - (acc + cksum)) mod 65535 = 0.
Proof.
  intros Hc Hs. unfold TCP.tcp_adjust_checksum, TCP.to_uint16. cbv zeta.
  destruct (Z.ltb_spec (acc + cksum) 0) as [Hneg|Hpos].
  - split; [apply Z.mod_pos_bound; lia|].
    pose proof (fold16_spec (- (acc + cksum))) as Hf.
    pose proof (fold16_range (- (acc + cksum))) as Hr.
    specialize (Hf ltac:(lia)). specialize (Hr ltac:(lia)).
    set (f := TCP.fold16 (- (acc + cksum))) in *.
    replace (Z.lnot f) with (- f - 1) by (unfold Z.lnot; lia).
    change (2 ^ 16) with 65536 in *. change 0x18000 with 98304 in *.
    assert (Hm : (- f - 1) mod 65536 = 65535 - f mod 65536).
    { symmetry. apply Z.mod_unique with (- (f / 65536) - 1).
      - left. pose proof (Z.mod_pos_bound f 65536 ltac:(lia)). lia.
      - pose proof (Z.div_mod f 65536 ltac:(lia)). lia. }
    rewrite Hm.
    replace (65535 - f mod 65536 - (acc + cksum))
      with (1 * 65535 + - (f mod 65536 - - (acc + cksum))) by lia.
    rewrite Z.add_comm, Z.mod_add by lia.
    apply Z.mod_opp_l_z; [lia | exact Hf].
  - split; [apply Z.mod_pos_bound; lia|].
    apply fold16_spec. lia.
Qed.

Lemma byte_cases (p : Z -> bool) :
  forallb (fun n => p (Z.of_nat n)) (seq 0 256) = true ->
  forall x, 0 <= x < 256 -> p x = true.
Proof.
  intros Hall x Hx. rewrite forallb_forall in Hall.
  rewrite <- (Z2Nat.id x) by lia. apply Hall, in_seq. lia.
Qed.

(** The header length is four times the data-offset nibble: a multiple of 4
    between 0 and 60, whatever the reserved low bits hold. *)
Theorem tcp_header_length_nibble (doff_res : Z) :
  0 <= doff_res < 256 ->
  TCP.length doff_res = 4 * (doff_res / 16)
  /\ 0 <= TCP.length doff_res <= 60.
Proof.
  intro H.
  assert (Heq : TCP.length doff_res = 4 * (doff_res / 16)).
  { apply Z.eqb_eq.
    apply (byte_cases (fun x => TCP.length x =? 4 * (x / 16))); [|exact H].
    vm_compute. reflexivity. }
  split; [exact Heq|]. rewrite Heq. Z.div_mod_to_equations. lia.
Qed.

End TCPFacts.

Lemma tcp_adjust_checksum_ones_complement_witness :
  (0 <= 0x1c46 < 2 ^ 16)%Z
  /\ (0 <= TCP.tcp_adjust_checksum (- 0x2000) 0x1c46 < 2 ^ 16)%Z
  /\ ((TCP.tcp_adjust_checksum (- 0x2000) 0x1c46 - (- 0x2000 + 0x1c46)) mod 65535 = 0)%Z.
Proof.
  split; [split; [discriminate | reflexivity]|].
  apply (tcp_adjust_checksum_ones_complement (- 0x2000) 0x1c46).
  - split; [discriminate | reflexivity].
  - split; reflexivity.
Defined.

Lemma tcp_header_length_nibble_witness :
  (0 <= 0x5f < 256)%Z /\ TCP.length 0x5f = 20%Z.
Proof.
  split; [split; [discriminate | reflexivity]|].
  destruct (tcp_header_length_nibble 0x5f) as [H _].
  - split; [discriminate | reflexivity].
  - exact H.
Defined.

(** ** Static keys *)

Section StaticKeyFacts.

Import StaticKeys.
Local Open Scope list_scope.
Local Open Scope nat_scope.

Lemma key_table_index (key_specifier : N) :
  exists i, i < 8 /\ N.to_nat (N.land key_specifier 7) = i.
Proof.
  exists (N.to_nat (N.land key_specifier 7)). split; [|reflexivity].
  change 7%N with (N.ones 3). rewrite N.land_ones.
  pose proof (N.mod_upper_bound key_specifier (2 ^ 3) ltac:(discriminate)) as H.
  change (2 ^ 3)%N with 8%N in *. lia.
Qed.

Lemma key_table_bound (key_specifier : N) :
  nth (N.to_nat (N.land key_specifier 7)) key_table 0 < 4.
Proof.
  destruct (key_table_index key_specifier) as (i & Hi & ->).
  do 8 (destruct i as [|i]; [cbn; lia|]). lia.
Qed.

(** X2: [slice] fails exactly on a key that is not 256 bytes long, and with
    static_key_bad_size; on a 256-byte key it hands back 64 bytes, whatever
    the specifier. *)
Theorem slice_size (key_data_ : bytes) (key_specifier : N) :
  (slice key_data_ key_specifier = Throw static_key_bad_size
   <-> List.length key_data_ <> KEY_SIZE)
  /\ (forall s, slice key_data_ key_specifier = Ok s -> List.length s = 64)
  /\ (List.length key_data_ = KEY_SIZE ->
      exists s, slice key_data_ key_specifier = Ok s).
Proof.
  unfold slice.
  destruct (Nat.eqb_spec (List.length key_data_) KEY_SIZE) as [Heq|Hne]; cbn [negb].
  - split; [split; [discriminate | contradiction]|].
    split; [|intros _; eexists; reflexivity].
    intros s H.
    match type of H with Ok ?t = _ => replace s with t by congruence end.
    rewrite length_firstn, length_skipn, Heq.
    pose proof (key_table_bound key_specifier). unfold KEY_SIZE.
    change (256 / 4) with 64. lia.
  - split; [split; [intros _; exact Hne | reflexivity]|].
    split; [discriminate | contradiction].
Qed.

(** X3: Both ends of a connection cut the same bytes: the slice for a specifier
    equals the slice for the specifier with DECRYPT and INVERSE both flipped,
    so what one peer encrypts with in the normal direction the other decrypts
    with in the inverse direction; and only the low three bits of the
    specifier matter. *)
Theorem slice_peer_symmetry (key_data_ : bytes) (key_specifier : N) :
  slice key_data_ (N.lxor key_specifier (N.lor DECRYPT INVERSE))
  = slice key_data_ key_specifier
  /\ slice key_data_ (N.land key_specifier 7) = slice key_data_ key_specifier.
Proof.
  unfold slice. split.
  - destruct (negb (List.length key_data_ =? KEY_SIZE)); [reflexivity|].
    do 2 f_equal. f_equal.
    assert (Hd : N.land (N.lxor key_specifier (N.lor DECRYPT INVERSE)) 7
                 = N.lxor (N.land key_specifier 7) 6).
    { apply N.bits_inj. intro n.
      rewrite N.land_spec, !N.lxor_spec, N.land_spec.
      change (N.lor DECRYPT INVERSE) with 6%N.
      destruct (N.testbit key_specifier n), (N.testbit 6 n) eqn:H6,
        (N.testbit 7 n) eqn:H7; try reflexivity.
      - exfalso. destruct n as [|[[p|p|]|[p|p|]|]]; cbn in H6, H7; congruence.
      - exfalso. destruct n as [|[[p|p|]|[p|p|]|]]; cbn in H6, H7; congruence. }
    rewrite Hd.
    assert (H : (N.land key_specifier 7 < 8)%N).
    { change 7%N with (N.ones 3). rewrite N.land_ones.
      apply N.mod_upper_bound. discriminate. }
    destruct (N.land key_specifier 7) as [|p]; [reflexivity|].
    destruct p as [[[p|p|]|[p|p|]|]|[[p|p|]|[p|p|]|]|]; try reflexivity; lia.
  - rewrite <- N.land_assoc. reflexivity.
Qed.

(** X4: The four quadrants tile the key: the slices for specifiers 0, 1, 2 and 3
    put side by side give back the 256 bytes. *)
Theorem slice_quadrants (key_data_ : bytes) :
  List.length key_data_ = KEY_SIZE ->
  exists q0 q1 q2 q3,
    slice key_data_ 0 = Ok q0
    /\ slice key_data_ 1 = Ok q1
    /\ slice key_data_ 2 = Ok q2
    /\ slice key_data_ 3 = Ok q3
    /\ q0 ++ q1 ++ q2 ++ q3 = key_data_.
Proof.
  intro Hlen. unfold slice. rewrite Hlen. cbn [Nat.eqb negb KEY_SIZE].
  change (negb (256 =? 256)) with false. cbv iota.
  do 4 eexists. repeat (split; [reflexivity|]).
  cbn [N.land N.to_nat nth key_table Nat.mul Nat.add].
  change (256 / 4) with 64. change (N.to_nat 0) with 0.
  change (N.to_nat (N.land 1 7)) with 1. change (N.to_nat (N.land 2 7)) with 2.
  change (N.to_nat (N.land 3 7)) with 3.
  cbn [nth key_table]. change (0 * 64) with 0. change (1 * 64) with 64.
  change (2 * 64) with 128. change (3 * 64) with 192.
  change (skipn 0 key_data_) with key_data_.
  transitivity (firstn 64 key_data_ ++ skipn 64 key_data_);
    [|apply firstn_skipn].
  f_equal.
  transitivity (firstn 64 (skipn 64 key_data_) ++ skipn 64 (skipn 64 key_data_));
    [|apply firstn_skipn].
  f_equal. rewrite skipn_skipn. change (64 + 64) with 128.
  transitivity (firstn 64 (skipn 128 key_data_) ++ skipn 64 (skipn 128 key_data_));
    [|apply firstn_skipn].
  f_equal. rewrite skipn_skipn. change (64 + 128) with 192.
  apply firstn_all2. rewrite length_skipn, Hlen. apply Nat.leb_le. vm_compute. reflexivity.
Qed.

Lemma byte_xor_involutive (a b : Byte.byte) : byte_xor (byte_xor a b) b = a.
Proof.
  unfold byte_xor.
  destruct (Byte.to_bits a) as (a0 & a1 & a2 & a3 & a4 & a5 & a6 & a7) eqn:Ha.
  destruct (Byte.to_bits b) as (b0 & b1 & b2 & b3 & b4 & b5 & b6 & b7) eqn:Hb.
  rewrite Byte.to_bits_of_bits.
  rewrite !xorb_assoc, !xorb_nilpotent, !xorb_false_r.
  rewrite <- Ha. apply Byte.of_bits_to_bits.
Qed.

Lemma xor_loop_involutive (key other : bytes) :
  List.length key = List.length other ->
  exists r, xor_loop key other = Some r
            /\ List.length r = List.length key
            /\ xor_loop r other = Some key.
Proof.
  revert other. induction key as [|k key IH]; intros [|o other] Hlen;
    try discriminate.
  - exists []. auto.
  - injection Hlen as Hlen. destruct (IH other Hlen) as (r & Hr & Hl & Hback).
    exists (byte_xor k o :: r). cbn. rewrite Hr, Hback, Hl, byte_xor_involutive.
    auto.
Qed.

(** X5: XOR with a key of the same size is undone by a second XOR with that key:
    it succeeds, keeps the size, and applying it again restores the
    original. *)
Theorem XOR_involutive (key_data_ other : bytes) :
  key_data_ <> [] ->
  List.length key_data_ = List.length other ->
  exists r, XOR key_data_ other = Some r
            /\ List.length r = List.length key_data_
            /\ XOR r other = Some key_data_.
Proof.
  intros Hne Hlen.
  destruct (xor_loop_involutive key_data_ other Hlen) as (r & Hr & Hl & Hback).
  exists r. unfold XOR.
  destruct key_data_ as [|k key]; [contradiction|].
  destruct other as [|o other]; [discriminate|].
  destruct r as [|x r]; [discriminate|].
  cbn [defined andb]. auto.
Qed.

End StaticKeyFacts.

Lemma slice_size_witness :
  List.length example_static_key = StaticKeys.KEY_SIZE
  /\ StaticKeys.slice example_static_key
       (N.lor StaticKeys.HMAC StaticKeys.DECRYPT)
     = StaticKeys.Ok (repeat Byte.x44 64)
  /\ List.length (repeat Byte.x44 64) = 64.
Proof.
  split; [reflexivity|].
  destruct (slice_size example_static_key (N.lor StaticKeys.HMAC StaticKeys.DECRYPT))
    as (_ & Hlen & Hex).
  destruct (Hex eq_refl) as (s & Hs).
  assert (Hv : StaticKeys.slice example_static_key
                 (N.lor StaticKeys.HMAC StaticKeys.DECRYPT)
               = StaticKeys.Ok (repeat Byte.x44 64)) by reflexivity.
  split; [exact Hv|]. exact (Hlen _ Hv).
Defined.

Lemma slice_quadrants_witness :
  List.length example_static_key = StaticKeys.KEY_SIZE
  /\ exists q0 q1 q2 q3,
      StaticKeys.slice example_static_key 0 = StaticKeys.Ok q0
      /\ StaticKeys.slice example_static_key 1 = StaticKeys.Ok q1
      /\ StaticKeys.slice example_static_key 2 = StaticKeys.Ok q2
      /\ StaticKeys.slice example_static_key 3 = StaticKeys.Ok q3
      /\ (q0 ++ q1 ++ q2 ++ q3)%list = example_static_key.
Proof.
  split; [reflexivity|].
  exact (slice_quadrants example_static_key eq_refl).
Defined.

Lemma XOR_involutive_witness :
  [Byte.x0f; Byte.xf0] <> []
  /\ exists r, StaticKeys.XOR [Byte.x0f; Byte.xf0] [Byte.xff; Byte.xff] = Some r
               /\ List.length r = 2
               /\ StaticKeys.XOR r [Byte.xff; Byte.xff] = Some [Byte.x0f; Byte.xf0].
Proof.
  split; [discriminate|].
  apply (XOR_involutive [Byte.x0f; Byte.xf0] [Byte.xff; Byte.xff]);
    [discriminate | reflexivity].
Defined.

(** ** Splitting host and port *)

Section HostPortFacts.

Import HostPort.
Local Open Scope string_scope.

Lemma find_last_of_none (c : ascii) (s : string) :
  find_last_of c s = None <-> find_first_of c s = None.
Proof.
  induction s as [|a s IH]; cbn; [tauto|].
  destruct (find_last_of c s), (find_first_of c s), (char_eqb a c);
    try tauto; try (split; discriminate);
    destruct IH as [H1 H2]; try (specialize (H1 eq_refl); discriminate);
    try (specialize (H2 eq_refl); discriminate).
Qed.

Lemma find_first_of_app (c : ascii) (a b : string) :
  find_first_of c a = None ->
  find_first_of c (a ++ String c b) = Some (String.length a).
Proof.
  induction a as [|x a IH]; cbn.
  - intros _. unfold char_eqb. rewrite Ascii.eqb_refl. reflexivity.
  - destruct (char_eqb x c); [discriminate|].
    destruct (find_first_of c a); [discriminate|].
    intros _. rewrite IH; reflexivity.
Qed.

Lemma find_last_of_app (c : ascii) (a b : string) :
  find_last_of c b = None ->
  find_last_of c (a ++ String c b) = Some (String.length a).
Proof.
  intro Hb. induction a as [|x a IH]; cbn.
  - rewrite Hb. unfold char_eqb. rewrite Ascii.eqb_refl. reflexivity.
  - rewrite IH. reflexivity.
Qed.

Lemma find_last_of_app_none (c : ascii) (a b : string) :
  find_last_of c a = None -> find_last_of c b = None ->
  find_last_of c (a ++ b) = None.
Proof.
  intros Ha Hb. induction a as [|x a IH]; cbn in *; [exact Hb|].
  destruct (find_last_of c a); [discriminate|].
  rewrite IH by reflexivity. exact Ha.
Qed.

Lemma find_last_of_skip (c d : ascii) (a b : string) :
  char_eqb d c = false -> find_last_of c b = None ->
  find_last_of c (a ++ String d b) = find_last_of c a.
Proof.
  intros Hd Hb. induction a as [|x a IH]; cbn.
  - rewrite Hb, Hd. reflexivity.
  - rewrite IH. reflexivity.
Qed.

Lemma substr_prefix (a b : string) :
  substr 0 (String.length a) (a ++ b) = a.
Proof.
  unfold substr. induction a as [|x a IH]; cbn.
  - destruct b; reflexivity.
  - rewrite IH. reflexivity.
Qed.

Lemma substr_from_suffix (a b : string) (c : ascii) :
  substr_from (String.length a + 1) (a ++ String c b) = b.
Proof.
  induction a as [|x a IH]; cbn; [destruct b; reflexivity | exact IH].
Qed.

Lemma substr_split (l : nat) (s : string) (c : ascii) :
  char_at s l = Some c ->
  substr 0 l s ++ String c (substr_from (l + 1) s) = s.
Proof.
  unfold substr, char_at. revert l.
  induction s as [|x s IH]; intros [|l]; cbn; try discriminate.
  - intros [= ->]. destruct s; reflexivity.
  - intro H. rewrite (IH l H). reflexivity.
Qed.

Lemma find_last_of_char (c : ascii) (s : string) (l : nat) :
  find_last_of c s = Some l ->
  char_at s l = Some c /\ find_last_of c (substr_from (l + 1) s) = None.
Proof.
  unfold char_at. revert l. induction s as [|x s IH]; intro l; cbn; [discriminate|].
  destruct (find_last_of c s) as [i|] eqn:Hs.
  - intros [= <-]. cbn. exact (IH i eq_refl).
  - destruct (char_eqb x c) eqn:Hx; [|discriminate].
    intros [= <-]. cbn. apply Ascii.eqb_eq in Hx. subst x.
    split; [reflexivity|]. destruct s; [reflexivity | exact Hs].
Qed.

Lemma get_last_app (a : string) (c : ascii) :
  String.get (String.length a) (a ++ String c "") = Some c.
Proof. induction a as [|x a IH]; cbn; [reflexivity | exact IH]. Qed.

Lemma get_last_no (c : ascii) (s : string) :
  find_last_of c s = None ->
  match String.get (String.length s - 1) s with
  | Some x => char_eqb x c
  | None => false
  end = false.
Proof.
  induction s as [|x s IH]; cbn; [reflexivity|].
  destruct (find_last_of c s) eqn:Hs; [discriminate|].
  destruct (char_eqb x c) eqn:Hx; [discriminate|]. intros _.
  destruct s as [|y s]; cbn; [exact Hx|].
  specialize (IH eq_refl). cbn in IH. rewrite Nat.sub_0_r in *. exact IH.
Qed.

Lemma unbracket_no_close (host : string) :
  find_last_of "]" host = None -> unbracket host = host.
Proof.
  intro H. unfold unbracket, char_at. rewrite (get_last_no _ _ H).
  rewrite andb_false_r. reflexivity.
Qed.

Lemma append_assoc (a b c : string) : (a ++ b) ++ c = a ++ b ++ c.
Proof. induction a as [|x a IH]; cbn; [reflexivity | now rewrite IH]. Qed.

Lemma length_append (a b : string) :
  String.length (a ++ b) = String.length a + String.length b.
Proof. induction a as [|x a IH]; cbn; [reflexivity | now rewrite IH]. Qed.

Lemma unbracket_bracketed (host : string) :
  unbracket ("[" ++ host ++ "]") = host.
Proof.
  unfold unbracket, char_at.
  change ("[" ++ host ++ "]") with (String "[" (host ++ "]")).
  cbn [String.length String.get]. rewrite length_append. cbn [String.length].
  replace (S (String.length host + 1) - 1) with (S (String.length host)) by lia.
  cbn [String.get]. rewrite get_last_app.
  replace (2 <=? S (String.length host + 1))%nat with true
    by (symmetry; apply Nat.leb_le; lia).
  cbn [andb char_eqb]. rewrite !Ascii.eqb_refl. cbn [andb].
  unfold substr. cbn [substring].
  replace (S (String.length host + 1) - 2) with (String.length host) by lia.
  apply (substr_prefix host "]").
Qed.

(** X6: [host:port] is taken apart at its colon: when neither part holds a colon
    or a closing bracket, the host and the port handed back are the two
    parts, whatever the caller's strings held and whatever the default
    port. *)
Theorem split_host_port_plain
        (host port host0 port0 default_port : string) (allow_unix : bool) :
  find_first_of ":" host = None -> find_first_of "]" host = None ->
  find_first_of ":" port = None -> find_first_of "]" port = None ->
  let r := split_host_port (host ++ ":" ++ port) host0 port0 default_port allow_unix in
  split_host r = host /\ split_port r = port
  /\ split_ok r =
     if allow_unix && String.eqb port "unix" then is_valid_unix_sock host
     else is_valid_host host && is_valid_port_str port.
Proof.
  intros Hh Hhb Hp Hpb r. subst r.
  apply find_last_of_none in Hp, Hpb. pose proof Hhb as Hhb'.
  apply find_last_of_none in Hhb'.
  unfold split_host_port, has_explicit_port.
  change (host ++ ":" ++ port) with (host ++ String ":" port).
  rewrite (find_first_of_app _ _ _ Hh), (find_last_of_app _ _ _ Hp).
  rewrite (find_last_of_skip "]" ":" host port eq_refl Hpb), Hhb'.
  rewrite Nat.eqb_refl. cbn [andb].
  rewrite substr_prefix, substr_from_suffix, (unbracket_no_close _ Hhb').
  unfold is_valid_port_str.
  destruct (allow_unix && String.eqb port "unix"); [auto|].
  destruct (is_valid_host host); [|auto].
  destruct (is_valid_port_value port); auto.
Qed.

(** X7: [[host]:port]: the brackets let the host hold colons; they are taken
    off, and the port is what follows the colon after the closing
    bracket. *)
Theorem split_host_port_bracketed
        (host port host0 port0 default_port : string) (allow_unix : bool) :
  find_first_of "]" host = None ->
  find_first_of ":" port = None -> find_first_of "]" port = None ->
  let r := split_host_port ("[" ++ host ++ "]:" ++ port)
                           host0 port0 default_port allow_unix in
  split_host r = host /\ split_port r = port
  /\ split_ok r =
     if allow_unix && String.eqb port "unix" then is_valid_unix_sock host
     else is_valid_host host && is_valid_port_str port.
Proof.
  intros Hhb Hp Hpb r. subst r.
  apply find_last_of_none in Hp, Hpb, Hhb.
  unfold split_host_port, has_explicit_port.
  replace ("[" ++ host ++ "]:" ++ port)
    with (("[" ++ host ++ "]") ++ String ":" port)
    by (cbn; f_equal; rewrite append_assoc; reflexivity).
  rewrite (find_last_of_app _ _ _ Hp).
  rewrite (find_last_of_skip "]" ":" _ port eq_refl Hpb).
  change ("[" ++ host ++ "]") with (String "[" (host ++ String "]" "")).
  cbn [find_last_of]. rewrite (find_last_of_app "]" host "" eq_refl).
  cbn [String.length]. rewrite length_append. cbn [String.length].
  replace (S (String.length host) + 1 =? S (String.length host + 1))%nat
    with true by (symmetry; apply Nat.eqb_eq; lia).
  cbn [andb].
  change (String "[" (host ++ String "]" "")) with ("[" ++ host ++ "]").
  replace (S (String.length host + 1)) with (String.length ("[" ++ host ++ "]"))
    by (cbn; rewrite length_append; reflexivity).
  rewrite substr_prefix, substr_from_suffix, unbracket_bracketed.
  unfold is_valid_port_str.
  destruct (allow_unix && String.eqb port "unix"); [auto|].
  destruct (is_valid_host host); [|auto].
  destruct (is_valid_port_value port); auto.
Qed.

Lemma has_explicit_port_unbracketed (str : string) (f l : nat) :
  find_last_of "]" str = None ->
  find_first_of ":" str = Some f -> find_last_of ":" str = Some l -> f <> l ->
  has_explicit_port str = None.
Proof.
  intros Hb Hf Hl Hne. unfold has_explicit_port. rewrite Hb, Hf, Hl.
  apply Nat.eqb_neq in Hne. rewrite Hne. reflexivity.
Qed.

(** X8: An IPv6 address written without brackets is not mistaken for host and
    port: a string with two or more colons and no closing bracket is the
    host as a whole, the port is the default port; without a default port
    the call fails and leaves the caller's strings alone. *)
Theorem split_host_port_bare_ipv6
        (str host0 port0 default_port : string) (allow_unix : bool) (f l : nat) :
  find_first_of "]" str = None ->
  find_first_of ":" str = Some f -> find_last_of ":" str = Some l -> f <> l ->
  let r := split_host_port str host0 port0 default_port allow_unix in
  if String.eqb default_port ""
  then r = mk_split_result false host0 port0 0%N
  else split_host r = str /\ split_port r = default_port.
Proof.
  intros Hb Hf Hl Hne r. subst r. apply find_last_of_none in Hb.
  unfold split_host_port.
  rewrite (has_explicit_port_unbracketed str f l Hb Hf Hl Hne).
  destruct (String.eqb default_port ""); cbn [negb]; [reflexivity|].
  rewrite (unbracket_no_close _ Hb).
  destruct (allow_unix && String.eqb default_port "unix"); [auto|].
  destruct (is_valid_host str); [|auto].
  destruct (is_valid_port_value default_port); auto.
Qed.

(** X9: Where the function finds an explicit port it cuts the string at its
    last colon and loses nothing: the part before, the colon and the port
    make up the string again, and the port holds no colon. *)
Theorem has_explicit_port_cut (str : string) (lpos : nat) :
  has_explicit_port str = Some lpos ->
  substr 0 lpos str ++ ":" ++ substr_from (lpos + 1) str = str
  /\ find_first_of ":" (substr_from (lpos + 1) str) = None.
Proof.
  unfold has_explicit_port.
  destruct (find_last_of ":" str) as [l|] eqn:Hl; [|discriminate].
  destruct (_ && _); [|discriminate]. intros [= <-].
  destruct (find_last_of_char _ _ _ Hl) as [Hc Hn].
  split; [exact (substr_split l str ":" Hc) | apply find_last_of_none, Hn].
Qed.

Lemma host_char_is_unix_sock_char (c : ascii) :
  is_valid_host_char c = true -> is_valid_unix_sock_char c = true.
Proof.
  destruct c as [[] [] [] [] [] [] [] []]; vm_compute; congruence.
Qed.

(** Every valid host name is a valid unix socket name: allowing unix
    sockets never turns down a host the plain check lets through. *)
Theorem valid_host_is_valid_unix_sock (host : string) :
  is_valid_host host = true -> is_valid_unix_sock host = true.
Proof.
  unfold is_valid_host, is_valid_unix_sock.
  destruct (_ || _); [discriminate|].
  induction host as [|c host IH]; cbn; [reflexivity|].
  destruct (is_valid_host_char c) eqn:Hc; [|discriminate].
  rewrite (host_char_is_unix_sock_char c Hc). exact IH.
Qed.

End HostPortFacts.

Lemma split_host_port_plain_witness :
  let r := HostPort.split_host_port "vpn.example.com:1194" "" "" "" false in
  HostPort.split_host r = "vpn.example.com" /\ HostPort.split_port r = "1194"
  /\ HostPort.split_ok r = true.
Proof.
  exact (split_host_port_plain "vpn.example.com" "1194" "" "" "" false
           eq_refl eq_refl eq_refl eq_refl).
Defined.

Lemma split_host_port_bracketed_witness :
  let r := HostPort.split_host_port "[2001:db8::1]:443" "" "" "1194" false in
  HostPort.split_host r = "2001:db8::1" /\ HostPort.split_port r = "443"
  /\ HostPort.split_ok r = true.
Proof.
  exact (split_host_port_bracketed "2001:db8::1" "443" "" "" "1194" false
           eq_refl eq_refl eq_refl).
Defined.

Lemma split_host_port_bare_ipv6_witness :
  (let r := HostPort.split_host_port "2001:db8::1" "h" "p" "1194" false in
   HostPort.split_host r = "2001:db8::1" /\ HostPort.split_port r = "1194")
  /\ HostPort.split_host_port "2001:db8::1" "h" "p" "" false
     = HostPort.mk_split_result false "h" "p" 0%N.
Proof.
  split.
  - exact (split_host_port_bare_ipv6 "2001:db8::1" "h" "p" "1194" false 4 9
             eq_refl eq_refl eq_refl ltac:(discriminate)).
  - exact (split_host_port_bare_ipv6 "2001:db8::1" "h" "p" "" false 4 9
             eq_refl eq_refl eq_refl ltac:(discriminate)).
Defined.

Lemma has_explicit_port_cut_witness :
  HostPort.has_explicit_port "[::1]:443" = Some 5
  /\ substr 0 5 "[::1]:443" ++ ":" ++ substr_from 6 "[::1]:443" = "[::1]:443"
  /\ find_first_of ":" (substr_from 6 "[::1]:443") = None.
Proof.
  split; [reflexivity|].
  exact (has_explicit_port_cut "[::1]:443" 5 eq_refl).
Defined.

Lemma valid_host_is_valid_unix_sock_witness :
  HostPort.is_valid_host "vpn.example.com" = true
  /\ HostPort.is_valid_unix_sock "vpn.example.com" = true.
Proof.
  split; [reflexivity|].
  exact (valid_host_is_valid_unix_sock "vpn.example.com" eq_refl).
Defined.

(** ** Name sanitizers *)

Section SanitizeFacts.

Import TLSRemote.
Local Open Scope string_scope.

Lemma sanitize_x509_name_loop_length (b : bool) (str : string) :
  String.length (sanitize_x509_name_loop b str) = String.length str.
Proof.
  revert b. induction str as [|c str IH]; intro b; cbn; [reflexivity|].
  destruct (char_eqb c "-" && b); [|destruct (x509_name_char_ok c)];
    cbn; now rewrite IH.
Qed.

Lemma sanitize_x509_name_loop_chars (b : bool) (str : string) :
  string_forallb x509_name_char_ok (sanitize_x509_name_loop b str) = true.
Proof.
  revert b. induction str as [|c str IH]; intro b; cbn; [reflexivity|].
  destruct (char_eqb c "-" && b); [|destruct (x509_name_char_ok c) eqn:Hc];
    cbn [string_forallb]; rewrite ?Hc, ?IH; reflexivity.
Qed.

Lemma sanitize_x509_name_loop_settled (b : bool) (str : string) :
  sanitize_x509_name_loop false (sanitize_x509_name_loop b str)
  = sanitize_x509_name_loop b str.
Proof.
  revert b. induction str as [|c str IH]; intro b; cbn; [reflexivity|].
  destruct (char_eqb c "-" && b) eqn:Hd.
  - cbn. now rewrite IH.
  - destruct (x509_name_char_ok c) eqn:Hc; cbn.
    + rewrite andb_false_r, Hc, IH. reflexivity.
    + now rewrite IH.
Qed.

Lemma sanitize_x509_name_loop_stable (str : string) :
  sanitize_x509_name_loop true (sanitize_x509_name_loop true str)
  = sanitize_x509_name_loop true str.
Proof.
  destruct str as [|c str]; cbn; [reflexivity|].
  rewrite andb_true_r. destruct (char_eqb c "-") eqn:Hd.
  - cbn. now rewrite sanitize_x509_name_loop_settled.
  - destruct (x509_name_char_ok c) eqn:Hc; cbn.
    + rewrite Hd, Hc, sanitize_x509_name_loop_settled. reflexivity.
    + now rewrite sanitize_x509_name_loop_settled.
Qed.

Lemma starts_with_other (c : ascii) (str : string) :
  c <> "-"%char -> starts_with (String c str) "-" = false.
Proof.
  intro Hc. unfold starts_with. cbn [String.prefix].
  destruct (ascii_dec "-" c) as [Heq|_]; [congruence | reflexivity].
Qed.

(** X10: The sanitized subject is as long as the subject, holds only characters
    of the permitted set, does not begin with a dash, and is left as it is
    by a second pass. *)
Theorem sanitize_x509_name_normal_form (str : string) :
  String.length (sanitize_x509_name str) = String.length str
  /\ string_forallb x509_name_char_ok (sanitize_x509_name str) = true
  /\ starts_with (sanitize_x509_name str) "-" = false
  /\ sanitize_x509_name (sanitize_x509_name str) = sanitize_x509_name str.
Proof.
  unfold sanitize_x509_name. repeat split.
  - apply sanitize_x509_name_loop_length.
  - apply sanitize_x509_name_loop_chars.
  - destruct str as [|c str]; [reflexivity|].
    cbn [sanitize_x509_name_loop]. rewrite andb_true_r.
    destruct (char_eqb c "-") eqn:Hd; [apply starts_with_other; discriminate|].
    assert (Hne : c <> "-"%char) by (intro; subst c; discriminate).
    destruct (x509_name_char_ok c); apply starts_with_other;
      [exact Hne | discriminate].
  - apply sanitize_x509_name_loop_stable.
Qed.

(** X11: Only the dashes at the very beginning of the subject are replaced: a
    run of [n] leading dashes becomes [n] underscores, and what follows is
    sanitized as if it stood at the beginning; a dash after any other
    character stays. *)
Theorem sanitize_x509_name_leading_dashes (n : nat) (c : ascii) (str : string) :
  c <> "-"%char ->
  sanitize_x509_name (string_of_list_ascii (repeat "-"%char n) ++ str)
  = string_of_list_ascii (repeat "_"%char n) ++ sanitize_x509_name str
  /\ sanitize_x509_name (String c ("-" ++ str))
     = sanitize_x509_name (String c "") ++ "-" ++ sanitize_x509_name_loop false str.
Proof.
  intro Hc. unfold sanitize_x509_name. split.
  - induction n as [|n IH]; cbn; [reflexivity|]. now rewrite IH.
  - cbn. replace (char_eqb c "-") with false
      by (symmetry; apply Ascii.eqb_neq; exact Hc).
    cbn. destruct (x509_name_char_ok c); reflexivity.
Qed.

Lemma sanitize_common_name_fixed (str : string) :
  sanitize_common_name str = str <-> string_forallb common_name_char_ok str = true.
Proof.
  induction str as [|c str IH]; cbn; [tauto|].
  destruct (common_name_char_ok c) eqn:Hc.
  - rewrite <- IH. split; [now intros [= ->] | now intros ->].
  - split; [|discriminate]. intros [= <- _]. discriminate.
Qed.

Lemma sanitize_common_name_chars (str : string) :
  string_forallb common_name_char_ok (sanitize_common_name str) = true.
Proof.
  induction str as [|c str IH]; cbn; [reflexivity|].
  destruct (common_name_char_ok c) eqn:Hc; cbn [string_forallb];
    rewrite ?Hc, IH; reflexivity.
Qed.

(** X12: The sanitized common name is as long as the name and holds only
    characters of the permitted set; the names the sanitizer leaves
    unchanged are exactly those made of permitted characters, so a second
    pass changes nothing. *)
Theorem sanitize_common_name_normal_form (str : string) :
  String.length (sanitize_common_name str) = String.length str
  /\ string_forallb common_name_char_ok (sanitize_common_name str) = true
  /\ (sanitize_common_name str = str
      <-> string_forallb common_name_char_ok str = true)
  /\ sanitize_common_name (sanitize_common_name str) = sanitize_common_name str.
Proof.
  repeat split.
  - induction str as [|c str IH]; cbn; [reflexivity|].
    destruct (common_name_char_ok c); cbn; now rewrite IH.
  - apply sanitize_common_name_chars.
  - apply sanitize_common_name_fixed.
  - apply sanitize_common_name_fixed.
  - apply sanitize_common_name_fixed, sanitize_common_name_chars.
Qed.

Lemma common_name_char_is_x509_name_char (c : ascii) :
  common_name_char_ok c = true -> x509_name_char_ok c = true.
Proof.
  destruct c as [[] [] [] [] [] [] [] []]; vm_compute; congruence.
Qed.

(** The subject sanitizer is the more permissive of the two: a name that
    does not begin with a dash and that the common-name sanitizer leaves
    unchanged is left unchanged by the subject sanitizer too. *)
Theorem sanitize_common_name_fixed_is_x509_fixed (str : string) :
  starts_with str "-" = false ->
  sanitize_common_name str = str ->
  sanitize_x509_name str = str.
Proof.
  intros Hd Hfix. apply sanitize_common_name_fixed in Hfix.
  unfold sanitize_x509_name, starts_with in *.
  destruct str as [|c str]; [reflexivity|].
  cbn in Hd, Hfix |- *.
  destruct (common_name_char_ok c) eqn:Hc; [|discriminate].
  replace (char_eqb c "-") with false.
  2:{ symmetry. apply Ascii.eqb_neq. intro; subst c. cbn in Hd.
      destruct str; discriminate. }
  cbn. rewrite (common_name_char_is_x509_name_char c Hc). f_equal.
  clear Hd Hc c. induction str as [|c str IH]; cbn in *; [reflexivity|].
  destruct (common_name_char_ok c) eqn:Hc; [|discriminate].
  rewrite andb_false_r, (common_name_char_is_x509_name_char c Hc), (IH Hfix).
  reflexivity.
Qed.

End SanitizeFacts.

Lemma sanitize_x509_name_leading_dashes_witness :
  "C"%char <> "-"%char
  /\ TLSRemote.sanitize_x509_name "--N=a b" = "__N=a_b"
  /\ TLSRemote.sanitize_x509_name "C-N=a b" = "C-N=a_b".
Proof.
  split; [discriminate|].
  exact (sanitize_x509_name_leading_dashes 2 "C" "N=a b" ltac:(discriminate)).
Defined.

Lemma sanitize_common_name_fixed_is_x509_fixed_witness :
  starts_with "server-1.example" "-" = false
  /\ TLSRemote.sanitize_common_name "server-1.example" = "server-1.example"
  /\ TLSRemote.sanitize_x509_name "server-1.example" = "server-1.example".
Proof.
  split; [reflexivity|]. split; [reflexivity|].
  exact (sanitize_common_name_fixed_is_x509_fixed "server-1.example"
           eq_refl eq_refl).
Defined.

(** ** The chunked transfer-encoding helper *)

Section ChunkedFacts.

Import ChunkedHelper.
Local Open Scope list_scope.

Variable parse_hex_char : ascii -> Z.
Variable render_hex_char : Z -> ascii.

Local Abbreviation switch := (switch parse_hex_char).
Local Abbreviation process := (process parse_hex_char).
Local Abbreviation feed_all := (feed_all parse_hex_char).
Local Abbreviation receive_loop := (receive_loop parse_hex_char).
Local Abbreviation receive := (receive parse_hex_char).
Local Abbreviation receive_all := (receive_all parse_hex_char).
Local Abbreviation transmit := (transmit render_hex_char).
Local Abbreviation prepend_hex := (prepend_hex render_hex_char).

(** A state the switch jumps back with never jumps back again. *)
Lemma reprocess_once (st st' : State) (sz : N) (c : ascii) :
  switch st sz c = reprocess st' ->
  exists st'' sz'', switch st' sz c = finished st'' sz''.
Proof.
  destruct st; cbn;
    repeat match goal with
           | |- context [if ?b then _ else _] => destruct b
           end;
    intro H; inversion H; subst; cbn;
    destruct (char_eqb c CR); eauto.
Qed.

Lemma feed_all_app (b1 b2 : list ascii) (st : State) (sz : N) :
  feed_all st sz (b1 ++ b2)
  = let '(st1, sz1, c1, r1) := feed_all st sz b1 in
    let '(st2, sz2, c2, r2) := feed_all st1 sz1 b2 in
    (st2, sz2, c1 ++ c2, r1 ++ r2).
Proof.
  revert st sz. induction b1 as [|c b1 IH]; intros st sz.
  - cbn. destruct (feed_all st sz b2) as [[[st2 sz2] c2] r2]. reflexivity.
  - assert (Hstep : forall st' sz',
               feed_all st' sz' (b1 ++ b2)
               = let '(st1, sz1, c1, r1) := feed_all st' sz' b1 in
                 let '(st2, sz2, c2, r2) := feed_all st1 sz1 b2 in
                 (st2, sz2, c1 ++ c2, r1 ++ r2)) by (intros; apply IH).
    destruct st; cbn [app ChunkedHelper.feed_all];
      try (destruct (process _ sz c) as [st' sz']; apply Hstep).
    + destruct b2 as [|c2 b2]; cbn; [rewrite app_nil_r|]; reflexivity.
    + destruct (negb (sz =? 0)%N).
      * rewrite Hstep.
        destruct (feed_all chunk (sz - 1) b1) as [[[st1 sz1] c1] r1].
        destruct (feed_all st1 sz1 b2) as [[[st2 sz2] c2] r2]. reflexivity.
      * destruct (process post_chunk_cr sz c) as [st' sz']. apply Hstep.
Qed.

Lemma feed_all_chunk (content tail : list ascii) (sz : N) :
  (N.of_nat (List.length content) <= sz)%N ->
  feed_all chunk sz (content ++ tail)
  = let '(st, sz', c, r) :=
      feed_all chunk (sz - N.of_nat (List.length content)) tail in
    (st, sz', content ++ c, r).
Proof.
  revert sz. induction content as [|a content IH]; intros sz Hle.
  - cbn [app List.length N.of_nat]. rewrite N.sub_0_r.
    destruct (feed_all chunk sz tail) as [[[st sz'] c] r]. reflexivity.
  - cbn [List.length] in *. cbn [app ChunkedHelper.feed_all].
    replace (negb (sz =? 0)%N) with true
      by (symmetry; apply negb_true_iff, N.eqb_neq; lia).
    rewrite IH by lia.
    replace (sz - 1 - N.of_nat (List.length content))%N
      with (sz - N.of_nat (S (List.length content)))%N by lia.
    destruct (feed_all chunk _ tail) as [[[st sz'] c] r]. reflexivity.
Qed.

Lemma receive_loop_feed_all (fuel : nat) :
  forall (st : State) (sz : N) (buf : list ascii) (out : list (list ascii)),
    rounds st sz buf <= fuel ->
    exists o out',
      receive_loop fuel st sz buf out = Some o
      /\ delivered o = out ++ out'
      /\ feed_all st sz buf
         = (state (helper o), size (helper o), List.concat out', rest o).
Proof.
  unfold rounds.
  induction fuel as [|fuel IH]; intros st sz buf out Hfuel; [lia|].
  destruct buf as [|c buf'].
  { exists (mk_outcome (mk_helper st sz) out []), [].
    cbn. rewrite app_nil_r. auto. }
  assert (Hother : forall st' sz',
             exists o out',
               receive_loop fuel st' sz' buf' out = Some o
               /\ delivered o = out ++ out'
               /\ feed_all st' sz' buf'
                  = (state (helper o), size (helper o), List.concat out', rest o)).
  { intros st' sz'. apply IH. cbn [List.length] in Hfuel.
    destruct (State_eqb st' chunk && (sz' =? 0)%N); lia. }
  destruct st; cbn [ChunkedHelper.receive_loop ChunkedHelper.feed_all];
    try (destruct (process _ sz c) as [st' sz']; apply Hother).
  - (* done *)
    exists (mk_outcome (mk_helper done sz) out (c :: buf')), [].
    cbn. rewrite app_nil_r. auto.
  - (* chunk *)
    destruct (N.eqb_spec sz 0) as [Hz|Hnz]; cbn [negb].
    + (* the chunk is finished *)
      subst sz. cbn [State_eqb andb N.eqb] in Hfuel.
      destruct (IH post_chunk_cr 0%N (c :: buf') out) as (o & out' & Hr & Hd & Hf).
      { cbn [State_eqb andb]. lia. }
      exists o, out'. split; [exact Hr|]. split; [exact Hd|].
      rewrite <- Hf. reflexivity.
    + destruct (N.leb_spec (N.of_nat (List.length (c :: buf'))) sz) as [Hle|Hgt].
      * exists (mk_outcome
                  (mk_helper chunk (sz - N.of_nat (List.length (c :: buf'))))
                  (out ++ [c :: buf']) []), [c :: buf'].
        split; [reflexivity|]. split; [reflexivity|].
        pose proof (feed_all_chunk (c :: buf') [] sz Hle) as Hc.
        rewrite app_nil_r in Hc.
        cbn [ChunkedHelper.feed_all] in Hc.
        replace (negb (sz =? 0)%N) with true in Hc
          by (symmetry; apply negb_true_iff, N.eqb_neq; exact Hnz).
        rewrite Hc. cbn [List.concat]. rewrite !app_nil_r. reflexivity.
      * set (buf := c :: buf') in *.
        assert (Hlen : (N.to_nat sz < List.length buf)%nat) by lia.
        destruct (IH chunk 0%N (skipn (N.to_nat sz) buf)
                     (out ++ [firstn (N.to_nat sz) buf]))
          as (o & out' & Hr & Hd & Hf).
        { rewrite length_skipn. cbn [State_eqb andb N.eqb]. lia. }
        exists o, (firstn (N.to_nat sz) buf :: out').
        split; [exact Hr|].
        split; [rewrite Hd, <- app_assoc; reflexivity|].
        pose proof (feed_all_chunk (firstn (N.to_nat sz) buf)
                                   (skipn (N.to_nat sz) buf) sz) as Hc.
        rewrite firstn_skipn, length_firstn in Hc.
        replace (Init.Nat.min (N.to_nat sz) (List.length buf))
          with (N.to_nat sz) in Hc by lia.
        rewrite N2Nat.id, N.sub_diag, Hf in Hc.
        specialize (Hc (N.le_refl _)).
        subst buf. cbn [ChunkedHelper.feed_all] in Hc.
        replace (negb (sz =? 0)%N) with true in Hc
          by (symmetry; apply negb_true_iff, N.eqb_neq; exact Hnz).
        rewrite Hc. reflexivity.
Qed.

Lemma receive_feed_all (h : Helper) (buf : list ascii) :
  exists o,
    receive h buf = Some o
    /\ feed_all (state h) (size h) buf
       = (state (helper o), size (helper o), List.concat (delivered o), rest o).
Proof.
  unfold ChunkedHelper.receive.
  destruct (receive_loop_feed_all (2 * List.length buf + 2)
                                  (state h) (size h) buf [])
    as (o & out' & Hr & Hd & Hf).
  { unfold rounds. destruct (State_eqb (state h) chunk && (size h =? 0)%N); lia. }
  exists o. split; [exact Hr|]. rewrite Hd. exact Hf.
Qed.

Lemma receive_all_feed_all (bufs : list (list ascii)) :
  forall h : Helper,
    exists o,
      receive_all h bufs = Some o
      /\ feed_all (state h) (size h) (List.concat bufs)
         = (state (helper o), size (helper o), List.concat (delivered o), rest o).
Proof.
  induction bufs as [|buf bufs IH]; intro h.
  - exists (mk_outcome h [] []). split; reflexivity.
  - destruct (receive_feed_all h buf) as (o1 & Hr1 & Hf1).
    destruct (IH (helper o1)) as (o2 & Hr2 & Hf2).
    cbn [ChunkedHelper.receive_all List.concat]. rewrite Hr1, Hr2.
    eexists. split; [reflexivity|].
    rewrite feed_all_app, Hf1, Hf2. cbn. rewrite concat_app. reflexivity.
Qed.

(** X13: [receive] always comes to an end, and cutting the input into buffers at
    another place changes nothing but the pieces in which the content is
    handed over: receiving [b1] and then [b2] leaves the helper as receiving
    both at once does, hands the callback the same content bytes, and
    leaves the same bytes unread. *)
Theorem receive_split (h : Helper) (b1 b2 : list ascii) :
  exists o1 o2 o,
    receive h b1 = Some o1
    /\ receive (helper o1) b2 = Some o2
    /\ receive h (b1 ++ b2) = Some o
    /\ helper o = helper o2
    /\ List.concat (delivered o) = List.concat (delivered o1) ++ List.concat (delivered o2)
    /\ rest o = rest o1 ++ rest o2.
Proof.
  destruct (receive_feed_all h b1) as (o1 & Hr1 & Hf1).
  destruct (receive_feed_all (helper o1) b2) as (o2 & Hr2 & Hf2).
  destruct (receive_feed_all h (b1 ++ b2)) as (o & Hr & Hf).
  exists o1, o2, o. repeat (split; [assumption|]).
  rewrite feed_all_app, Hf1, Hf2 in Hf.
  injection Hf as Hst Hsz Hc Hrest.
  repeat split; try congruence.
  destruct (helper o), (helper o2); cbn in *; congruence.
Qed.

(** Once the end of the message has been seen the helper stays done and
    reads nothing more. *)
Theorem receive_done (sz : N) (buf : list ascii) :
  receive (mk_helper done sz) buf
  = Some (mk_outcome (mk_helper done sz) [] buf).
Proof.
  unfold ChunkedHelper.receive. destruct buf; reflexivity.
Qed.

Lemma prepend_hex_app (fuel : nat) :
  forall (sz : N) (buf : list ascii),
    prepend_hex fuel sz buf = prepend_hex fuel sz [] ++ buf.
Proof.
  induction fuel as [|fuel IH]; intros sz buf; cbn; [reflexivity|].
  destruct (sz =? 0)%N; [reflexivity|].
  rewrite IH, (IH _ [_]), <- app_assoc. reflexivity.
Qed.

Lemma shiftr4_lt (sz : N) : sz <> 0%N -> (N.shiftr sz 4 < sz)%N.
Proof.
  intro H. rewrite N.shiftr_div_pow2. change (2 ^ 4)%N with 16%N.
  apply N.div_lt; lia.
Qed.

Lemma prepend_hex_digits (k : nat) :
  forall (fuel : nat) (sz : N),
    (sz < 16 ^ N.of_nat k)%N ->
    List.length (prepend_hex fuel sz []) <= k.
Proof.
  induction k as [|k IH]; intros fuel sz Hsz.
  - change (16 ^ N.of_nat 0)%N with 1%N in Hsz.
    assert (sz = 0%N) by lia; subst sz. destruct fuel; cbn; lia.
  - destruct fuel as [|fuel]; cbn [ChunkedHelper.prepend_hex List.length]; [lia|].
    destruct (N.eqb_spec sz 0) as [_|Hnz]; cbn [List.length]; [lia|].
    rewrite prepend_hex_app, length_app. cbn [List.length].
    assert (Hk : (N.shiftr sz 4 < 16 ^ N.of_nat k)%N).
    { rewrite N.shiftr_div_pow2. change (2 ^ 4)%N with 16%N.
      apply N.Div0.div_lt_upper_bound.
      rewrite Nat2N.inj_succ, N.pow_succ_r' in Hsz. exact Hsz. }
    specialize (IH fuel _ Hk). lia.
Qed.

Lemma prepend_hex_nonempty (fuel : nat) (sz : N) :
  sz <> 0%N -> 0 < fuel -> prepend_hex fuel sz [] <> [].
Proof.
  intros Hnz Hf. destruct fuel as [|fuel]; [lia|].
  cbn [ChunkedHelper.prepend_hex].
  apply N.eqb_neq in Hnz. rewrite Hnz. rewrite prepend_hex_app.
  destruct (prepend_hex fuel _ []); discriminate.
Qed.

(** X14: What [transmit] puts around the content: at least 3 and at most 18
    bytes in front (the digits of the size and CR LF; a 64-bit size has at
    most 16 digits), which fit the headroom of 24 the function asks for,
    and CR LF behind, within the tailroom of 16. *)
Theorem transmit_frame (content : list ascii) :
  (N.of_nat (List.length content) < 2 ^ 64)%N ->
  exists head,
    transmit content = head ++ content ++ [CR; LF]
    /\ 3 <= List.length head <= 18.
Proof.
  intro Hlen. unfold ChunkedHelper.transmit.
  destruct (N.eqb_spec (N.of_nat (List.length content)) 0) as [Hz|Hnz]; cbn [negb].
  - exists ["0"%char; CR; LF]. split; [reflexivity | cbn; lia].
  - rewrite prepend_hex_app.
    exists (prepend_hex (N.to_nat (N.of_nat (List.length content)))
                        (N.of_nat (List.length content)) [] ++ [CR; LF]).
    split; [rewrite <- !app_assoc; reflexivity|].
    rewrite length_app. cbn [List.length].
    pose proof (prepend_hex_digits 16 (N.to_nat (N.of_nat (List.length content)))
                  (N.of_nat (List.length content)) Hlen) as Hd.
    pose proof (prepend_hex_nonempty (N.to_nat (N.of_nat (List.length content)))
                  (N.of_nat (List.length content)) Hnz ltac:(lia)) as Hne.
    destruct (prepend_hex _ _ []); [contradiction | cbn [List.length] in *; lia].
Qed.

Section RoundTrip.

(** The two digit functions are inverse to each other on the sixteen digit
    values, and CR is not a digit. *)
Hypothesis parse_render :
  forall d : Z, (0 <= d < 16)%Z -> parse_hex_char (render_hex_char d) = d.
Hypothesis parse_zero : parse_hex_char "0" = 0%Z.
Hypothesis parse_CR : (parse_hex_char CR < 0)%Z.

Lemma feed_all_digits (fuel : nat) :
  forall (sz : N) (tail : list ascii),
    (sz < 2 ^ 64)%N -> N.to_nat sz <= fuel ->
    feed_all hex 0 (prepend_hex fuel sz tail) = feed_all hex sz tail.
Proof.
  induction fuel as [|fuel IH]; intros sz tail Hsz Hfuel.
  - assert (sz = 0%N) by lia. subst sz. reflexivity.
  - cbn [ChunkedHelper.prepend_hex].
    destruct (N.eqb_spec sz 0) as [->|Hnz]; [reflexivity|].
    pose proof (shiftr4_lt sz Hnz) as Hlt.
    rewrite IH by lia.
    cbn [ChunkedHelper.feed_all]. unfold ChunkedHelper.process, ChunkedHelper.switch.
    assert (Hd : (0 <= Z.of_N (N.land sz 15) < 16)%Z).
    { assert (H : (N.land sz 15 < 16)%N).
      { change 15%N with (N.ones 4). rewrite N.land_ones.
        apply N.mod_upper_bound. discriminate. }
      clear - H. lia. }
    rewrite (parse_render _ Hd).
    replace (0 <=? Z.of_N (N.land sz 15))%Z with true
      by (symmetry; apply Z.leb_le; lia).
    rewrite N2Z.id. unfold size_t_wrap.
    replace ((N.shiftl (N.shiftr sz 4) 4 + N.land sz 15) mod 2 ^ 64)%N with sz;
      [reflexivity|].
    rewrite N.shiftl_mul_pow2, N.shiftr_div_pow2.
    change 15%N with (N.ones 4). rewrite N.land_ones.
    rewrite N.mod_small; [|rewrite N.mul_comm, <- N.div_mod'; exact Hsz].
    rewrite N.mul_comm. apply N.div_mod'.
Qed.

Lemma feed_all_transmit (content more : list ascii) :
  content <> [] -> (N.of_nat (List.length content) < 2 ^ 64)%N ->
  feed_all hex 0 (transmit content ++ more)
  = let '(st, sz, c, r) := feed_all hex 0 more in (st, sz, content ++ c, r).
Proof.
  intros Hne Hlen. unfold ChunkedHelper.transmit.
  set (n := N.of_nat (List.length content)) in *.
  assert (Hnz : n <> 0%N) by (subst n; destruct content; [contradiction | cbn; lia]).
  replace (negb (n =? 0)%N) with true
    by (symmetry; apply negb_true_iff, N.eqb_neq; exact Hnz).
  rewrite <- app_assoc, prepend_hex_app, <- app_assoc, <- prepend_hex_app.
  rewrite feed_all_digits by (try exact Hlen; lia).
  cbn [app ChunkedHelper.feed_all].
  unfold ChunkedHelper.process at 1. unfold ChunkedHelper.switch.
  replace (0 <=? parse_hex_char CR)%Z with false
    by (symmetry; apply Z.leb_gt; exact parse_CR).
  change (char_eqb CR CR) with true. cbv iota.
  cbn [ChunkedHelper.feed_all].
  unfold ChunkedHelper.process at 1. unfold ChunkedHelper.switch.
  change (char_eqb LF LF) with true. cbv iota.
  replace (negb (n =? 0)%N) with true
    by (symmetry; apply negb_true_iff, N.eqb_neq; exact Hnz).
  rewrite (feed_all_chunk content _ n) by (subst n; lia).
  subst n. rewrite N.sub_diag.
  cbn [app ChunkedHelper.feed_all N.eqb negb].
  unfold ChunkedHelper.process at 1. unfold ChunkedHelper.switch.
  change (char_eqb CR CR) with true. cbv iota.
  cbn [ChunkedHelper.feed_all].
  unfold ChunkedHelper.process at 1. unfold ChunkedHelper.switch.
  change (char_eqb LF LF) with true. cbv iota.
  reflexivity.
Qed.

Lemma feed_all_transmit_end (more : list ascii) :
  feed_all hex 0 (transmit [] ++ more) = (done, 0%N, [], more).
Proof.
  unfold ChunkedHelper.transmit. cbn [List.length N.of_nat N.eqb negb app].
  cbn [ChunkedHelper.feed_all].
  unfold ChunkedHelper.process at 1. unfold ChunkedHelper.switch.
  rewrite parse_zero. cbn [Z.leb Z.compare Z.to_N N.shiftl N.add].
  change (size_t_wrap 0) with 0%N.
  cbn [ChunkedHelper.feed_all].
  unfold ChunkedHelper.process at 1. unfold ChunkedHelper.switch.
  replace (0 <=? parse_hex_char CR)%Z with false
    by (symmetry; apply Z.leb_gt; exact parse_CR).
  change (char_eqb CR CR) with true. cbv iota.
  cbn [ChunkedHelper.feed_all].
  unfold ChunkedHelper.process at 1. unfold ChunkedHelper.switch.
  change (char_eqb LF LF) with true. cbv iota. cbn [N.eqb negb].
  cbn [ChunkedHelper.feed_all].
  unfold ChunkedHelper.process at 1. unfold ChunkedHelper.switch.
  change (char_eqb CR CR) with true. cbv iota.
  cbn [ChunkedHelper.feed_all].
  unfold ChunkedHelper.process at 1. unfold ChunkedHelper.switch.
  change (char_eqb LF LF) with true. cbv iota.
  destruct more; reflexivity.
Qed.

Lemma feed_all_stream (chunks : list (list ascii)) :
  Forall (fun c => c <> [] /\ (N.of_nat (List.length c) < 2 ^ 64)%N) chunks ->
  feed_all hex 0 (List.concat (map transmit chunks) ++ transmit [])
  = (done, 0%N, List.concat chunks, []).
Proof.
  induction 1 as [|c chunks [Hne Hlen] _ IH].
  - cbn [map List.concat app]. rewrite <- (app_nil_r (transmit [])).
    apply feed_all_transmit_end.
  - cbn [map List.concat]. rewrite <- app_assoc.
    rewrite (feed_all_transmit c _ Hne Hlen), IH. reflexivity.
Qed.

(** X15: What [transmit] writes, [receive] reads back: a body sent as non-empty
    chunks, each put through [transmit], and ended by an empty one, is
    read to its end (the last [receive] returns true), the content handed
    to the callback is the body, and no byte is left over, however the
    stream is cut into the buffers that [receive] is called with. *)
Theorem chunked_round_trip (chunks bufs : list (list ascii)) :
  Forall (fun c => c <> [] /\ (N.of_nat (List.length c) < 2 ^ 64)%N) chunks ->
  List.concat bufs = List.concat (map transmit chunks) ++ transmit [] ->
  exists o,
    receive_all ChunkedHelper_new bufs = Some o
    /\ receive_result o = true
    /\ List.concat (delivered o) = List.concat chunks
    /\ rest o = [].
Proof.
  intros Hchunks Hbufs.
  destruct (receive_all_feed_all bufs ChunkedHelper_new) as (o & Hr & Hf).
  exists o. split; [exact Hr|].
  rewrite Hbufs in Hf. cbn [state size ChunkedHelper_new] in Hf.
  rewrite (feed_all_stream chunks Hchunks) in Hf.
  injection Hf as Hst Hsz Hc Hrest.
  unfold receive_result. rewrite <- Hst. auto.
Qed.

End RoundTrip.

End ChunkedFacts.

Lemma example_hex_chars_inverse (d : Z) :
  (0 <= d < 16)%Z -> example_parse_hex_char (example_render_hex_char d) = d.
Proof.
  intro Hd.
  assert (Hc : (d = 0 \/ d = 1 \/ d = 2 \/ d = 3 \/ d = 4 \/ d = 5 \/ d = 6
               \/ d = 7 \/ d = 8 \/ d = 9 \/ d = 10 \/ d = 11 \/ d = 12
               \/ d = 13 \/ d = 14 \/ d = 15)%Z) by lia.
  repeat destruct Hc as [->|Hc]; try reflexivity. subst d. reflexivity.
Qed.

Lemma transmit_frame_witness :
  (N.of_nat (List.length (list_ascii_of_string "hello, ")) < 2 ^ 64)%N
  /\ exists head,
      ChunkedHelper.transmit example_render_hex_char (list_ascii_of_string "hello, ")
      = (head ++ list_ascii_of_string "hello, "
              ++ [ChunkedHelper.CR; ChunkedHelper.LF])%list
      /\ 3 <= List.length head <= 18.
Proof.
  split; [reflexivity|].
  exact (transmit_frame example_render_hex_char (list_ascii_of_string "hello, ")
           eq_refl).
Defined.

Lemma chunked_round_trip_witness :
  List.concat example_wire_buffers = example_wire
  /\ exists o,
      ChunkedHelper.receive_all example_parse_hex_char
        ChunkedHelper.ChunkedHelper_new example_wire_buffers = Some o
      /\ ChunkedHelper.receive_result o = true
      /\ List.concat (ChunkedHelper.delivered o) = List.concat example_chunks
      /\ ChunkedHelper.rest o = [].
Proof.
  split; [reflexivity|].
  refine (chunked_round_trip example_parse_hex_char example_render_hex_char
            example_hex_chars_inverse eq_refl _
            example_chunks example_wire_buffers _ eq_refl).
  - reflexivity.
  - repeat constructor; try discriminate.
Defined.

(** ** Error names *)

Section ErrorFacts.

Local Open Scope string_scope.
Local Open Scope nat_scope.

Lemma below_cases (n : nat) (P : nat -> bool) :
  forallb P (seq 0 n) = true -> forall t, t < n -> P t = true.
Proof.
  intros H t Ht. rewrite forallb_forall in H. apply H, in_seq. lia.
Qed.

Lemma error_names_size : List.length Error.names = Error.N_ERRORS.
Proof. reflexivity. Qed.

Lemma error_name_known (t : nat) :
  t < Error.N_ERRORS -> Error.name t <> "UNKNOWN_ERROR_TYPE".
Proof.
  intro Ht.
  assert (H : forallb (fun x => negb (String.eqb (Error.name x)
                                                 "UNKNOWN_ERROR_TYPE"))
                      (seq 0 Error.N_ERRORS) = true) by (vm_compute; reflexivity).
  pose proof (below_cases _ _ H t Ht) as H1. cbv beta in H1.
  apply negb_true_iff, String.eqb_neq in H1. exact H1.
Qed.

(** X16: The name tells the error: two error codes below N_ERRORS with the same
    name are the same code, and the name is UNKNOWN_ERROR_TYPE exactly for
    the codes from N_ERRORS on. *)
Theorem error_name_identifies (a b : nat) :
  (a < Error.N_ERRORS -> b < Error.N_ERRORS ->
   Error.name a = Error.name b -> a = b)
  /\ (Error.name a = "UNKNOWN_ERROR_TYPE" <-> Error.N_ERRORS <= a).
Proof.
  split.
  - intros Ha Hb Hab.
    assert (H : forallb (fun x =>
                  forallb (fun y => negb (String.eqb (Error.name x) (Error.name y))
                                    || Nat.eqb x y)
                          (seq 0 Error.N_ERRORS))
                  (seq 0 Error.N_ERRORS) = true) by (vm_compute; reflexivity).
    pose proof (below_cases _ _ H a Ha) as H1. cbv beta in H1.
    pose proof (below_cases _ _ H1 b Hb) as H2. cbv beta in H2.
    apply orb_true_iff in H2. destruct H2 as [H2|H2].
    + apply negb_true_iff, String.eqb_neq in H2. contradiction.
    + apply Nat.eqb_eq, H2.
  - split.
    + intro Hn. destruct (Nat.lt_ge_cases a Error.N_ERRORS) as [Ha|Ha]; [|exact Ha].
      exfalso. exact (error_name_known a Ha Hn).
    + intro Ha. unfold Error.name.
      replace (a <? Error.N_ERRORS) with false; [reflexivity|].
      symmetry. apply Nat.ltb_ge, Ha.
Qed.

(** X17: The names follow the enumerators of [enum Type] with two exceptions:
    code 71, UNUSED_OPTIONS, is named UNUSED_OPTIONS_ERROR, and code 77,
    KEY_EXPANSION_ERROR, is named KEV_EXPANSION_ERROR. *)
Theorem error_names_follow_enumerators (t : nat) :
  t < Error.N_ERRORS ->
  (Error.name t = nth t Error.enumerators "" <-> t <> 71 /\ t <> 77).
Proof.
  intro Ht.
  assert (H : forallb (fun x =>
                Bool.eqb (String.eqb (Error.name x) (nth x Error.enumerators ""))
                         (negb (Nat.eqb x 71) && negb (Nat.eqb x 77)))
                (seq 0 Error.N_ERRORS) = true) by (vm_compute; reflexivity).
  pose proof (below_cases _ _ H t Ht) as H1. cbv beta in H1.
  apply Bool.eqb_prop in H1.
  rewrite <- String.eqb_eq, H1, andb_true_iff, !negb_true_iff, !Nat.eqb_neq.
  reflexivity.
Qed.

End ErrorFacts.

Lemma error_name_identifies_witness :
  (14 < Error.N_ERRORS -> 14 < Error.N_ERRORS ->
   Error.name 14 = Error.name 14 -> 14 = 14)
  /\ (Error.name 14 = "UNKNOWN_ERROR_TYPE" <-> Error.N_ERRORS <= 14).
Proof. exact (error_name_identifies 14 14). Defined.

Lemma error_names_follow_enumerators_witness :
  71 < Error.N_ERRORS
  /\ Error.name 71 = "UNUSED_OPTIONS_ERROR"
  /\ nth 71 Error.enumerators "" = "UNUSED_OPTIONS"
  /\ (Error.name 71 = nth 71 Error.enumerators "" <-> 71 <> 71 /\ 71 <> 77).
Proof.
  split; [vm_compute; lia|]. split; [reflexivity|]. split; [reflexivity|].
  apply (error_names_follow_enumerators 71). vm_compute. lia.
Defined.

(** ** Statistics, events and connect of the client API *)

Section StatsFacts.

Import ClientAPI.
Local Open Scope list_scope.

Variable E : Env.
Variable stat_name : nat -> string.

Lemma array_set_length (a : list Z) (i : nat) (v : Z) :
  List.length (SessionStats.array_set a i v) = List.length a.
Proof.
  revert i. induction a as [|x a IH]; intros [|i]; cbn; auto.
Qed.

Lemma array_set_nth (a : list Z) (i j : nat) (v : Z) :
  (i < List.length a)%nat ->
  nth j (SessionStats.array_set a i v) 0%Z = if (j =? i)%nat then v else nth j a 0%Z.
Proof.
  revert i j. induction a as [|x a IH]; intros [|i] [|j] Hi; cbn in *;
    try lia; try reflexivity.
  apply IH. lia.
Qed.

(** X18: [error] counts one error and touches nothing else: with the array of
    the class (N_ERRORS counters), the counter of a code below N_ERRORS
    goes up by one, modulo the size of [count_t]; every other error
    counter, the statistics and the size of the array stay; a code from
    N_ERRORS on changes nothing. *)
Theorem session_stats_error_counts
        (m : MySessionStats (Time E)) (err : nat) :
  List.length (errors m) = Error.N_ERRORS ->
  let m' := SessionStats.error E m err in
  stats_ m' = stats_ m
  /\ last_packet_received m' = last_packet_received m
  /\ List.length (errors m') = Error.N_ERRORS
  /\ (forall i,
         error_count E m' i
         = if ((i =? err) && (err <? Error.N_ERRORS))%nat
           then ((error_count E m i + 1) mod 2 ^ 64)%Z
           else error_count E m i).
Proof.
  intros Hlen m'. subst m'. unfold SessionStats.error, error_count.
  destruct (Nat.ltb_spec err Error.N_ERRORS) as [Hlt|Hge]; cbn [stats_ errors last_packet_received].
  - rewrite array_set_length. repeat split; try assumption.
    intro i. rewrite array_set_nth by lia. rewrite andb_true_r.
    destruct (Nat.eqb_spec i err) as [->|_]; reflexivity.
  - repeat split; try assumption. intro i. rewrite andb_false_r. reflexivity.
Qed.

(** X19: Errors are numbered after the statistics in the combined index: for an
    error code below N_ERRORS, the combined name at [N_STATS + code] is the
    name of the error, never UNKNOWN_ERROR_TYPE, and the combined value
    there is the counter of that error. *)
Theorem combined_index_of_error
        (m : MySessionStats (Time E)) (code : nat) :
  (code < Error.N_ERRORS)%nat ->
  SessionStats.combined_name E stat_name (N_STATS E + code) = Error.name code
  /\ SessionStats.combined_name E stat_name (N_STATS E + code)
     <> "UNKNOWN_ERROR_TYPE"%string
  /\ combined_value E m (N_STATS E + code) = error_count E m code.
Proof.
  intro Hc.
  assert (Hn : SessionStats.combined_name E stat_name (N_STATS E + code)
               = Error.name code).
  { unfold SessionStats.combined_name, combined_n.
    replace (N_STATS E + code <? N_STATS E + N_ERRORS)%nat with true
      by (symmetry; apply Nat.ltb_lt; change N_ERRORS with Error.N_ERRORS; lia).
    replace (N_STATS E + code <? N_STATS E)%nat with false
      by (symmetry; apply Nat.ltb_ge; lia).
    f_equal. lia. }
  split; [exact Hn|]. split.
  - rewrite Hn. apply error_name_known, Hc.
  - unfold combined_value, combined_n, error_count.
    replace (N_STATS E + code <? N_STATS E + N_ERRORS)%nat with true
      by (symmetry; apply Nat.ltb_lt; change N_ERRORS with Error.N_ERRORS; lia).
    replace (N_STATS E + code <? N_STATS E)%nat with false
      by (symmetry; apply Nat.ltb_ge; lia).
    f_equal. lia.
Qed.

Lemma size_t_of_int_out_of_range (index : Z) :
  (Z.of_nat (combined_n E) < 2 ^ 31)%Z ->
  (- 2 ^ 31 <= index < 2 ^ 31)%Z ->
  (index < 0 \/ Z.of_nat (combined_n E) <= index)%Z ->
  (size_t_of_int index <? combined_n E)%nat = false.
Proof.
  intros Hn Hi Hout. apply Nat.ltb_ge. unfold size_t_of_int.
  destruct Hout as [Hneg|Hbig].
  - rewrite <- (Z.mod_unique index (2 ^ 64) (-1) (index + 2 ^ 64)).
    + change (2 ^ 64)%Z with 18446744073709551616%Z.
      change (2 ^ 31)%Z with 2147483648%Z in *. lia.
    + left. change (2 ^ 64)%Z with 18446744073709551616%Z.
      change (2 ^ 31)%Z with 2147483648%Z in *. lia.
    + lia.
  - rewrite Z.mod_small.
    + lia.
    + change (2 ^ 64)%Z with 18446744073709551616%Z.
      change (2 ^ 31)%Z with 2147483648%Z in *. lia.
Qed.

(** X20: An index outside the combined range reads nothing: for an [int] index
    that is negative or not below [stats_n], [stats_value] is 0 and
    [stats_name] is the empty string, whatever the state of the client. *)
Theorem stats_index_out_of_range (s : ClientState E) (index : Z) :
  (SessionStats.stats_n E < 2 ^ 31)%Z ->
  (- 2 ^ 31 <= index < 2 ^ 31)%Z ->
  (index < 0 \/ SessionStats.stats_n E <= index)%Z ->
  stats_value E s index = 0%Z
  /\ SessionStats.stats_name E stat_name index = ""%string.
Proof.
  unfold SessionStats.stats_n. intros Hn Hi Hout.
  pose proof (size_t_of_int_out_of_range index Hn Hi Hout) as Hoff.
  split.
  - unfold stats_value. destruct (is_foreign_thread_access s); [|reflexivity].
    destruct (stats s) as [m|]; [|reflexivity].
    unfold combined_value. rewrite Hoff. reflexivity.
  - unfold SessionStats.stats_name, SessionStats.combined_name.
    rewrite Hoff. reflexivity.
Qed.

(** X21: [stats_bundle] always has [stats_n] entries, and where the counters are
    not moved by the refresh from the data channel offload, entry [i] is
    what [stats_value] returns for [i]. *)
Theorem stats_bundle_matches_stats_value (s : ClientState E) (i : nat) :
  (SessionStats.stats_n E < 2 ^ 31)%Z ->
  (forall m, stats s = Some m -> dco_update E m = m) ->
  (i < combined_n E)%nat ->
  List.length (stats_bundle E s) = combined_n E
  /\ nth i (stats_bundle E s) 0%Z = stats_value E s (Z.of_nat i).
Proof.
  unfold SessionStats.stats_n. intros Hn Hdco Hi.
  assert (Hidx : size_t_of_int (Z.of_nat i) = i).
  { unfold size_t_of_int. rewrite Z.mod_small.
    - apply Nat2Z.id.
    - change (2 ^ 64)%Z with 18446744073709551616%Z.
      change (2 ^ 31)%Z with 2147483648%Z in *. lia. }
  assert (Hconst : forall n, nth i (map (fun _ : nat => 0%Z) (seq 0 n)) 0%Z = 0%Z).
  { intro n. generalize (seq 0 n) as l. clear. revert i.
    intros i l. revert i. induction l as [|x l IH]; intros [|i]; cbn; auto. }
  unfold stats_bundle, stats_value.
  destruct (is_foreign_thread_access s).
  - destruct (stats s) as [m|] eqn:Hs.
    + rewrite (Hdco m eq_refl), length_map, length_seq. split; [reflexivity|].
      rewrite Hidx.
      rewrite (nth_indep _ 0%Z (combined_value E m 0%nat))
        by (rewrite length_map, length_seq; exact Hi).
      rewrite map_nth, seq_nth by exact Hi. cbn [Nat.add].
      destruct (_ || _); reflexivity.
    + rewrite length_map, length_seq. split; [reflexivity | apply Hconst].
  - rewrite length_map, length_seq. split; [reflexivity | apply Hconst].
Qed.

(** X22: [eval_config] always returns, and it stores the evaluation in the
    client state exactly when the profile parsed without error: an error
    from [parse_config] leaves the stored evaluation as it was, while an
    evaluation that got its error from the extra settings is stored with
    the error. *)
Theorem eval_config_stores (config : Config) (s : ClientState E) :
  exists ev0 opts ev s',
    parse_config E config (EvalConfig_default (uninitialized_bool E)) (options s)
    = Ok (ev0, opts)
    /\ eval_config E config s = (Ok ev, s')
    /\ options s' = opts
    /\ (if ClientAPI.error ev0
        then ev = ev0 /\ eval s' = eval s
        else eval s' = ev).
Proof.
  pose proof (eval_config_returns E config s) as Hr. cbv zeta in Hr.
  rewrite parse_config_returns.
  set (dflt := EvalConfig_default (uninitialized_bool E)) in *.
  set (ev0 := match snd (parse_config_try E config dflt (options s)) with
              | Ok ev => ev
              | Throw e =>
                  set_error dflt
                    (utf8_printable E ("ERR_PROFILE_GENERIC: " ++ what e) 256)
              end) in *.
  set (opts := fst (parse_config_try E config dflt (options s))) in *.
  exists ev0, opts.
  destruct (ClientAPI.error ev0) eqn:He.
  - exists ev0, (with_options E s opts). auto.
  - eexists. eexists. split; [reflexivity|]. split; [exact Hr|].
    split; [|reflexivity]. cbn [options with_eval].
    apply (parse_extras_try_keeps E (@options E) config ev0); reflexivity.
Qed.

(** [provide_creds] never throws: when the credentials object cannot be
    built the status carries the error and its message and the client keeps
    the credentials it had; otherwise the new credentials replace them and
    the status reports no error.  Nothing else in the client changes. *)
Theorem provide_creds_status (pc : ProvideCreds) (s : ClientState E) :
  exists st s',
    provide_creds E pc s = (Ok st, s')
    /\ match ClientCreds_new E pc with
       | Ok cc => status_error st = false /\ s' = with_creds E s (Some cc)
       | Throw e =>
           status_error st = true
           /\ status_message st = utf8_printable E (what e) 256
           /\ s' = s
       end.
Proof.
  unfold provide_creds, catch, bind, lift_result, modify, ret.
  destruct (ClientCreds_new E pc) as [cc|e]; eexists; eexists; split;
    try reflexivity; cbn; auto.
Qed.

Section ConnectFacts.

Variable connect_setup :
  ClientState E -> result unit * (Status * bool) * ClientState E.
Variable connect_run : ClientState E -> result unit * ClientState E.
Variable connect_session_stop : ClientState E -> ClientState E.
Variable ExceptionCode_code : exception -> option nat.
Variable UTF8_PASS_FMT : N.

(** X23: A client object connects once: on a client that has been attached
    before, [do_connect] returns an error status without setting up or
    running a session, and leaves the client, the running session with it,
    as it is. *)
Theorem do_connect_once (s : ClientState E) :
  attach_called s = true ->
  exists st,
    Connect.do_connect E connect_setup connect_run connect_session_stop
                       ExceptionCode_code UTF8_PASS_FMT s
    = (st, s)
    /\ status_error st = true
    /\ status_message st
       = utf8_printable E
           "ClientState::attach() can only be called once per ClientState instantiation"
           (N.to_nat (N.lor 2048 UTF8_PASS_FMT)).
Proof.
  intro Ha. unfold Connect.do_connect, connect_attach, attach. rewrite Ha.
  eexists. split; [reflexivity|]. split; reflexivity.
Qed.

End ConnectFacts.

End StatsFacts.

Lemma session_stats_error_counts_witness :
  List.length (ClientAPI.errors example_stats) = Error.N_ERRORS
  /\ ClientAPI.error_count example_env
       (SessionStats.error example_env example_stats ClientAPI.TUN_READ_ERROR)
       ClientAPI.TUN_READ_ERROR = 1%Z
  /\ ClientAPI.error_count example_env
       (SessionStats.error example_env example_stats ClientAPI.TUN_READ_ERROR)
       ClientAPI.TUN_WRITE_ERROR = 0%Z.
Proof.
  split; [reflexivity|].
  destruct (session_stats_error_counts example_env example_stats
              ClientAPI.TUN_READ_ERROR eq_refl) as (_ & _ & _ & H).
  split.
  - exact (H ClientAPI.TUN_READ_ERROR).
  - exact (H ClientAPI.TUN_WRITE_ERROR).
Defined.

Lemma combined_index_of_error_witness :
  (14 < Error.N_ERRORS)%nat
  /\ SessionStats.combined_name example_env example_stat_name 22 = "TUN_READ_ERROR"
  /\ SessionStats.combined_name example_env example_stat_name 22
     <> "UNKNOWN_ERROR_TYPE"
  /\ ClientAPI.combined_value example_env example_stats 22
     = ClientAPI.error_count example_env example_stats 14.
Proof.
  assert (H : (14 < Error.N_ERRORS)%nat) by (vm_compute; lia).
  split; [exact H|].
  exact (combined_index_of_error example_env example_stat_name example_stats 14 H).
Defined.

Lemma stats_index_out_of_range_witness :
  (SessionStats.stats_n example_env < 2 ^ 31)%Z
  /\ ClientAPI.stats_value example_env example_running_client (-1) = 0%Z
  /\ SessionStats.stats_name example_env example_stat_name (-1) = "".
Proof.
  split; [reflexivity|].
  apply (stats_index_out_of_range example_env example_stat_name
           example_running_client (-1)).
  - reflexivity.
  - split; [discriminate | reflexivity].
  - left. reflexivity.
Defined.

Lemma stats_bundle_matches_stats_value_witness :
  List.length (ClientAPI.stats_bundle example_env example_running_client)
  = ClientAPI.combined_n example_env
  /\ nth 3 (ClientAPI.stats_bundle example_env example_running_client) 0%Z
     = ClientAPI.stats_value example_env example_running_client 3.
Proof.
  apply (stats_bundle_matches_stats_value example_env example_running_client 3).
  - reflexivity.
  - intros m _. reflexivity.
  - vm_compute. lia.
Defined.

Lemma do_connect_once_witness :
  ClientAPI.attach_called example_running_client = true
  /\ exists st,
      Connect.do_connect example_env
        (fun s => (ClientAPI.Ok tt, (ClientAPI.mk_status false "" "", true), s))
        (fun s => (ClientAPI.Ok tt, s)) (fun s => s) (fun _ => None) 0%N
        example_running_client
      = (st, example_running_client)
      /\ ClientAPI.status_error st = true
      /\ ClientAPI.status_message st
         = "ClientState::attach() can only be called once per ClientState instantiation".
Proof.
  split; [reflexivity|].
  exact (do_connect_once example_env
           (fun s => (ClientAPI.Ok tt, (ClientAPI.mk_status false "" "", true), s))
           (fun s => (ClientAPI.Ok tt, s)) (fun s => s) (fun _ => None) 0%N
           example_running_client eq_refl).
Defined.

(** ** Client events *)

Section EventFacts.

Import ClientEvents.
Local Open Scope list_scope.

Variable Base : Type.
Variable id : Base -> nat.
Variable name : Base -> string.
Variable render : Base -> string.
Variable is_error : Base -> bool.
Variable is_fatal : Base -> bool.
Variable connected_cast : Base -> option Connected.
Variable accm_protocol : Base -> string.
Variable accm_custommessage : Base -> string.
Variable CONNECTED : nat.
Variable DISCONNECTED : nat.
Variable CUSTOM_CONTROL : nat.

Local Abbreviation add_event :=
  (add_event Base id name render is_error is_fatal accm_protocol
             accm_custommessage CONNECTED DISCONNECTED CUSTOM_CONTROL).
Local Abbreviation add_events :=
  (add_events Base id name render is_error is_fatal accm_protocol
              accm_custommessage CONNECTED DISCONNECTED CUSTOM_CONTROL).
Local Abbreviation last_connected_of := (last_connected_of Base id CONNECTED).

Lemma add_events_from (evs : list Base) :
  CONNECTED <> CUSTOM_CONTROL ->
  forall q : MyClientEvents Base,
    parent Base q = true ->
    parent Base (add_events q evs) = true
    /\ last_connected Base (add_events q evs)
       = fold_left (fun r ev => if (id ev =? CONNECTED)%nat then Some ev else r)
                   evs (last_connected Base q).
Proof.
  intro Hids. induction evs as [|ev evs IH]; intros q Hq; [auto|].
  unfold ClientEvents.add_events in *. cbn [fold_left].
  unfold ClientEvents.add_event at 2 4. rewrite Hq.
  destruct (Nat.eqb_spec (id ev) CUSTOM_CONTROL) as [Hcc|_].
  - replace (id ev =? CONNECTED)%nat with false
      by (symmetry; apply Nat.eqb_neq; congruence).
    apply IH, Hq.
  - destruct (id ev =? CONNECTED)%nat.
    + cbn [fst]. exact (IH (mk_events Base true (Some ev)) eq_refl).
    + destruct (id ev =? DISCONNECTED)%nat; apply IH, Hq.
Qed.

Lemma fold_last_connected (evs : list Base) (r : option Base) :
  fold_left (fun r ev => if (id ev =? CONNECTED)%nat then Some ev else r) evs r
  = match last_connected_of evs with
    | Some ev => Some ev
    | None => r
    end.
Proof.
  unfold ClientEvents.last_connected_of. revert r.
  induction evs as [|ev evs IH]; intro r; [reflexivity|].
  cbn [fold_left]. rewrite IH.
  rewrite (IH (if (id ev =? CONNECTED)%nat then Some ev else None)).
  destruct (fold_left _ evs None); [reflexivity|].
  destruct (id ev =? CONNECTED)%nat; reflexivity.
Qed.

(** X24: The event queue remembers the last CONNECTED event and nothing makes it
    forget: after any run of events the stored event is the last CONNECTED
    event of the run, or the one stored before if the run has none; a
    DISCONNECTED event that follows does not clear it, so the connection
    information stays defined after a disconnect.  Once detached from the
    client, the queue ignores every event. *)
Theorem last_connected_event_is_kept
        (q : MyClientEvents Base) (evs : list Base) (ev : Base) :
  CONNECTED <> CUSTOM_CONTROL ->
  parent Base q = true ->
  last_connected Base (add_events q evs)
  = match last_connected_of evs with
    | Some c => Some c
    | None => last_connected Base q
    end
  /\ add_event (detach_from_parent Base q) ev = (detach_from_parent Base q, []).
Proof.
  intros Hids Hq. split; [|reflexivity].
  rewrite (proj2 (add_events_from evs Hids q Hq)). apply fold_last_connected.
Qed.

(** The connection information is defined exactly when a CONNECTED event is
    stored and is a Connected event, and then it is a copy of that event's
    data; without foreign-thread access or without an event queue it is the
    undefined default. *)
Theorem connection_info_defined (q : MyClientEvents Base) :
  (ci_defined (connection_info Base connected_cast true (Some q)) = true
   <-> exists ev c, last_connected Base q = Some ev /\ connected_cast ev = Some c)
  /\ (forall ev c,
         last_connected Base q = Some ev -> connected_cast ev = Some c ->
         let ci := connection_info Base connected_cast true (Some q) in
         ci_user ci = user c /\ ci_serverHost ci = server_host c
         /\ ci_serverPort ci = server_port c /\ ci_serverProto ci = server_proto c
         /\ ci_serverIp ci = server_ip c /\ ci_vpnIp4 ci = vpn_ip4 c
         /\ ci_vpnIp6 ci = vpn_ip6 c /\ ci_vpnMtu ci = vpn_mtu c
         /\ ci_gw4 ci = vpn_gw4 c /\ ci_gw6 ci = vpn_gw6 c
         /\ ci_clientIp ci = client_ip c /\ ci_tunName ci = tun_name c)
  /\ connection_info Base connected_cast false (Some q) = ConnectionInfo_default
  /\ connection_info Base connected_cast true None = ConnectionInfo_default.
Proof.
  unfold connection_info, get_connection_info.
  split; [|split; [|split; reflexivity]].
  - destruct (last_connected Base q) as [ev|].
    + destruct (connected_cast ev) as [c|] eqn:Hc; cbn.
      * split; [intros _; eauto | reflexivity].
      * split; [discriminate|]. intros (ev' & c & [= <-] & H). congruence.
    + cbn. split; [discriminate|]. intros (ev' & c & H & _). discriminate.
  - intros ev c -> ->. cbn. repeat split.
Qed.

End EventFacts.

Lemma last_connected_event_is_kept_witness :
  1 <> 9
  /\ ClientEvents.last_connected example_event
       (ClientEvents.add_events example_event fst (fun _ => "") (fun _ => "")
          (fun _ => false) (fun _ => false) (fun _ => "") (fun _ => "") 1 0 9
          (ClientEvents.MyClientEvents_new example_event) example_events)
     = Some (1, Some example_connected).
Proof.
  split; [discriminate|].
  exact (proj1 (last_connected_event_is_kept example_event fst (fun _ => "")
                  (fun _ => "") (fun _ => false) (fun _ => false)
                  (fun _ => "") (fun _ => "") 1 0 9
                  (ClientEvents.MyClientEvents_new example_event)
                  example_events (0, None) ltac:(discriminate) eq_refl)).
Defined.

(** ** The mbed TLS adapter: certificate verification and session set-up *)

Section AdapterFacts.

Import MbedTLS.
Local Open Scope Z_scope.
Local Open Scope list_scope.

Variable L : Library.

Lemma or_flag_keeps_bits (fail : bool) (vflags : Z) (n : Z) :
  Z.testbit vflags n = true -> Z.testbit (or_flag fail vflags) n = true.
Proof.
  intro H. unfold or_flag. destruct fail; [|exact H].
  rewrite Z.lor_spec, H. reflexivity.
Qed.

Lemma or_flag_cases (fail : bool) (vflags : Z) :
  or_flag fail vflags = vflags
  \/ or_flag fail vflags = Z.lor vflags MBEDTLS_X509_BADCERT_OTHER.
Proof. destruct fail; cbn; auto. Qed.

(** X25: The verify callbacks never stop the handshake themselves and never take
    back an error: in both modes and at every depth the callback returns 0,
    and the flags it leaves are the flags it was given, with at most
    MBEDTLS_X509_BADCERT_OTHER added. *)
Theorem verify_callback_only_adds_flags
        (s : SSL L) (cert : x509_crt) (depth vflags : Z) :
  let r := fst (verify_callback L s cert depth vflags) in
  fst r = 0
  /\ (snd r = vflags \/ snd r = Z.lor vflags MBEDTLS_X509_BADCERT_OTHER)
  /\ (forall n, Z.testbit vflags n = true -> Z.testbit (snd r) n = true).
Proof.
  cbv zeta. unfold verify_callback, verify_callback_client, verify_callback_server.
  destruct (mode (parent s)); cbn [fst snd];
    repeat match goal with
           | |- context [if ?b then _ else _] =>
               lazymatch b with
               | (depth =? _) => destruct b
               end
           | |- context [match authcert s with _ => _ end] =>
               destruct (authcert s)
           | |- context [load_issuer_fingerprint_into_authcert L ?a ?c] =>
               destruct (load_issuer_fingerprint_into_authcert L a c)
           end;
    cbn [fst snd];
    (split; [reflexivity|]);
    (split; [first [apply or_flag_cases | left; reflexivity]
            | intros n Hn; first [apply or_flag_keeps_bits, Hn | exact Hn]]).
Qed.

(** The policy checks are for the peer's own certificate only: the client
    callback leaves the flags of every certificate above the leaf as they
    are, and the server callback leaves flags and session alone above the
    issuer of the leaf. *)
Theorem verify_callback_leaf_only
        (s : SSL L) (cert : x509_crt) (depth vflags : Z) :
  depth <> 0 ->
  (mode (parent s) <> SERVER ->
   fst (verify_callback L s cert depth vflags) = (0, vflags))
  /\ (mode (parent s) = SERVER -> depth <> 1 ->
      verify_callback L s cert depth vflags = ((0, vflags), s)).
Proof.
  intro Hd. apply Z.eqb_neq in Hd. unfold verify_callback. split.
  - intro Hm. unfold verify_callback_client.
    destruct (mode (parent s)); [|contradiction|]; cbn [fst]; rewrite Hd;
      reflexivity.
  - intros -> H1. apply Z.eqb_neq in H1. unfold verify_callback_server.
    rewrite H1, Hd. reflexivity.
Qed.

(** X26: With mbed TLS 3 and later, an ns-cert-type requirement cannot be met:
    the check of the certificate type is compiled out and answers false, so
    every leaf certificate, whatever it holds, leaves the callback with
    MBEDTLS_X509_BADCERT_OTHER set, in client and in server mode. *)
Theorem ns_cert_type_fails_without_legacy
        (s : SSL L) (cert : x509_crt) (vflags : Z) :
  legacy_mbedtls L = false ->
  cfg_ns_cert_type (parent s) <> NS_NONE ->
  snd (fst (verify_callback L s cert 0 vflags))
  = Z.lor vflags MBEDTLS_X509_BADCERT_OTHER.
Proof.
  intros Hleg Hns.
  assert (Hfail : leaf_policy_fail L (parent s) cert = true).
  { unfold leaf_policy_fail, ns_cert_type_defined, verify_ns_cert_type.
    rewrite Hleg. destruct (cfg_ns_cert_type (parent s)); [contradiction| |];
      reflexivity. }
  unfold verify_callback, verify_callback_client, verify_callback_server.
  destruct (mode (parent s)); cbn [Z.eqb fst snd]; rewrite Hfail;
    reflexivity.
Qed.

(** X27: What a session is never built without: when the constructor succeeds
    the mode is client or server, a random number generator is set, the
    peer is verified against a CA chain unless verification is switched
    off, an optional peer certificate was not asked for together with
    verification, and a local certificate that is enabled is there, with
    its private key or, under external PKI, with an RSA key. *)
Theorem SSL_new_requirements (c : Config) (hostname : option string) (s : SSL L) :
  SSL_new L c hostname = Ok s ->
  mode c <> MODE_UNDEF
  /\ rng c = true
  /\ (ca_chain c = true \/ flag_set (flags c) (NO_VERIFY_PEER L) = true)
  /\ (flag_set (flags c) (PEER_CERT_OPTIONAL L) = true ->
      flag_set (flags c) (NO_VERIFY_PEER L) = true)
  /\ (local_cert_enabled c = true ->
      exists crt, crt_chain c = Some crt
                  /\ (if external_pki c then pk_is_rsa crt = true
                      else priv_key c = true)).
Proof.
  unfold SSL_new. intro H.
  destruct (mode c) eqn:Hm; try discriminate;
    destruct (flag_set (flags c) (NO_VERIFY_PEER L)) eqn:Hnv;
    destruct (flag_set (flags c) (PEER_CERT_OPTIONAL L)) eqn:Hopt;
    destruct (ca_chain c) eqn:Hca;
    cbn [negb andb] in H; try discriminate;
    destruct (rng c) eqn:Hrng;
    destruct (local_cert_enabled c) eqn:Hlc;
    destruct (external_pki c) eqn:Hepki;
    destruct (crt_chain c) as [crt|] eqn:Hcrt;
    destruct (priv_key c) eqn:Hpk;
    try destruct (pk_is_rsa crt) eqn:Hrsa;
    repeat match type of H with
           | (if ?b then _ else _) = _ => destruct b; try discriminate
           end;
    try discriminate;
    (split; [discriminate|]);
    (split; [reflexivity|]);
    (split; [auto|]);
    (split; [auto|]);
    intro Hen; try discriminate; eexists; split; try reflexivity; auto.
Qed.

Lemma be_value_app (a b : bytes) :
  be_value (a ++ b)
  = (be_value a * 256 ^ N.of_nat (List.length b) + be_value b)%N.
Proof.
  induction a as [|x a IH]; cbn [be_value app]; [cbn; lia|].
  rewrite IH, length_app, Nat2N.inj_add, N.pow_add_r. lia.
Qed.

Lemma be_value_zeros (n : nat) : be_value (repeat Byte.x00 n) = 0%N.
Proof.
  induction n as [|n IH]; cbn [repeat be_value]; [reflexivity|].
  rewrite IH. reflexivity.
Qed.

(** X28: The serial number is stored right-aligned: the field of the AuthCert
    keeps its size, and when the certificate's serial fits, the field, read
    as a big-endian number, is the serial read as a big-endian number; a
    serial that is empty or too long leaves the AuthCert as it is. *)
Theorem load_serial_number_value (a : AuthCert) (cert : x509_crt) :
  let a' := load_serial_number_into_authcert a cert in
  List.length (serial_number a') = List.length (serial_number a)
  /\ ((0 < List.length (serial cert) <= List.length (serial_number a))%nat ->
      be_value (serial_number a') = be_value (serial cert))
  /\ ((List.length (serial cert) = 0
       \/ List.length (serial_number a) < List.length (serial cert))%nat ->
      a' = a).
Proof.
  cbv zeta. unfold load_serial_number_into_authcert.
  destruct (Nat.ltb_spec 0 (List.length (serial cert))) as [Hpos|Hzero];
    destruct (Nat.leb_spec (List.length (serial cert))
                           (List.length (serial_number a))) as [Hfit|Hbig];
    cbn [andb serial_number].
  - split; [rewrite length_app, repeat_length; lia|].
    split; [|lia].
    intros _. rewrite be_value_app, be_value_zeros. reflexivity.
  - split; [reflexivity|]. split; [lia | reflexivity].
  - split; [reflexivity|]. split; [lia | reflexivity].
  - split; [reflexivity|]. split; [lia | reflexivity].
Qed.

(** X29: No raw error of the TLS library reaches the caller of the cleartext
    calls as a return value: a status that [write_cleartext_unbuffered] or
    [read_cleartext] returns is not negative, or is the SHOULD_RETRY or
    PEER_CLOSE_NOTIFY constant; and a session whose input overflowed
    returns no status at all. *)
Theorem cleartext_status_is_translated (s : SSL L) (data : bytes) (capacity : nat) :
  (forall n s', write_cleartext_unbuffered L s data = (Ok n, s') ->
                0 <= n \/ n = SHOULD_RETRY L)
  /\ (forall n got s', read_cleartext L s capacity = (Ok n, got, s') ->
                       overflow s = false
                       /\ (0 <= n \/ n = SHOULD_RETRY L \/ n = PEER_CLOSE_NOTIFY L)).
Proof.
  split.
  - intros n s'. unfold write_cleartext_unbuffered.
    destruct (run_callbacks L (mbedtls_ssl_write L (ssl s) data) s)
      as [[status e] s1].
    destruct (Z.ltb_spec status 0) as [Hneg|Hpos].
    + destruct (status =? CT_WOULD_BLOCK).
      * intros [= <- _]. auto.
      * destruct (status =? CT_INTERNAL_ERROR); discriminate.
    + intros [= <- _]. auto.
  - intros n got s'. unfold read_cleartext.
    destruct (overflow s); cbn [negb]; [discriminate|].
    destruct (run_callbacks L (mbedtls_ssl_read L (ssl s) capacity) s)
      as [[[status d] e] s1].
    destruct (Z.ltb_spec status 0) as [Hneg|Hpos].
    + destruct (status =? CT_WOULD_BLOCK).
      * intros [= <- _ _]. auto.
      * destruct (status =? MBEDTLS_ERR_SSL_PEER_CLOSE_NOTIFY L).
        -- intros [= <- _ _]. auto.
        -- destruct (status =? CT_INTERNAL_ERROR); discriminate.
    + intros [= <- _ _]. auto.
Qed.

End AdapterFacts.

Section CipherListFacts.

Import CipherList.
Local Open Scope list_scope.
Local Open Scope nat_scope.

Variable mbedtls_ssl_get_ciphersuite_id : string -> Z.

Lemma take_line_shorter (s : string) :
  String.length (snd (take_line s)) <= String.length s
  /\ count ":" (snd (take_line s))
     + (if String.eqb (snd (take_line s)) "" then 0 else 1)
     <= count ":" s.
Proof.
  induction s as [|a s IH]; cbn [take_line]; [cbn; lia|].
  cbn [count String.length].
  destruct (char_eqb a ":"); cbn [snd].
  - split; [lia|]. destruct (String.eqb s ""); lia.
  - destruct (take_line s) as [line r]. cbn [snd] in *. lia.
Qed.

Lemma array_write_inside (a : array) (i : nat) (v : Z) :
  i < List.length a ->
  exists a', array_write a i v = Some a'
             /\ List.length a' = List.length a
             /\ nth i a' None = Some v
             /\ (forall j, j <> i -> nth j a' None = nth j a None).
Proof.
  revert i. induction a as [|x a IH]; intros [|i] Hi; cbn in *; try lia.
  - eexists. split; [reflexivity|]. split; [reflexivity|].
    split; [reflexivity|]. intros [|j] Hj; [contradiction | reflexivity].
  - destruct (IH i ltac:(lia)) as (a' & Hw & Hl & Hn & Ho).
    rewrite Hw. eexists. split; [reflexivity|]. cbn.
    split; [now rewrite Hl|]. split; [exact Hn|].
    intros [|j] Hj; [reflexivity | apply Ho; lia].
Qed.

Lemma cipherlist_loop_safe (fuel : nat) :
  forall (stream : string) (i : nat) (a : array),
    String.length stream < fuel ->
    i + count ":" stream + (if String.eqb stream "" then 0 else 1) < List.length a ->
    filled a i ->
    exists a' k,
      cipherlist_loop mbedtls_ssl_get_ciphersuite_id fuel stream i a
      = configured a' k
      /\ List.length a' = List.length a
      /\ k < List.length a'
      /\ nth k a' None = Some 0%Z
      /\ filled a' k.
Proof.
  induction fuel as [|fuel IH]; intros stream i a Hfuel Hroom Hfilled; [lia|].
  cbn [cipherlist_loop]. unfold getline.
  destruct stream as [|c stream'].
  - cbn in Hroom.
    destruct (array_write_inside a i 0%Z ltac:(lia)) as (a' & Hw & Hl & Hn & Ho).
    rewrite Hw. exists a', i. split; [reflexivity|]. split; [exact Hl|].
    split; [lia|]. split; [exact Hn|].
    intros j Hj. rewrite Ho by lia. apply Hfilled, Hj.
  - set (stream := String c stream') in *.
    pose proof (take_line_shorter stream) as [Hshort Hcount].
    assert (Hlen : String.length (snd (take_line stream)) < String.length stream).
    { subst stream. cbn [take_line String.length].
      destruct (char_eqb c ":"); cbn [snd]; [lia|].
      pose proof (take_line_shorter stream') as [H _].
      destruct (take_line stream') as [line r]. cbn [snd] in *. lia. }
    remember (take_line stream) as tl eqn:Htl.
    destruct tl as [ciphersuite rest]. cbn [snd] in *.
    change (String.eqb stream "") with false in Hroom. cbv iota in Hroom.
    destruct (Z.eqb_spec (mbedtls_ssl_get_ciphersuite_id ciphersuite) 0)
      as [Hzero|Hid]; cbn [negb].
    + apply IH; [lia | lia | exact Hfilled].
    + destruct (array_write_inside a i
                  (mbedtls_ssl_get_ciphersuite_id ciphersuite) ltac:(lia))
        as (a' & Hw & Hl & Hn & Ho).
      rewrite Hw.
      destruct (IH rest (S i) a') as (a'' & k & Hr & Hl' & Hk & Hz & Hf).
      * lia.
      * rewrite Hl. lia.
      * intros j Hj. destruct (Nat.eq_dec j i) as [->|Hne].
        -- eexists. split; [exact Hn | exact Hid].
        -- rewrite Ho by exact Hne. apply Hfilled. lia.
      * exists a'', k. rewrite Hl' , Hl in *. auto.
Qed.

(** X30: [set_mbedtls_cipherlist] stays inside the array it allocates: for every
    cipher list, and whatever names the library knows, it comes to its end
    without a write outside the [num_ciphers + 1] elements, and the list it
    hands to the library is closed by a 0 inside the array, with nothing
    but ids that are not 0, and no element left without a value, before
    it. *)
Theorem set_mbedtls_cipherlist_in_bounds (cipher_list : string) :
  exists allowed_ciphers i,
    set_mbedtls_cipherlist mbedtls_ssl_get_ciphersuite_id cipher_list
    = configured allowed_ciphers i
    /\ List.length allowed_ciphers = count ":" cipher_list + 2
    /\ i < List.length allowed_ciphers
    /\ nth i allowed_ciphers None = Some 0%Z
    /\ (forall j, j < i ->
          exists v, nth j allowed_ciphers None = Some v /\ v <> 0%Z).
Proof.
  unfold set_mbedtls_cipherlist.
  destruct (cipherlist_loop_safe (String.length cipher_list + 1) cipher_list 0
              (new_array (count ":" cipher_list + 1 + 1)))
    as (a' & k & Hr & Hl & Hk & Hz & Hf).
  - lia.
  - unfold new_array. rewrite repeat_length.
    destruct (String.eqb cipher_list ""); lia.
  - intros j Hj. lia.
  - exists a', k. split; [exact Hr|].
    unfold new_array in Hl. rewrite repeat_length in Hl.
    split; [lia|]. auto.
Qed.

End CipherListFacts.

Lemma verify_callback_leaf_only_witness :
  (1 <> 0)%Z
  /\ fst (MbedTLS.verify_callback example_library example_client_session
            example_crt 1 0)
     = (0%Z, 0%Z)
  /\ MbedTLS.verify_callback example_library example_server_session
       example_crt 2 4
     = ((0%Z, 4%Z), example_server_session).
Proof.
  split; [discriminate|]. split.
  - exact (proj1 (verify_callback_leaf_only example_library example_client_session
                    example_crt 1 0 ltac:(discriminate)) ltac:(discriminate)).
  - exact (proj2 (verify_callback_leaf_only example_library example_server_session
                    example_crt 2 4 ltac:(discriminate)) eq_refl
                 ltac:(discriminate)).
Defined.

Lemma ns_cert_type_fails_without_legacy_witness :
  MbedTLS.legacy_mbedtls example_library = false
  /\ MbedTLS.cfg_ns_cert_type (MbedTLS.parent example_ns_session) <> MbedTLS.NS_NONE
  /\ snd (fst (MbedTLS.verify_callback example_library example_ns_session
                 example_crt 0 0))
     = MbedTLS.MBEDTLS_X509_BADCERT_OTHER.
Proof.
  split; [reflexivity|]. split; [discriminate|].
  exact (ns_cert_type_fails_without_legacy example_library example_ns_session
           example_crt 0 eq_refl ltac:(discriminate)).
Defined.

Lemma SSL_new_requirements_witness :
  MbedTLS.SSL_new example_library example_client_config None
  = MbedTLS.Ok example_client_session
  /\ MbedTLS.rng example_client_config = true
  /\ MbedTLS.ca_chain example_client_config = true.
Proof.
  split; [reflexivity|].
  destruct (SSL_new_requirements example_library example_client_config None
              example_client_session eq_refl) as (_ & Hrng & _).
  split; [exact Hrng | reflexivity].
Defined.

Example cipherlist_unknown_names_skipped :
  CipherList.set_mbedtls_cipherlist example_ciphersuite_id
    "TLS-DHE-RSA-WITH-AES-256-CBC-SHA:NO-SUCH-SUITE::TLS-ECDHE-RSA-WITH-AES-256-GCM-SHA384:"
  = CipherList.configured
      [Some 0x39%Z; Some 0xC030%Z; Some 0%Z; None; None; None] 2.
Proof. reflexivity. Qed.
